(** * disk-monitor: a verification development for [main.go]

    The program measures the capacity of the local Windows drives, appends
    the measurement to a JSON history file and shows tables and charts of
    the history.  This file embeds the functions of [main.go] in Gallina
    and proves properties of the embedding.

    Conventions of the embedding:
    - a Go [uint64] is a [Z] in [0, 2^64); arithmetic that can wrap has the
      wrap written out with [wrap64];
    - a Go [string] is a [string] of the Standard Library, read as a
      sequence of bytes;
    - a Go slice is [slice A = option (list A)]: [None] is the nil slice,
      which [encoding/json] prints as [null], [Some l] a non-nil slice;
    - a Go [float64] is a [spec_float] of the Standard Library's IEEE-754
      specification at precision 53 and exponent bound 1024;
    - a Go [(T, error)] result is a pair of options, as in the source;
    - what the operating system answers (drive bit mask, drive types,
      the result of [GetDiskFreeSpaceExW], whether a call beats the
      2-second timer, the state of the history file, the clock) is an
      explicit argument. *)

From Stdlib Require Import ZArith Lia Bool List String Ascii.
From Stdlib Require Import Floats.SpecFloat.
From stdpp Require Import base option list gmap strings sorting.

#[local] Set Warnings "-register-all,-abstract-large-number".
#[local] Open Scope string_scope.
#[local] Open Scope list_scope.
#[local] Open Scope Z_scope.

(** ** Machine integers *)

Module U64.

Definition modulus : Z := 2 ^ 64.

Definition wrap64 (z : Z) : Z := z mod modulus.

Definition in_range (z : Z) : Prop := 0 <= z < modulus.

(** [a - b] on [uint64]. *)
Definition sub (a b : Z) : Z := wrap64 (a - b).

(** [a * b] on [uint64]. *)
Definition mul (a b : Z) : Z := wrap64 (a * b).

(** [uint32(x)] of a [uintptr]. *)
Definition to_uint32 (z : Z) : Z := z mod 2 ^ 32.

End U64.

(** ** Go slices *)

Definition slice (A : Type) : Type := option (list A).

Definition items {A} (s : slice A) : list A :=
  match s with Some l => l | None => [] end.

(** [len(s)] *)
Definition len {A} (s : slice A) : nat := List.length (items s).

(** [append(s, x)]: never nil. *)
Definition append {A} (s : slice A) (x : A) : slice A := Some (items s ++ [x]).

(** ** Data model (main.go, lines 20-37) *)

Record DiskInfo := mkDiskInfo {
  Drive : string;
  TotalSpace : Z;
  FreeSpace : Z;
  UsedSpace : Z
}.

(** A [time.Time]: the wall-clock instant as seconds since the Unix epoch
    and nanoseconds within the second, the offset east of UTC (in seconds)
    that its location gives at that instant, and the monotonic clock
    reading that [time.Now] attaches (absent on parsed times). *)
Record Time := mkTime {
  unixSec : Z;
  nsec : Z;
  offset : Z;
  mono : option Z
}.

Record Snapshot := mkSnapshot {
  Timestamp : Time;
  Disks : slice DiskInfo
}.

Record HistoryData := mkHistoryData {
  Snapshots : slice Snapshot
}.

(** The errors the program builds or passes on. *)
Inductive error :=
| ErrConvertPath                     (* "failed to convert path: ..." *)
| ErrDiskInfo (drive : string)       (* "failed to get disk info for %s: ..." *)
| ErrTimeout (drive : string)        (* "timeout getting disk info for %s" *)
| ErrNoDrives                        (* "no drives found" *)
| ErrRead (code : Z)                 (* os.ReadFile failed, file exists *)
| ErrWrite (code : Z)                (* os.WriteFile failed *)
| ErrJSONSyntax                      (* *json.SyntaxError *)
| ErrJSONType                        (* *json.UnmarshalTypeError *)
| ErrTime                            (* error of Time.UnmarshalJSON / MarshalJSON *).

(** ** The Windows calls the prober consumes *)

Module Win.

(** What one call of [GetDiskFreeSpaceExW] does: it returns, having
    written the three out-parameters, before the 2-second timer fires,
    or it does not. *)
Inductive call :=
| Returns (ret freeBytesAvailable totalNumberOfBytes totalNumberOfFreeBytes : Z)
| Late.

Record env := mkEnv {
  GetLogicalDrives : Z;
  GetDriveTypeW : string -> Z;
  GetDiskFreeSpaceExW : string -> call
}.

Definition DRIVE_REMOTE : Z := 4.
Definition DRIVE_CDROM : Z := 5.

End Win.

(** ** Volume prober (main.go, lines 80-165) *)

Fixpoint has_nul (s : string) : bool :=
  match s with
  | EmptyString => false
  | String c r => if Ascii.eqb c zero then true else has_nul r
  end.

(** [getDiskSpace]: the goroutine stores the result or the error, the
    [select] returns them when the call came back in time and a timeout
    error otherwise. *)
Definition getDiskSpace (w : Win.env) (drive : string)
  : option DiskInfo * option error :=
  if has_nul drive then (None, Some ErrConvertPath)
  else
    match Win.GetDiskFreeSpaceExW w drive with
    | Win.Returns ret freeBytesAvailable totalNumberOfBytes _ =>
        if ret =? 0 then (None, Some (ErrDiskInfo drive))
        else (Some {| Drive := drive;
                      TotalSpace := totalNumberOfBytes;
                      FreeSpace := freeBytesAvailable;
                      UsedSpace := U64.sub totalNumberOfBytes freeBytesAvailable |},
              None)
    | Win.Late => (None, Some (ErrTimeout drive))
    end.

(** [fmt.Sprintf("%c:\\", 'A'+i)] *)
Definition drive_name (i : nat) : string :=
  String (ascii_of_nat (65 + i)) ":\".

Definition getDriveType (w : Win.env) (drive : string) : Z :=
  U64.to_uint32 (Win.GetDriveTypeW w drive).

(** [getAvailableDrives]: the loop over the 26 bits of the drive mask. *)
Definition getAvailableDrives (w : Win.env) : list string :=
  let driveBits := U64.to_uint32 (Win.GetLogicalDrives w) in
  fold_left
    (fun drives i =>
       if negb (Z.land driveBits (Z.shiftl 1 (Z.of_nat i)) =? 0) then
         let drive := drive_name i in
         let driveType := getDriveType w drive in
         if negb (driveType =? Win.DRIVE_CDROM) && negb (driveType =? Win.DRIVE_REMOTE)
         then drives ++ [drive] else drives
       else drives)
    (seq 0 26) [].

(** ** Probe scheduler: [getAllDisksInfo] (main.go, lines 167-204)

    One goroutine per drive sends on two buffered channels, [results] and
    [errors], in an order that depends on the outcome: a failed probe sends
    its error and then a nil result, a successful one its result and then
    a nil error.  The collecting loop receives one result and then one
    error per drive.  The goroutines and the loop interleave freely, which
    the model keeps as a step function indexed by the actor that moves. *)

Module Gather.

Inductive actor :=
| Worker (i : nat)
| Collector.

Record state := mkState {
  pc : list nat;                      (* sends done by each goroutine *)
  results : list (option DiskInfo);   (* channel contents, oldest first *)
  errors : list (option error);
  todo : nat;                         (* iterations of [for range drives] left *)
  got : option (option DiskInfo);     (* [info] received, [err] not yet *)
  disks : slice DiskInfo;
  stderr : list error                 (* what the loop printed *)
}.

Definition init (n : nat) : state :=
  {| pc := replicate n 0%nat; results := []; errors := [];
     todo := n; got := None; disks := None; stderr := [] |}.

Definition send_result (cap : nat) (i : nat) (x : option DiskInfo) (s : state)
  : option state :=
  if (List.length (results s) <? cap)%nat then
    Some {| pc := alter S i (pc s); results := results s ++ [x];
            errors := errors s; todo := todo s; got := got s;
            disks := disks s; stderr := stderr s |}
  else None.

Definition send_error (cap : nat) (i : nat) (e : option error) (s : state)
  : option state :=
  if (List.length (errors s) <? cap)%nat then
    Some {| pc := alter S i (pc s); results := results s;
            errors := errors s ++ [e]; todo := todo s; got := got s;
            disks := disks s; stderr := stderr s |}
  else None.

(** One goroutine [go func(d string) {...}(drive)] moves: its next send. *)
Definition worker_step (cap : nat) (i : nat)
    (out : option DiskInfo * option error) (s : state) : option state :=
  let '(info, err) := out in
  match pc s !! i with
  | Some 0%nat =>
      match err with
      | Some e => send_error cap i (Some e) s      (* errors <- err *)
      | None => send_result cap i info s           (* results <- info *)
      end
  | Some 1%nat =>
      match err with
      | Some _ => send_result cap i None s         (* results <- nil *)
      | None => send_error cap i None s            (* errors <- nil *)
      end
  | _ => None
  end.

(** The collecting loop moves: its next receive, and after the second
    receive of an iteration the body of the loop. *)
Definition collector_step (s : state) : option state :=
  match todo s with
  | O => None
  | S k =>
      match got s with
      | None =>
          match results s with
          | info :: r =>
              Some {| pc := pc s; results := r; errors := errors s;
                      todo := S k; got := Some info;
                      disks := disks s; stderr := stderr s |}
          | [] => None
          end
      | Some info =>
          match errors s with
          | err :: r =>
              Some {| pc := pc s; results := results s; errors := r;
                      todo := k; got := None;
                      disks := match err, info with
                               | Some _, _ => disks s
                               | None, Some d => append (disks s) d
                               | None, None => disks s
                               end;
                      stderr := match err with
                                | Some e => stderr s ++ [e]
                                | None => stderr s
                                end |}
          | [] => None
          end
      end
  end.

Section Run.
Variable w : Win.env.
Variable drives : list string.

Definition cap : nat := List.length drives.

Definition step (a : actor) (s : state) : option state :=
  match a with
  | Worker i =>
      match drives !! i with
      | Some d => worker_step cap i (getDiskSpace w d) s
      | None => None
      end
  | Collector => collector_step s
  end.

Definition steps (s s' : state) : Prop := exists a, step a s = Some s'.

(** Run a schedule; an actor that cannot move is passed over. *)
Fixpoint run (sched : list actor) (s : state) : state :=
  match sched with
  | [] => s
  | a :: rest => run rest (default s (step a s))
  end.

Definition reachable (s : state) : Prop := rtc steps (init cap) s.

(** The loop has ended: [return disks]. *)
Definition finished (s : state) : Prop := todo s = 0%nat.

(** [getAllDisksInfo] can return [ds], having printed [log]. *)
Definition returns (ds : slice DiskInfo) (log : list error) : Prop :=
  exists s, reachable s /\ finished s /\ disks s = ds /\ stderr s = log.

(** The schedule in which every goroutine runs to its end, in the
    order of the drives, before the loop starts to receive. *)
Definition sequential : list actor :=
  flat_map (fun i => [Worker i; Worker i]) (seq 0 cap)
  ++ flat_map (fun _ => [Collector; Collector]) (seq 0 cap).

End Run.

(** [getAllDisksInfo] over the drives that [getAvailableDrives] lists. *)
Definition getAllDisksInfo (w : Win.env) (ds : slice DiskInfo) (log : list error) : Prop :=
  returns w (getAvailableDrives w) ds log.

End Gather.

(** ** Bytes of strings *)

Module Bytes.

Definition code (c : ascii) : Z := Z.of_N (N_of_ascii c).
Definition chr (z : Z) : ascii := ascii_of_N (Z.to_N z).

Definition between (lo hi : Z) (c : ascii) : bool :=
  (lo <=? code c) && (code c <=? hi).

Definition is_digit (c : ascii) : bool := between 48 57 c.

(** Length of the well-formed multi-byte UTF-8 sequence at the head of
    [s]; [0] when the head is not the start of one. *)
Definition seq_len (s : string) : nat :=
  match s with
  | String c0 r0 =>
      let b0 := code c0 in
      if b0 <? 194 then 0%nat
      else if b0 <=? 223 then
        match r0 with
        | String c1 _ => if between 128 191 c1 then 2%nat else 0%nat
        | _ => 0%nat
        end
      else if b0 <=? 239 then
        match r0 with
        | String c1 (String c2 _) =>
            if between (if b0 =? 224 then 160 else 128)
                       (if b0 =? 237 then 159 else 191) c1
               && between 128 191 c2
            then 3%nat else 0%nat
        | _ => 0%nat
        end
      else if b0 <=? 244 then
        match r0 with
        | String c1 (String c2 (String c3 _)) =>
            if between (if b0 =? 240 then 144 else 128)
                       (if b0 =? 244 then 143 else 191) c1
               && between 128 191 c2 && between 128 191 c3
            then 4%nat else 0%nat
        | _ => 0%nat
        end
      else 0%nat
  | EmptyString => 0%nat
  end.

(** [utf8.EncodeRune] *)
Definition utf8_encode (r : Z) : string :=
  if r <? 128 then String (chr r) ""
  else if r <? 2048 then
    String (chr (192 + r / 64)) (String (chr (128 + r mod 64)) "")
  else if ((55296 <=? r) && (r <=? 57343)) || (1114111 <? r) then
    String (chr 239) (String (chr 191) (String (chr 189) ""))
  else if r <? 65536 then
    String (chr (224 + r / 4096))
      (String (chr (128 + (r / 64) mod 64)) (String (chr (128 + r mod 64)) ""))
  else
    String (chr (240 + r / 262144))
      (String (chr (128 + (r / 4096) mod 64))
         (String (chr (128 + (r / 64) mod 64)) (String (chr (128 + r mod 64)) ""))).

Definition replacement : string := utf8_encode 65533.

Definition hex_digit (z : Z) : ascii :=
  if z <? 10 then chr (48 + z) else chr (87 + z).

Definition hex_val (c : ascii) : option Z :=
  if between 48 57 c then Some (code c - 48)
  else if between 97 102 c then Some (code c - 87)
  else if between 65 70 c then Some (code c - 55)
  else None.

(** Four hexadecimal digits at the head of [s]. *)
Definition hex4 (s : string) : option Z :=
  match s with
  | String a (String b (String c (String d _))) =>
      match hex_val a, hex_val b, hex_val c, hex_val d with
      | Some a, Some b, Some c, Some d => Some (((a * 16 + b) * 16 + c) * 16 + d)
      | _, _, _, _ => None
      end
  | _ => None
  end.

(** [getu4]: the code unit of an escape [\uXXXX] at the head of [s]. *)
Definition getu4 (s : string) : option Z :=
  match s with
  | String a (String b r) =>
      if (code a =? 92) && (code b =? 117) then hex4 r else None
  | _ => None
  end.

Fixpoint drop (n : nat) (s : string) : string :=
  match n, s with
  | S n', String _ r => drop n' r
  | _, _ => s
  end.

End Bytes.

(** ** [float64] and [fmt] verbs *)

Module F64.

Definition prec : Z := 53.
Definition emax : Z := 1024.

(** [float64(n)] of an integer: round to nearest, ties to even. *)
Definition of_Z (n : Z) : spec_float := binary_normalize prec emax n 0 false.

Definition div : spec_float -> spec_float -> spec_float := SFdiv prec emax.
Definition add : spec_float -> spec_float -> spec_float := SFadd prec emax.
Definition sub : spec_float -> spec_float -> spec_float := SFsub prec emax.
Definition ltb : spec_float -> spec_float -> bool := SFltb.

(** [m * 2^e] in tenths, rounded to nearest with ties to even: the
    digits [strconv] keeps for the verb [%.1f]. *)
Definition tenths (m : positive) (e : Z) : Z :=
  if 0 <=? e then 10 * Z.pos m * 2 ^ e
  else
    let den := 2 ^ (- e) in
    let num := 10 * Z.pos m in
    let q := num / den in
    let r := num mod den in
    if (den <? 2 * r) || ((den =? 2 * r) && Z.odd q) then q + 1 else q.

End F64.

Module Fmt.

Definition digit (d : Z) : ascii := Bytes.chr (48 + d).

(** The loop of [strconv] that writes the decimal digits of a
    non-negative integer from the right. *)
Fixpoint itoa_loop (fuel : nat) (n : Z) (acc : string) : string :=
  match fuel with
  | O => acc
  | S fuel' =>
      let acc' := String (digit (n mod 10)) acc in
      if n <? 10 then acc' else itoa_loop fuel' (n / 10) acc'
  end.

(** [%d] of a non-negative integer.  A number has no more decimal
    digits than binary ones, which bounds the loop. *)
Definition itoa (n : Z) : string := itoa_loop (S (Z.to_nat (Z.log2 n))) n "".

(** [%.1f] *)
Definition f1 (x : spec_float) : string :=
  match x with
  | S754_nan => "NaN"
  | S754_infinity s => if s then "-Inf" else "+Inf"
  | S754_zero s => (if s then "-" else "") +:+ "0.0"
  | S754_finite s m e =>
      let t := F64.tenths m e in
      (if s then "-" else "") +:+ itoa (t / 10) +:+ "." +:+ itoa (t mod 10)
  end.

End Fmt.

(** ** [formatBytes] (main.go, lines 242-254) *)

(** The loop [for n := bytes / unit; n >= unit; n /= unit { div *= unit; exp++ }],
    entered with the current [n], [div] and [exp]; [None] when the fuel
    runs out. *)
Fixpoint scale (fuel : nat) (n div : Z) (exp : nat) : option (Z * nat) :=
  if 1024 <=? n then
    match fuel with
    | O => None
    | S fuel' => scale fuel' (n / 1024) (U64.mul div 1024) (S exp)
    end
  else Some (div, exp).

(** ["KMGTPE"[exp]]: [None] is the index-out-of-range panic. *)
Definition unit_letter (exp : nat) : option ascii :=
  String.get exp "KMGTPE".

Definition formatBytes (bytes : Z) : option string :=
  if bytes <? 1024 then Some (Fmt.itoa bytes +:+ " B")
  else
    match scale 64 (bytes / 1024) 1024 0 with
    | Some (div, exp) =>
        match unit_letter exp with
        | Some c =>
            Some (Fmt.f1 (F64.div (F64.of_Z bytes) (F64.of_Z div))
                  +:+ " " +:+ String c "B")
        | None => None
        end
    | None => None
    end.

(** ** [time.Time]: durations, calendar and layouts *)

Module GoTime.

(** The zero [Time]: January 1, year 1, 00:00:00 UTC. *)
Definition zero : Time :=
  {| unixSec := -62135596800; nsec := 0; offset := 0; mono := None |}.

Definition Second : Z := 1000000000.
Definition Hour : Z := 3600 * Second.
Definition minDuration : Z := - 2 ^ 63.
Definition maxDuration : Z := 2 ^ 63 - 1.

Definition saturate (d : Z) : Z :=
  if d <? minDuration then minDuration
  else if maxDuration <? d then maxDuration
  else d.

(** [t.Sub(u)]: the difference of the monotonic readings when both times
    carry one, of the wall clocks otherwise; out of range it is the
    smallest or the largest [Duration]. *)
Definition Sub (t u : Time) : Z :=
  match mono t, mono u with
  | Some a, Some b => saturate (a - b)
  | _, _ => saturate ((unixSec t - unixSec u) * Second + (nsec t - nsec u))
  end.

(** Proleptic Gregorian calendar: the date of a day counted from
    1970-01-01, and back. *)
Definition civil_of_days (z : Z) : Z * Z * Z :=
  let z := z + 719468 in
  let era := z / 146097 in
  let doe := z mod 146097 in
  let yoe := (doe - doe / 1460 + doe / 36524 - doe / 146096) / 365 in
  let doy := doe - (365 * yoe + yoe / 4 - yoe / 100) in
  let mp := (5 * doy + 2) / 153 in
  let d := doy - (153 * mp + 2) / 5 + 1 in
  let m := if mp <? 10 then mp + 3 else mp - 9 in
  let y := yoe + era * 400 in
  (if m <=? 2 then y + 1 else y, m, d).

Definition days_of_civil (y m d : Z) : Z :=
  let y := if m <=? 2 then y - 1 else y in
  let era := y / 400 in
  let yoe := y mod 400 in
  let doy := (153 * (if 2 <? m then m - 3 else m + 9) + 2) / 5 + d - 1 in
  let doe := yoe * 365 + yoe / 4 - yoe / 100 + doy in
  era * 146097 + doe - 719468.

Definition isLeap (y : Z) : bool :=
  (y mod 4 =? 0) && (negb (y mod 100 =? 0) || (y mod 400 =? 0)).

Definition daysIn (m y : Z) : Z :=
  if m =? 2 then (if isLeap y then 29 else 28)
  else if (m =? 4) || (m =? 6) || (m =? 9) || (m =? 11) then 30 else 31.

(** The calendar fields of a time in its own location. *)
Record fields := mkFields {
  year : Z; month : Z; day : Z; hour : Z; minute : Z; second : Z
}.

Definition clock (t : Time) : fields :=
  let abs := unixSec t + offset t in
  let '(y, m, d) := civil_of_days (abs / 86400) in
  let s := abs mod 86400 in
  {| year := y; month := m; day := d;
     hour := s / 3600; minute := (s mod 3600) / 60; second := s mod 60 |}.

(** [appendInt(b, x, width)]: decimal, zero-padded, with a sign for
    negative numbers. *)
Definition pad (width : nat) (s : string) : string :=
  String.concat "" (replicate (width - String.length s) "0") +:+ s.

Definition appendInt (x : Z) (width : nat) : string :=
  if x <? 0 then "-" +:+ pad width (Fmt.itoa (- x)) else pad width (Fmt.itoa x).

(** [t.Format("02.01 15:04")] *)
Definition format_label (t : Time) : string :=
  let f := clock t in
  appendInt (day f) 2 +:+ "." +:+ appendInt (month f) 2 +:+ " " +:+
  appendInt (hour f) 2 +:+ ":" +:+ appendInt (minute f) 2.

(** [t.Format("2006-01-02 15:04:05")] *)
Definition format_datetime (t : Time) : string :=
  let f := clock t in
  appendInt (year f) 4 +:+ "-" +:+ appendInt (month f) 2 +:+ "-" +:+
  appendInt (day f) 2 +:+ " " +:+ appendInt (hour f) 2 +:+ ":" +:+
  appendInt (minute f) 2 +:+ ":" +:+ appendInt (second f) 2.

End GoTime.

(** ** The dashboard model (main.go, lines 256-439) *)

Module I64.
(** Go's [int] on the 64-bit target. *)
Definition wrap (z : Z) : Z := (z + 2 ^ 63) mod 2 ^ 64 - 2 ^ 63.
Definition sub (a b : Z) : Z := wrap (a - b).
Definition mul (a b : Z) : Z := wrap (a * b).
(** [a / b], truncated; [b] is not zero. *)
Definition quot (a b : Z) : Z := wrap (Z.quot a b).
End I64.

Inductive viewType := viewChart | viewCurrent.

Record Model := mkModel {
  history : option HistoryData;        (* [*HistoryData], nil is [None] *)
  graphs : gmap string (list spec_float);
  currentView : viewType;
  selectedDisk : Z;
  width : Z;
  height : Z;
  err : option error;
  loading : bool;
  status : string
}.

Definition set_graphs (g : gmap string (list spec_float)) (m : Model) : Model :=
  {| history := history m; graphs := g; currentView := currentView m;
     selectedDisk := selectedDisk m; width := width m; height := height m;
     err := err m; loading := loading m; status := status m |}.

(** [float64(free) / 1024 / 1024 / 1024] *)
Definition GB (free : Z) : spec_float :=
  F64.div (F64.div (F64.div (F64.of_Z free) (F64.of_Z 1024)) (F64.of_Z 1024))
          (F64.of_Z 1024).

(** [for _, disk := range disks { if disk.Drive == drive { ...; break } }]:
    the disk the body runs on, if any. *)
Fixpoint find_disk (drive : string) (disks : list DiskInfo) : option DiskInfo :=
  match disks with
  | [] => None
  | disk :: rest =>
      if String.eqb (Drive disk) drive then Some disk else find_disk drive rest
  end.

(** The inner loops of [updateChart] for one drive. *)
Definition series (snapshots : list Snapshot) (drive : string) : list spec_float :=
  fold_left
    (fun data snapshot =>
       match find_disk drive (items (Disks snapshot)) with
       | Some disk => data ++ [GB (FreeSpace disk)]
       | None => data
       end)
    snapshots [].

(** The keys of [driveMap]. *)
Definition driveMap (snapshots : list Snapshot) : gset string :=
  fold_left
    (fun dm snapshot =>
       fold_left (fun dm disk => {[ Drive disk ]} ∪ dm) (items (Disks snapshot)) dm)
    snapshots ∅.

(** [updateChart]; [None] is the nil-pointer panic on [m.history]. *)
Definition updateChart (m : Model) : option Model :=
  match history m with
  | None => None
  | Some h =>
      let snapshots := items (Snapshots h) in
      if (List.length snapshots <? 2)%nat then Some m
      else
        let drives := merge_sort String.le (elements (driveMap snapshots)) in
        Some (set_graphs
                (fold_left (fun g drive => <[drive := series snapshots drive]> g)
                           drives ∅)
                m)
  end.

(** ** [renderChartView] (main.go, lines 532-653) *)

Definition nl : string := String (ascii_of_nat 10) "".

Inductive style :=
| titleStyle | headerStyle | diskNameStyle | helpStyle | selectedStyle
| lineStyle (color : nat) (selected : bool).

(** What the function writes to its [strings.Builder], in order; the
    renderings of lipgloss and asciigraph are kept as nodes. *)
Inductive piece :=
| Text (s : string)
| Styled (st : style) (s : string)
| Plot (data : list spec_float) (height width : Z) (caption : string).

(** [%+.1f] *)
Definition f1_plus (x : spec_float) : string :=
  match x with
  | S754_nan => "+NaN"
  | S754_infinity _ => Fmt.f1 x
  | S754_zero s | S754_finite s _ _ => if s then Fmt.f1 x else "+" +:+ Fmt.f1 x
  end.

(** The state of the loop that collects points and time labels. *)
Record collected := mkCollected {
  dataPoints : list spec_float;
  timeLabels : list string;
  lastTime : Time
}.

(** One iteration of [for i, snapshot := range m.history.Snapshots]. *)
Definition collect_step (n : nat) (selectedDrive : string)
    (acc : collected) (i : nat) (snapshot : Snapshot) : collected :=
  match find_disk selectedDrive (items (Disks snapshot)) with
  | Some disk =>
      let pts := dataPoints acc ++ [GB (FreeSpace disk)] in
      if (Z.of_nat i =? 0) || (Z.of_nat i =? Z.of_nat n - 1)
         || (12 * GoTime.Hour <? GoTime.Sub (Timestamp snapshot) (lastTime acc))
      then {| dataPoints := pts;
              timeLabels := timeLabels acc ++ [GoTime.format_label (Timestamp snapshot)];
              lastTime := Timestamp snapshot |}
      else {| dataPoints := pts;
              timeLabels := timeLabels acc ++ [""];
              lastTime := lastTime acc |}
  | None => acc
  end.

Fixpoint collect_from (n : nat) (selectedDrive : string) (i : nat)
    (snapshots : list Snapshot) (acc : collected) : collected :=
  match snapshots with
  | [] => acc
  | snapshot :: rest =>
      collect_from n selectedDrive (S i) rest
        (collect_step n selectedDrive acc i snapshot)
  end.

(** The whole loop of lines 556-575. *)
Definition collect (snapshots : list Snapshot) (selectedDrive : string) : collected :=
  collect_from (List.length snapshots) selectedDrive 0 snapshots
    {| dataPoints := []; timeLabels := []; lastTime := GoTime.zero |}.

(** Minimum, maximum and sum as the loop of lines 617-628 leaves them. *)
Definition stats (first : spec_float) (pts : list spec_float)
  : spec_float * spec_float * spec_float :=
  fold_left
    (fun '(mn, mx, sum) v =>
       (if F64.ltb v mn then v else mn,
        if F64.ltb mx v then v else mx,
        F64.add sum v))
    pts (first, first, S754_zero false).

(** [strings.Repeat(" ", count)]; [None] is its panic on a negative count. *)
Definition repeat_space (count : Z) : option string :=
  if count <? 0 then None
  else Some (String.concat "" (replicate (Z.to_nat count) " ")).

(** The time axis, lines 607-613. *)
Fixpoint time_axis (pointWidth : Z) (i : Z) (labels : list string)
  : option (list piece) :=
  match labels with
  | [] => Some []
  | label :: rest =>
      if String.eqb label "" then time_axis pointWidth (i + 1) rest
      else
        match repeat_space (I64.mul i pointWidth), time_axis pointWidth (i + 1) rest with
        | Some padding, Some out => Some (Text (padding +:+ label) :: out)
        | _, _ => None
        end
  end.

(** The legend, lines 640-650. *)
Fixpoint legend (selected : Z) (i : nat) (drives : list string) : list piece :=
  match drives with
  | [] => []
  | drive :: rest =>
      (if (0 <? i)%nat then [Text "  "] else [])
      ++ [Styled (lineStyle (i mod 8) (Z.of_nat i =? selected)) drive]
      ++ legend selected (S i) rest
  end.

(** What is drawn for the selected drive once its points are collected,
    lines 577-636. *)
Definition chart_body (m : Model) (chartHeight : Z) (selectedDrive : string)
    (c : collected) : option (list piece) :=
  match dataPoints c, last (dataPoints c) with
  | first :: _, Some current =>
      let caption :=
        "Drive " +:+ selectedDrive +:+ ": Current: " +:+ Fmt.f1 current +:+ " GB"
        +:+ (if (1 <? List.length (dataPoints c))%nat
             then ", Change: " +:+ f1_plus (F64.sub current first) +:+ " GB"
             else "") in
      let pointWidth :=
        I64.quot (I64.sub (width m) 10) (Z.of_nat (List.length (timeLabels c))) in
      match time_axis pointWidth 0 (timeLabels c) with
      | Some axis =>
          let '(mn, mx, sum) := stats first (dataPoints c) in
          let avg := F64.div sum (F64.of_Z (Z.of_nat (List.length (dataPoints c)))) in
          Some ([Plot (dataPoints c) chartHeight (I64.sub (width m) 10) caption;
                 Text nl]
                ++ axis
                ++ [Text (nl +:+ nl);
                    Text ("Stats for period:" +:+ nl);
                    Text ("  Min: " +:+ Fmt.f1 mn +:+ " GB" +:+ nl);
                    Text ("  Max: " +:+ Fmt.f1 mx +:+ " GB" +:+ nl);
                    Text ("  Avg: " +:+ Fmt.f1 avg +:+ " GB" +:+ nl);
                    Text ("  Range: " +:+ Fmt.f1 (F64.sub mx mn) +:+ " GB" +:+ nl)])
      | None => None
      end
  | _, _ => Some []
  end.

Definition chart_header : list piece :=
  [Styled headerStyle "Free space over time:"; Text (nl +:+ nl)].

Definition not_enough_data : list piece :=
  [Text ("Not enough data for a graph yet." +:+ nl);
   Text ("Run the program a few times to build history." +:+ nl)].

(** [renderChartView]; [None] is a panic (nil [m.history], negative
    [strings.Repeat] count). *)
Definition renderChartView (w : Win.env) (m : Model) : option (list piece) :=
  match history m with
  | None => None
  | Some h =>
      let snapshots := items (Snapshots h) in
      if (List.length snapshots <? 2)%nat then Some (chart_header ++ not_enough_data)
      else
        let chartHeight :=
          if I64.sub (height m) 20 <? 10 then 10 else I64.sub (height m) 20 in
        let drives := getAvailableDrives w in
        let body :=
          if (0 <=? selectedDisk m) && (selectedDisk m <? Z.of_nat (List.length drives))
          then
            match drives !! Z.to_nat (selectedDisk m) with
            | Some selectedDrive =>
                chart_body m chartHeight selectedDrive (collect snapshots selectedDrive)
            | None => None
            end
          else Some [] in
        match body with
        | Some out =>
            Some (chart_header ++ out ++ [Text (nl +:+ "Drives: ")]
                  ++ legend (selectedDisk m) 0 drives)
        | None => None
        end
  end.

(** ** The history file: [encoding/json] on [HistoryData]

    [saveHistory] and [loadHistory] go through [json.MarshalIndent] and
    [json.Unmarshal].  What these do on the three struct types of the
    program is written out here: the text of a JSON document, its
    syntax tree, and the reading of a tree into the structs by their
    [json:"..."] tags. *)


Module Quote.
Import Bytes.

Definition backslash : ascii := chr 92.
Definition dquote : ascii := chr 34.

(** One byte below [0x80] as [appendString] writes it, HTML escaping on. *)
Definition escape_ascii (c : ascii) : string :=
  let b := code c in
  if (32 <=? b) && negb (b =? 34) && negb (b =? 92)
     && negb (b =? 60) && negb (b =? 62) && negb (b =? 38)
  then String c ""
  else if (b =? 92) || (b =? 34) then String backslash (String c "")
  else if b =? 8 then String backslash "b"
  else if b =? 12 then String backslash "f"
  else if b =? 10 then String backslash "n"
  else if b =? 13 then String backslash "r"
  else if b =? 9 then String backslash "t"
  else String backslash
         ("u00" +:+ String (hex_digit (b / 16)) (String (hex_digit (b mod 16)) "")).

(** U+2028 and U+2029 at the head of [s]. *)
Definition line_sep (s : string) : option ascii :=
  match s with
  | String a (String b (String c _)) =>
      if (code a =? 226) && (code b =? 128) then
        if code c =? 168 then Some "8"%char
        else if code c =? 169 then Some "9"%char else None
      else None
  | _ => None
  end.

(** The loop of [appendString] between the quotes.  [k] counts the
    bytes still to pass of a sequence whose head has been examined:
    they are copied when [keep] and left out otherwise. *)
Fixpoint quote_body (k : nat) (keep : bool) (s : string) : string :=
  match s with
  | EmptyString => ""
  | String c r =>
      match k with
      | S k' => if keep then String c (quote_body k' keep r) else quote_body k' keep r
      | O =>
          if code c <? 128 then escape_ascii c +:+ quote_body 0 true r
          else
            match seq_len s with
            | O => String backslash "ufffd" +:+ quote_body 0 true r
            | S n =>
                match line_sep s with
                | Some d => String backslash ("u202" +:+ String d "")
                            +:+ quote_body n false r
                | None => String c (quote_body n true r)
                end
            end
      end
  end.

(** The string literal for a Go string, without the quotes. *)
Definition quote (s : string) : string := quote_body 0 true s.

Definition escaped_char (e : ascii) : ascii :=
  let b := code e in
  if b =? 98 then chr 8 else if b =? 102 then chr 12
  else if b =? 110 then chr 10 else if b =? 114 then chr 13
  else if b =? 116 then chr 9 else e.

(** What an escape [\uXXXX] at the head of [s] (after the backslash
    and the [u]) stands for, and how many bytes it takes after the
    backslash: a surrogate pair is read as one rune, a lone surrogate
    as U+FFFD. *)
Definition unicode_escape (s : string) : string * nat :=
  match hex4 s with
  | Some rr =>
      if (55296 <=? rr) && (rr <? 57344) then
        match getu4 (drop 4 s) with
        | Some rr1 =>
            if (rr <? 56320) && (56320 <=? rr1) && (rr1 <? 57344)
            then (utf8_encode ((rr - 55296) * 1024 + (rr1 - 56320) + 65536), 11%nat)
            else (replacement, 5%nat)
        | None => (replacement, 5%nat)
        end
      else (utf8_encode rr, 5%nat)
  | None => ("", 0%nat)
  end.

(** [unquoteBytes] on the inside of a literal that the scanner has
    accepted. *)
Fixpoint unquote_body (k : nat) (keep : bool) (s : string) : string :=
  match s with
  | EmptyString => ""
  | String c r =>
      match k with
      | S k' => if keep then String c (unquote_body k' keep r) else unquote_body k' keep r
      | O =>
          if code c =? 92 then
            match r with
            | String e r' =>
                if code e =? 117 then
                  let '(out, n) := unicode_escape r' in
                  out +:+ unquote_body n false r
                else String (escaped_char e) (unquote_body 1 false r)
            | EmptyString => ""
            end
          else if code c <? 128 then String c (unquote_body 0 true r)
          else
            match seq_len s with
            | O => replacement +:+ unquote_body 0 true r
            | S n => String c (unquote_body n true r)
            end
      end
  end.

Definition unquote (raw : string) : string := unquote_body 0 true raw.

End Quote.

Module Json.
Import Bytes.

(** The syntax tree of a document.  Numbers and strings keep their
    literal bytes: [Time.UnmarshalJSON] reads the bytes between the
    quotes as they stand, the other fields are unquoted on decoding. *)
Inductive json :=
| JNull
| JBool (b : bool)
| JNum (lit : string)
| JStr (raw : string)
| JArr (elems : list json)
| JObj (members : list (string * json)).

Definition is_ws (c : ascii) : bool :=
  (code c =? 32) || (code c =? 9) || (code c =? 13) || (code c =? 10).

Fixpoint skip_ws (s : string) : string :=
  match s with
  | String c r => if is_ws c then skip_ws r else s
  | EmptyString => s
  end.

Definition is_hex (c : ascii) : bool :=
  match hex_val c with Some _ => true | None => false end.

Definition simple_escape (c : ascii) : bool :=
  let b := code c in
  (b =? 34) || (b =? 92) || (b =? 47) || (b =? 98) || (b =? 102)
  || (b =? 110) || (b =? 114) || (b =? 116).

(** The scanner inside a string literal, after the opening quote: the
    bytes up to the closing quote, and what follows it. *)
Fixpoint scan_string (s : string) : option (string * string) :=
  match s with
  | EmptyString => None
  | String c r =>
      if code c =? 34 then Some ("", r)
      else if code c =? 92 then
        match r with
        | String e r' =>
            if simple_escape e then
              '(raw, rest) ← scan_string r';
              Some (String c (String e raw), rest)
            else if code e =? 117 then
              match r' with
              | String h1 (String h2 (String h3 (String h4 r''))) =>
                  if is_hex h1 && is_hex h2 && is_hex h3 && is_hex h4 then
                    '(raw, rest) ← scan_string r'';
                    Some (String c (String e (String h1 (String h2
                            (String h3 (String h4 raw))))), rest)
                  else None
              | _ => None
              end
            else None
        | EmptyString => None
        end
      else if code c <? 32 then None
      else
        '(raw, rest) ← scan_string r;
        Some (String c raw, rest)
  end.

(** The longest run of digits at the head of [s]. *)
Fixpoint digits (s : string) : string * string :=
  match s with
  | String c r =>
      if is_digit c then let '(ds, rest) := digits r in (String c ds, rest)
      else ("", s)
  | EmptyString => ("", s)
  end.

Definition scan_int (s : string) : option (string * string) :=
  match s with
  | String c r =>
      if code c =? 48 then Some ("0", r)
      else if is_digit c then let '(ds, rest) := digits r in Some (String c ds, rest)
      else None
  | EmptyString => None
  end.

Definition scan_frac (s : string) : option (string * string) :=
  match s with
  | String c r =>
      if code c =? 46 then
        match digits r with
        | (EmptyString, _) => None
        | (ds, rest) => Some (String c ds, rest)
        end
      else Some ("", s)
  | EmptyString => Some ("", s)
  end.

Definition scan_exp (s : string) : option (string * string) :=
  match s with
  | String c r =>
      if (code c =? 101) || (code c =? 69) then
        let '(sign, r1) :=
          match r with
          | String g r' => if (code g =? 43) || (code g =? 45)
                           then (String g "", r') else ("", r)
          | EmptyString => ("", r)
          end in
        match digits r1 with
        | (EmptyString, _) => None
        | (ds, rest) => Some (String c (sign +:+ ds), rest)
        end
      else Some ("", s)
  | EmptyString => Some ("", s)
  end.

(** A number literal at the head of [s]. *)
Definition scan_number (s : string) : option (string * string) :=
  let '(sign, s1) :=
    match s with
    | String c r => if code c =? 45 then ("-", r) else ("", s)
    | EmptyString => ("", s)
    end in
  '(i, s2) ← scan_int s1;
  '(f, s3) ← scan_frac s2;
  '(e, s4) ← scan_exp s3;
  Some (sign +:+ i +:+ f +:+ e, s4).

Definition expect (lit : string) (v : json) (s : string) : option (json * string) :=
  if String.prefix lit s then Some (v, drop (String.length lit) s) else None.

(** One value, the elements of an array after its first byte, the
    members of an object.  [depth] is the nesting still allowed. *)
Fixpoint parse_value (fuel depth : nat) (s : string) : option (json * string) :=
  match fuel with
  | O => None
  | S fuel' =>
      match skip_ws s with
      | String c r =>
          let b := code c in
          if b =? 123 then
            match depth with
            | O => None
            | S depth' =>
                match skip_ws r with
                | String c' r' =>
                    if code c' =? 125 then Some (JObj [], r')
                    else '(ms, rest) ← parse_members fuel' depth' r; Some (JObj ms, rest)
                | EmptyString => None
                end
            end
          else if b =? 91 then
            match depth with
            | O => None
            | S depth' =>
                match skip_ws r with
                | String c' r' =>
                    if code c' =? 93 then Some (JArr [], r')
                    else '(es, rest) ← parse_elems fuel' depth' r; Some (JArr es, rest)
                | EmptyString => None
                end
            end
          else if b =? 34 then
            '(raw, rest) ← scan_string r; Some (JStr raw, rest)
          else if (b =? 45) || is_digit c then
            '(lit, rest) ← scan_number (String c r); Some (JNum lit, rest)
          else if b =? 116 then expect "true" (JBool true) (String c r)
          else if b =? 102 then expect "false" (JBool false) (String c r)
          else if b =? 110 then expect "null" JNull (String c r)
          else None
      | EmptyString => None
      end
  end
with parse_elems (fuel depth : nat) (s : string) : option (list json * string) :=
  match fuel with
  | O => None
  | S fuel' =>
      '(v, r) ← parse_value fuel' depth s;
      match skip_ws r with
      | String c r' =>
          if code c =? 44 then
            '(vs, rest) ← parse_elems fuel' depth r'; Some (v :: vs, rest)
          else if code c =? 93 then Some ([v], r')
          else None
      | EmptyString => None
      end
  end
with parse_members (fuel depth : nat) (s : string)
  : option (list (string * json) * string) :=
  match fuel with
  | O => None
  | S fuel' =>
      match skip_ws s with
      | String q r =>
          if code q =? 34 then
            '(key, r1) ← scan_string r;
            match skip_ws r1 with
            | String c r2 =>
                if code c =? 58 then
                  '(v, r3) ← parse_value fuel' depth r2;
                  match skip_ws r3 with
                  | String c' r4 =>
                      if code c' =? 44 then
                        '(ms, rest) ← parse_members fuel' depth r4;
                        Some ((key, v) :: ms, rest)
                      else if code c' =? 125 then Some ([(key, v)], r4)
                      else None
                  | EmptyString => None
                  end
                else None
            | EmptyString => None
            end
          else None
      | EmptyString => None
      end
  end.

Definition maxNestingDepth : nat := 10000.

(** A whole document: one value between optional white space. *)
Definition parse (data : string) : option json :=
  '(v, rest) ← parse_value (2 * String.length data + 2) maxNestingDepth data;
  match skip_ws rest with
  | EmptyString => Some v
  | _ => None
  end.

(** [json.Indent] with prefix [""] and indent ["  "] on the compact
    encoding of a tree. *)
Definition newline (depth : nat) : string :=
  nl +:+ String.concat "" (replicate depth "  ").

Definition quoted (raw : string) : string :=
  String Quote.dquote (raw +:+ String Quote.dquote "").

Fixpoint print (depth : nat) (v : json) : string :=
  match v with
  | JNull => "null"
  | JBool b => if b then "true" else "false"
  | JNum lit => lit
  | JStr raw => quoted raw
  | JArr [] => "[]"
  | JArr (x :: xs) =>
      "[" +:+ newline (S depth) +:+ print (S depth) x
      +:+ (fix rest (l : list json) : string :=
             match l with
             | [] => ""
             | y :: l' => "," +:+ newline (S depth) +:+ print (S depth) y +:+ rest l'
             end) xs
      +:+ newline depth +:+ "]"
  | JObj [] => "{}"
  | JObj ((k, x) :: ms) =>
      "{" +:+ newline (S depth) +:+ quoted k +:+ ": " +:+ print (S depth) x
      +:+ (fix rest (l : list (string * json)) : string :=
             match l with
             | [] => ""
             | (k', y) :: l' =>
                 "," +:+ newline (S depth) +:+ quoted k' +:+ ": "
                 +:+ print (S depth) y +:+ rest l'
             end) ms
      +:+ newline depth +:+ "}"
  end.

End Json.

(** [Time.MarshalJSON] and [Time.UnmarshalJSON]: RFC 3339 with
    nanoseconds. *)
Module Rfc3339.
Import Bytes GoTime.

(** Trailing zeros removed. *)
Fixpoint trim_zeros (s : string) : string :=
  match s with
  | EmptyString => ""
  | String c r =>
      match trim_zeros r with
      | EmptyString => if code c =? 48 then "" else String c ""
      | r' => String c r'
      end
  end.

Definition frac (ns : Z) : string :=
  if ns =? 0 then "" else "." +:+ trim_zeros (appendInt ns 9).

Definition zone (off : Z) : string :=
  if off =? 0 then "Z"
  else
    let z := Z.quot off 60 in
    (if z <? 0 then "-" else "+")
    +:+ appendInt (Z.abs z / 60) 2 +:+ ":" +:+ appendInt (Z.abs z mod 60) 2.

(** [t.AppendFormat(b, RFC3339Nano)] *)
Definition format (t : Time) : string :=
  let f := clock t in
  appendInt (year f) 4 +:+ "-" +:+ appendInt (month f) 2 +:+ "-" +:+
  appendInt (day f) 2 +:+ "T" +:+ appendInt (hour f) 2 +:+ ":" +:+
  appendInt (minute f) 2 +:+ ":" +:+ appendInt (second f) 2 +:+
  frac (nsec t) +:+ zone (offset t).

(** The text [MarshalJSON] puts between the quotes; [None] is its error
    (year outside [0,9999], zone hour outside [0,23]). *)
Definition MarshalJSON (t : Time) : option string :=
  let y := year (clock t) in
  if (y <? 0) || (9999 <? y) then None
  else if negb (offset t =? 0) && (24 <=? Z.abs (Z.quot (offset t) 60) / 60) then None
  else Some (format t).

(** Exactly [n] digits with a value between [lo] and [hi]. *)
Fixpoint num_digits (n : nat) (acc : Z) (s : string) : option (Z * string) :=
  match n with
  | O => Some (acc, s)
  | S n' =>
      match s with
      | String c r =>
          if is_digit c then num_digits n' (acc * 10 + (code c - 48)) r else None
      | EmptyString => None
      end
  end.

Definition num (n : nat) (lo hi : Z) (s : string) : option (Z * string) :=
  '(x, r) ← num_digits n 0 s;
  if (lo <=? x) && (x <=? hi) then Some (x, r) else None.

Definition lit (b : Z) (s : string) : option string :=
  match s with
  | String c r => if code c =? b then Some r else None
  | EmptyString => None
  end.

(** The value in nanoseconds of the digits after the point: the first
    nine count. *)
Fixpoint nanos (weight : Z) (ds : string) : Z :=
  match ds with
  | String c r => (code c - 48) * weight + nanos (weight / 10) r
  | EmptyString => 0
  end.

Definition parse_frac (s : string) : Z * string :=
  match s with
  | String c (String d r) =>
      if (code c =? 46) && is_digit d then
        let '(ds, rest) := Json.digits (String d r) in (nanos 100000000 ds, rest)
      else (0, s)
  | _ => (0, s)
  end.

Definition parse_zone (s : string) : option Z :=
  match s with
  | String c EmptyString => if code c =? 90 then Some 0 else None
  | String sign r =>
      if (code sign =? 43) || (code sign =? 45) then
        '(hr, r1) ← num 2 0 23 r;
        r2 ← lit 58 r1;
        '(mm, r3) ← num 2 0 59 r2;
        match r3 with
        | EmptyString =>
            let z := (hr * 60 + mm) * 60 in
            Some (if code sign =? 45 then - z else z)
        | _ => None
        end
      else None
  | EmptyString => None
  end.

(** [parseRFC3339]: the strict reader, which [Time.UnmarshalJSON] and
    [time.Parse] try first. *)
Definition parseRFC3339 (s : string) : option Time :=
  '(y, s) ← num 4 0 9999 s;
  s ← lit 45 s;
  '(mo, s) ← num 2 1 12 s;
  s ← lit 45 s;
  '(d, s) ← num 2 1 (daysIn mo y) s;
  s ← lit 84 s;
  '(h, s) ← num 2 0 23 s;
  s ← lit 58 s;
  '(mi, s) ← num 2 0 59 s;
  s ← lit 58 s;
  '(sec, s) ← num 2 0 59 s;
  let '(ns, s) := parse_frac s in
  z ← parse_zone s;
  Some {| unixSec := days_of_civil y mo d * 86400 + h * 3600 + mi * 60 + sec - z;
          nsec := ns; offset := z; mono := None |}.

(** [getnum(s, fixed)]: the number of the first two bytes when both
    are digits, of the first byte alone when only it is a digit and
    [fixed] does not ask for two. *)
Definition getnum (s : string) (fixed : bool) : option (Z * string) :=
  match s with
  | String c r =>
      if is_digit c then
        match r with
        | String d r' =>
            if is_digit d then Some ((code c - 48) * 10 + (code d - 48), r')
            else if fixed then None else Some (code c - 48, r)
        | EmptyString => if fixed then None else Some (code c - 48, r)
        end
      else None
  | EmptyString => None
  end.

Definition commaOrPeriod (c : ascii) : bool := (code c =? 46) || (code c =? 44).

(** The fraction that [parse] reads after the seconds when the layout
    has none: as in [parseRFC3339], with a comma allowed for the
    point. *)
Definition parse_fraction (s : string) : Z * string :=
  match s with
  | String c (String d r) =>
      if commaOrPeriod c && is_digit d then
        let '(ds, rest) := Json.digits (String d r) in (nanos 100000000 ds, rest)
      else (0, s)
  | _ => (0, s)
  end.

(** The layout element [Z07:00] in [parse]: the letter [Z], or a sign,
    two digits, a colon and two digits.  The range tests are [hr > 24]
    and [mm > 60], so 24 hours and 60 minutes pass. *)
Definition parse_offset (s : string) : option (Z * string) :=
  match s with
  | String c r =>
      if code c =? 90 then Some (0, r)
      else
        match r with
        | String h1 (String h2 (String colon (String m1 (String m2 rest)))) =>
            if code colon =? 58 then
              '(hr, _) ← getnum (String h1 (String h2 "")) true;
              '(mm, _) ← getnum (String m1 (String m2 "")) true;
              if (24 <? hr) || (60 <? mm) then None
              else
                let zoneOffset := (hr * 60 + mm) * 60 in
                if code c =? 43 then Some (zoneOffset, rest)
                else if code c =? 45 then Some (- zoneOffset, rest)
                else None
            else None
        | _ => None
        end
  | EmptyString => None
  end.

(** [parse(RFC3339, s, UTC, Local)], the general reader of [time.Parse]
    at the layout [2006-01-02T15:04:05Z07:00], element by element: four
    digits of year, two of month, two of day, one or two of hour, two
    of minute and of second, an optional fraction, the zone, and no
    text after it; the day is checked against the month at the end. *)
Definition parse (s : string) : option Time :=
  '(y, s) ← num_digits 4 0 s;
  s ← lit 45 s;
  '(mo, s) ← getnum s true;
  if (mo <=? 0) || (12 <? mo) then None else
  s ← lit 45 s;
  '(d, s) ← getnum s true;
  s ← lit 84 s;
  '(h, s) ← getnum s false;
  if 24 <=? h then None else
  s ← lit 58 s;
  '(mi, s) ← getnum s true;
  if 60 <=? mi then None else
  s ← lit 58 s;
  '(sec, s) ← getnum s true;
  if 60 <=? sec then None else
  let '(ns, s) := parse_fraction s in
  '(z, s) ← parse_offset s;
  match s with
  | EmptyString =>
      if (d <? 1) || (daysIn mo y <? d) then None
      else Some {| unixSec := days_of_civil y mo d * 86400 + h * 3600 + mi * 60 + sec - z;
                   nsec := ns; offset := z; mono := None |}
  | _ => None
  end.

(** [time.Parse(RFC3339, s)] *)
Definition Parse (s : string) : option Time :=
  match parseRFC3339 s with
  | Some t => Some t
  | None => parse s
  end.

(** [parseStrictRFC3339], which [Time.UnmarshalJSON] calls on the text
    between the quotes: [parseRFC3339], and when that refuses the text,
    [time.Parse]; the checks that follow [time.Parse] in the source are
    behind [case true: return t, nil] and never run. *)
Definition parseStrictRFC3339 (s : string) : option Time :=
  match parseRFC3339 s with
  | Some t => Some t
  | None => Parse s
  end.

End Rfc3339.

(** What [Marshal] and [Unmarshal] do on [HistoryData], field by field. *)
Module Codec.
Import Bytes Json.

Fixpoint digits_value (acc : Z) (s : string) : option Z :=
  match s with
  | String c r =>
      if is_digit c then digits_value (acc * 10 + (code c - 48)) r else None
  | EmptyString => Some acc
  end.

(** [strconv.ParseUint(lit, 10, 64)] *)
Definition ParseUint (lit : string) : option Z :=
  match lit with
  | EmptyString => None
  | _ =>
      n ← digits_value 0 lit;
      if n <? U64.modulus then Some n else None
  end.

(** *** Encoding *)

Definition enc_uint (n : Z) : json := JNum (Fmt.itoa n).

Definition enc_string (s : string) : json := JStr (Quote.quote s).

Definition enc_slice {A} (enc : A -> option json) (s : slice A) : option json :=
  match s with
  | None => Some JNull
  | Some l => JArr <$> mapM enc l
  end.

Definition enc_disk (d : DiskInfo) : option json :=
  Some (JObj [("drive", enc_string (Drive d));
              ("total_space", enc_uint (TotalSpace d));
              ("free_space", enc_uint (FreeSpace d));
              ("used_space", enc_uint (UsedSpace d))]).

Definition enc_snapshot (s : Snapshot) : option json :=
  ts ← Rfc3339.MarshalJSON (Timestamp s);
  ds ← enc_slice enc_disk (Disks s);
  Some (JObj [("timestamp", JStr ts); ("disks", ds)]).

Definition enc_history (h : HistoryData) : option json :=
  ss ← enc_slice enc_snapshot (Snapshots h);
  Some (JObj [("snapshots", ss)]).

(** [json.MarshalIndent(history, "", "  ")]; [None] is the error of a
    time stamp that cannot be marshalled. *)
Definition MarshalIndent (h : HistoryData) : option string :=
  print 0 <$> enc_history h.

(** *** Decoding *)

(** [foldName]: the key under which a field is found when no tag
    matches exactly.  Besides the ASCII letters, U+017F and U+212A
    fold to [S] and [K]. *)
Fixpoint foldName (s : string) : string :=
  match s with
  | EmptyString => ""
  | String a r =>
      let b := code a in
      if (97 <=? b) && (b <=? 122) then String (chr (b - 32)) (foldName r)
      else
        match r with
        | String c1 r1 =>
            if (b =? 197) && (code c1 =? 191) then String "S" (foldName r1)
            else
              match r1 with
              | String c2 r2 =>
                  if (b =? 226) && (code c1 =? 132) && (code c2 =? 170)
                  then String "K" (foldName r2)
                  else String a (foldName r)
              | EmptyString => String a (foldName r)
              end
        | EmptyString => String a (foldName r)
        end
  end.

Fixpoint index_where {A} (p : A -> bool) (l : list A) : option nat :=
  match l with
  | [] => None
  | x :: r => if p x then Some 0%nat else S <$> index_where p r
  end.

(** The field of a struct with the given tags that a key selects: the
    exact tag first, then the first tag equal under folding. *)
Definition field (tags : list string) (key : string) : option nat :=
  match index_where (String.eqb key) tags with
  | Some i => Some i
  | None => index_where (fun t => String.eqb (foldName key) (foldName t)) tags
  end.

(** The first [UnmarshalTypeError] is kept while decoding goes on. *)
Definition saved : Type := option error.

Definition save (e : error) (sv : saved) : saved :=
  match sv with Some _ => sv | None => Some e end.

(** A value was decoded ([Ok]), or an [UnmarshalJSON] method returned
    an error and decoding stopped ([Abort]). *)
Inductive outcome (A : Type) :=
| Ok (a : A) (sv : saved)
| Abort (e : error).
Arguments Ok {A} a sv.
Arguments Abort {A} e.

Definition dec_uint (j : json) (cur : Z) (sv : saved) : outcome Z :=
  match j with
  | JNull => Ok cur sv
  | JNum lit =>
      match ParseUint lit with
      | Some n => Ok n sv
      | None => Ok cur (save ErrJSONType sv)
      end
  | _ => Ok cur (save ErrJSONType sv)
  end.

Definition dec_string (j : json) (cur : string) (sv : saved) : outcome string :=
  match j with
  | JNull => Ok cur sv
  | JStr raw => Ok (Quote.unquote raw) sv
  | _ => Ok cur (save ErrJSONType sv)
  end.

Definition dec_time (j : json) (cur : Time) (sv : saved) : outcome Time :=
  match j with
  | JNull => Ok cur sv
  | JStr raw =>
      match Rfc3339.parseStrictRFC3339 raw with
      | Some t => Ok t sv
      | None => Abort ErrTime
      end
  | _ => Abort ErrTime
  end.

(** A slice in the hands of the decoder: its elements, and the values
    that its backing array holds beyond its length.  An array decoded
    into a slice that was longer before leaves the old elements there,
    and an array decoded later into the same slice is read into
    them. *)
Record backed (A : Type) := mkBacked {
  upto : slice A;
  beyond : list A
}.
Arguments mkBacked {A} upto beyond.
Arguments upto {A} b.
Arguments beyond {A} b.

(** The nil slice. *)
Definition fresh {A} : backed A := {| upto := None; beyond := [] |}.

(** The elements of an array, each decoded into what the backing array
    holds at its index, and into a zero value beyond the backing
    array; with them, what the backing array holds after the last of
    them. *)
Fixpoint dec_list {A} (dec : json -> A -> saved -> outcome A) (zero : A)
    (js : list json) (backing : list A) (sv : saved)
  : outcome (list A * list A) :=
  match js with
  | [] => Ok ([], backing) sv
  | j :: js' =>
      match dec j (hd zero backing) sv with
      | Ok x sv' =>
          match dec_list dec zero js' (tl backing) sv' with
          | Ok (xs, rest) sv'' => Ok (x :: xs, rest) sv''
          | Abort e => Abort e
          end
      | Abort e => Abort e
      end
  end.

(** [null] makes the slice nil and an empty array makes a new empty
    slice; the elements of another array go into the backing array of
    the slice, which is cut or grown to their number. *)
Definition dec_slice {A} (dec : json -> A -> saved -> outcome A) (zero : A)
    (j : json) (cur : backed A) (sv : saved) : outcome (backed A) :=
  match j with
  | JNull => Ok fresh sv
  | JArr js =>
      match js with
      | [] => Ok {| upto := Some []; beyond := [] |} sv
      | _ =>
          match dec_list dec zero js (items (upto cur) ++ beyond cur) sv with
          | Ok (l, rest) sv' => Ok {| upto := Some l; beyond := rest |} sv'
          | Abort e => Abort e
          end
      end
  | _ => Ok cur (save ErrJSONType sv)
  end.

(** The members of an object, in order, each into the field its key
    selects; other keys are skipped. *)
Fixpoint dec_members {A} (tags : list string)
    (set : nat -> json -> A -> saved -> outcome A)
    (ms : list (string * json)) (cur : A) (sv : saved) : outcome A :=
  match ms with
  | [] => Ok cur sv
  | (key, v) :: ms' =>
      match field tags (Quote.unquote key) with
      | Some i =>
          match set i v cur sv with
          | Ok cur' sv' => dec_members tags set ms' cur' sv'
          | Abort e => Abort e
          end
      | None => dec_members tags set ms' cur sv
      end
  end.

Definition dec_struct {A} (tags : list string)
    (set : nat -> json -> A -> saved -> outcome A)
    (j : json) (cur : A) (sv : saved) : outcome A :=
  match j with
  | JNull => Ok cur sv
  | JObj ms => dec_members tags set ms cur sv
  | _ => Ok cur (save ErrJSONType sv)
  end.

Definition bind {A B} (o : outcome A) (k : A -> saved -> outcome B) : outcome B :=
  match o with Ok a sv => k a sv | Abort e => Abort e end.

Definition disk_tags : list string :=
  ["drive"; "total_space"; "free_space"; "used_space"].

Definition set_disk (i : nat) (v : json) (d : DiskInfo) (sv : saved)
  : outcome DiskInfo :=
  match i with
  | 0%nat => bind (dec_string v (Drive d) sv) (fun x =>
        Ok {| Drive := x; TotalSpace := TotalSpace d;
              FreeSpace := FreeSpace d; UsedSpace := UsedSpace d |})
  | 1%nat => bind (dec_uint v (TotalSpace d) sv) (fun x =>
        Ok {| Drive := Drive d; TotalSpace := x;
              FreeSpace := FreeSpace d; UsedSpace := UsedSpace d |})
  | 2%nat => bind (dec_uint v (FreeSpace d) sv) (fun x =>
        Ok {| Drive := Drive d; TotalSpace := TotalSpace d;
              FreeSpace := x; UsedSpace := UsedSpace d |})
  | _ => bind (dec_uint v (UsedSpace d) sv) (fun x =>
        Ok {| Drive := Drive d; TotalSpace := TotalSpace d;
              FreeSpace := FreeSpace d; UsedSpace := x |})
  end.

Definition zero_disk : DiskInfo :=
  {| Drive := ""; TotalSpace := 0; FreeSpace := 0; UsedSpace := 0 |}.

Definition dec_disk : json -> DiskInfo -> saved -> outcome DiskInfo :=
  dec_struct disk_tags set_disk.

Definition snapshot_tags : list string := ["timestamp"; "disks"].

(** A [Snapshot] in the hands of the decoder. *)
Record snapshot_var := mkSnapshotVar {
  var_Timestamp : Time;
  var_Disks : backed DiskInfo
}.

Definition snapshot_of (s : snapshot_var) : Snapshot :=
  {| Timestamp := var_Timestamp s; Disks := upto (var_Disks s) |}.

Definition set_snapshot (i : nat) (v : json) (s : snapshot_var) (sv : saved)
  : outcome snapshot_var :=
  match i with
  | 0%nat => bind (dec_time v (var_Timestamp s) sv) (fun x =>
        Ok {| var_Timestamp := x; var_Disks := var_Disks s |})
  | _ => bind (dec_slice dec_disk zero_disk v (var_Disks s) sv) (fun x =>
        Ok {| var_Timestamp := var_Timestamp s; var_Disks := x |})
  end.

Definition zero_snapshot : snapshot_var :=
  {| var_Timestamp := GoTime.zero; var_Disks := fresh |}.

Definition dec_snapshot : json -> snapshot_var -> saved -> outcome snapshot_var :=
  dec_struct snapshot_tags set_snapshot.

Definition history_tags : list string := ["snapshots"].

(** [HistoryData] in the hands of the decoder: its one field. *)
Definition history_var : Type := backed snapshot_var.

Definition history_of (h : history_var) : HistoryData :=
  {| Snapshots := fmap (M := option) (map snapshot_of) (upto h) |}.

Definition set_history (i : nat) (v : json) (h : history_var) (sv : saved)
  : outcome history_var :=
  dec_slice dec_snapshot zero_snapshot v h sv.

Definition dec_history : json -> history_var -> saved -> outcome history_var :=
  dec_struct history_tags set_history.

(** [json.Unmarshal(data, &history)] on [var history HistoryData]. *)
Definition Unmarshal (data : string) : HistoryData + error :=
  match parse data with
  | None => inr ErrJSONSyntax
  | Some j =>
      match dec_history j fresh None with
      | Ok h None => inl (history_of h)
      | Ok _ (Some e) => inr e
      | Abort e => inr e
      end
  end.

End Codec.

(** ** Snapshot store: [loadHistory] and [saveHistory] (main.go, lines 206-240) *)

Module Store.

(** The history file as [os.ReadFile] finds it. *)
Inductive file :=
| Absent
| Unreadable (code : Z)
| Present (data : string).

(** [loadHistory] *)
Definition loadHistory (f : file) : option HistoryData * option error :=
  match f with
  | Absent => (Some {| Snapshots := Some [] |}, None)
  | Unreadable c => (None, Some (ErrRead c))
  | Present data =>
      match Codec.Unmarshal data with
      | inl history => (Some history, None)
      | inr e => (None, Some e)
      end
  end.

(** [os.WriteFile] opens the file with [O_TRUNC], writes and closes.
    How far it got when it stopped: the file was not opened, or it was
    cut to length zero and [n] bytes went in. *)
Inductive progress :=
| NotOpened
| Wrote (n : nat).

Definition file_after (p : progress) (data : string) (f : file) : file :=
  match p with
  | NotOpened => f
  | Wrote n => Present (substring 0 n data)
  end.

(** What happens to one call of [os.WriteFile] that returns. *)
Inductive write_event :=
| Completes
| Fails (code : Z) (p : progress).

Definition WriteFile (ev : write_event) (data : string) (f : file)
  : file * option error :=
  match ev with
  | Completes => (Present data, None)
  | Fails c p => (file_after p data f, Some (ErrWrite c))
  end.

(** [saveHistory] *)
Definition saveHistory (ev : write_event) (history : HistoryData) (f : file)
  : file * option error :=
  match Codec.MarshalIndent history with
  | None => (f, Some ErrTime)
  | Some data => WriteFile ev data f
  end.

(** The file that is left when the process is stopped inside
    [saveHistory] with [os.WriteFile] at [p]. *)
Definition interrupted (p : progress) (history : HistoryData) (f : file) : file :=
  match Codec.MarshalIndent history with
  | None => f
  | Some data => file_after p data f
  end.

End Store.

(** ** One capture cycle on the command line: [collectAndSave]
    (main.go, lines 655-691) *)

(** [%.1f%%] of [float64(used) / float64(total) * 100] *)
Definition percent (used total : Z) : string :=
  Fmt.f1 (SFmul F64.prec F64.emax (F64.div (F64.of_Z used) (F64.of_Z total))
            (F64.of_Z 100)) +:+ "%".

Definition disk_report (disk : DiskInfo) : option (list string) :=
  total ← formatBytes (TotalSpace disk);
  free ← formatBytes (FreeSpace disk);
  used ← formatBytes (UsedSpace disk);
  Some ["Drive " +:+ Drive disk +:+ ":" +:+ nl;
        "  Total:     " +:+ total +:+ nl;
        "  Free:      " +:+ free +:+ nl;
        "  Used:      " +:+ used +:+ nl;
        "  Used:      " +:+ percent (UsedSpace disk) (TotalSpace disk) +:+ nl;
        nl].

Record cli_result := mkCli {
  cli_file : Store.file;
  cli_err : option error;
  cli_stdout : list string
}.

(** [collectAndSave], given what [getAllDisksInfo] returned, the clock
    and the fate of the write; [None] is a panic. *)
Definition collectAndSave (disks : slice DiskInfo) (now : Time)
    (ev : Store.write_event) (f : Store.file) : option cli_result :=
  if (len disks =? 0)%nat then Some (mkCli f (Some ErrNoDrives) [])
  else
    let snapshot := {| Timestamp := now; Disks := disks |} in
    match Store.loadHistory f with
    | (_, Some e) => Some (mkCli f (Some e) [])
    | (None, None) => None
    | (Some history, None) =>
        let history' := {| Snapshots := append (Snapshots history) snapshot |} in
        match Store.saveHistory ev history' f with
        | (f', Some e) => Some (mkCli f' (Some e) [])
        | (f', None) =>
            reports ← mapM disk_report (items disks);
            Some (mkCli f' None
                    (["Disk data saved:" +:+ nl;
                      "Time: " +:+ GoTime.format_datetime (Timestamp snapshot) +:+ nl;
                      "----------------------------------------" +:+ nl]
                     ++ concat reports))
        end
    end.

(** ** The dashboard's [Update] (main.go, lines 309-382) *)

Inductive msg :=
| KeyMsg (key : string)
| WindowSizeMsg (w h : Z)
| diskInfoMsg (disks : slice DiskInfo).

Inductive cmd := NoCmd | Quit | collectDataCmd.

Definition set_view (v : viewType) (m : Model) : Model :=
  {| history := history m; graphs := graphs m; currentView := v;
     selectedDisk := selectedDisk m; width := width m; height := height m;
     err := err m; loading := loading m; status := status m |}.

Definition set_selected (i : Z) (m : Model) : Model :=
  {| history := history m; graphs := graphs m; currentView := currentView m;
     selectedDisk := i; width := width m; height := height m;
     err := err m; loading := loading m; status := status m |}.

Definition set_size (w h : Z) (m : Model) : Model :=
  {| history := history m; graphs := graphs m; currentView := currentView m;
     selectedDisk := selectedDisk m; width := w; height := h;
     err := err m; loading := loading m; status := status m |}.

Definition set_state (hist : option HistoryData) (e : option error)
    (l : bool) (st : string) (m : Model) : Model :=
  {| history := hist; graphs := graphs m; currentView := currentView m;
     selectedDisk := selectedDisk m; width := width m; height := height m;
     err := e; loading := l; status := st |}.

(** [NewModel] *)
Definition NewModel (f : Store.file) : Model :=
  {| history := fst (Store.loadHistory f); graphs := ∅;
     currentView := viewCurrent; selectedDisk := 0; width := 0; height := 0;
     err := None; loading := true; status := "Loading data..." |}.

(** [Update]: the new model, the command and the history file; [None] is
    a panic. *)
Definition Update (w : Win.env) (now : Time) (ev : Store.write_event)
    (f : Store.file) (m : Model) (ms : msg) : option (Model * cmd * Store.file) :=
  match ms with
  | KeyMsg key =>
      if String.eqb key "ctrl+c" || String.eqb key "q" || String.eqb key "esc"
      then Some (m, Quit, f)
      else if String.eqb key "tab" then
        if loading m then Some (m, NoCmd, f)
        else
          m' ← updateChart
                 (set_view (match currentView m with
                            | viewChart => viewCurrent
                            | viewCurrent => viewChart
                            end) m);
          Some (m', NoCmd, f)
      else if String.eqb key "up" || String.eqb key "k" then
        if loading m then Some (m, NoCmd, f)
        else if 0 <? selectedDisk m then
          m' ← updateChart (set_selected (I64.sub (selectedDisk m) 1) m);
          Some (m', NoCmd, f)
        else Some (m, NoCmd, f)
      else if String.eqb key "down" || String.eqb key "j" then
        if loading m then Some (m, NoCmd, f)
        else if selectedDisk m <? Z.of_nat (List.length (getAvailableDrives w)) - 1 then
          m' ← updateChart (set_selected (I64.wrap (selectedDisk m + 1)) m);
          Some (m', NoCmd, f)
        else Some (m, NoCmd, f)
      else if String.eqb key "r" then
        if loading m then Some (m, NoCmd, f)
        else Some (set_state (history m) (err m) true "Refreshing data..." m,
                   collectDataCmd, f)
      else Some (m, NoCmd, f)
  | WindowSizeMsg wd ht =>
      let m1 := set_size wd ht m in
      if loading m1 then Some (m1, NoCmd, f)
      else m' ← updateChart m1; Some (m', NoCmd, f)
  | diskInfoMsg disks =>
      if (len disks =? 0)%nat
      then Some (set_state (history m) (Some ErrNoDrives) false (status m) m, NoCmd, f)
      else
        match history m with
        | None => None
        | Some h =>
            let snapshot := {| Timestamp := now; Disks := disks |} in
            let h' := {| Snapshots := append (Snapshots h) snapshot |} in
            let '(f', e) := Store.saveHistory ev h' f in
            m' ← updateChart
                   (set_state (Some h')
                              (match e with Some _ => e | None => err m end)
                              false "" m);
            Some (m', NoCmd, f')
        end
  end.

(** * Properties *)

#[local] Arguments String.append !s1 s2 : simpl nomatch.

(** ** The prober and the probe scheduler *)

Lemma getDiskSpace_cases w d :
  (exists info, getDiskSpace w d = (Some info, None)) \/
  (exists e, getDiskSpace w d = (None, Some e)).
Proof.
  unfold getDiskSpace. destruct (has_nul d); [right; eauto|].
  destruct (Win.GetDiskFreeSpaceExW w d) as [ret fa tot tf|]; [|right; eauto].
  destruct (ret =? 0); [right|left]; eauto.
Qed.

Lemma getDiskSpace_ok w d info :
  getDiskSpace w d = (Some info, None) ->
  exists ret tf,
    Win.GetDiskFreeSpaceExW w d = Win.Returns ret (FreeSpace info) (TotalSpace info) tf
    /\ ret <> 0 /\ Drive info = d
    /\ UsedSpace info = U64.wrap64 (TotalSpace info - FreeSpace info).
Proof.
  unfold getDiskSpace. destruct (has_nul d); [discriminate|].
  destruct (Win.GetDiskFreeSpaceExW w d) as [ret fa tot tf|]; [|discriminate].
  destruct (Z.eqb_spec ret 0); [discriminate|].
  intros [= <-]. exists ret, tf. simpl. auto.
Qed.

Section GatherFacts.
Import Gather.
Variable w : Win.env.
Variable drives : list string.

Definition probed (info : DiskInfo) : Prop :=
  exists d, d ∈ drives /\ getDiskSpace w d = (Some info, None).

(** Every result in flight, in hand or collected is the result of a
    probe that succeeded. *)
Definition sound (s : state) : Prop :=
  (forall info, Some info ∈ results s -> probed info)
  /\ (forall info, got s = Some (Some info) -> probed info)
  /\ (forall info, info ∈ items (disks s) -> probed info).

Lemma sound_init : sound (init (cap drives)).
Proof.
  repeat split; simpl; intros info H; try discriminate; inversion H.
Qed.

Lemma sound_step s s' : steps w drives s s' -> sound s -> sound s'.
Proof.
  intros [a Ha] (Hr & Hg & Hd). destruct a as [i|]; simpl in Ha.
  - destruct (drives !! i) as [d|] eqn:Hi; [|discriminate].
    assert (Hin : d ∈ drives) by (eapply list_elem_of_lookup_2; eauto).
    unfold worker_step in Ha.
    destruct (getDiskSpace_cases w d) as [[info Hok]|[e Hko]].
    + rewrite Hok in Ha.
      destruct (pc s !! i) as [[|[|?]]|]; try discriminate;
        unfold send_result, send_error in Ha;
        match type of Ha with (if ?c then _ else _) = _ => destruct c; [|discriminate] end;
        injection Ha as <-; repeat split; simpl; auto.
      intros info' [H|H]%elem_of_app; [auto|].
      apply list_elem_of_singleton in H. injection H as ->. exists d; auto.
    + rewrite Hko in Ha.
      destruct (pc s !! i) as [[|[|?]]|]; try discriminate;
        unfold send_result, send_error in Ha;
        match type of Ha with (if ?c then _ else _) = _ => destruct c; [|discriminate] end;
        injection Ha as <-; repeat split; simpl; auto.
      intros info' [H|H]%elem_of_app; [auto|].
      apply list_elem_of_singleton in H. discriminate.
  - unfold collector_step in Ha.
    destruct (todo s) as [|k]; [discriminate|].
    destruct (got s) as [info|] eqn:Hgot.
    + destruct (errors s) as [|e r]; [discriminate|].
      injection Ha as <-. repeat split; simpl; auto; try discriminate.
      intros info'. destruct e as [e|]; [auto|].
      destruct info as [d|]; [|auto].
      simpl. intros [H|H]%elem_of_app; [auto|].
      apply list_elem_of_singleton in H. subst. auto.
    + destruct (results s) as [|x r] eqn:Hres; [discriminate|].
      injection Ha as <-. repeat split; simpl; auto.
      * intros info H. apply Hr. right. exact H.
      * intros info [= ->]. apply Hr. left.
Qed.

Lemma sound_reachable s : reachable w drives s -> sound s.
Proof.
  unfold reachable. intros H.
  eapply (rtc_ind_r (fun s => sound s)); [apply sound_init | | exact H].
  intros y z _ Hs Hy. eapply sound_step; eauto.
Qed.


(** *** Counting the sends: no interleaving blocks, all of them end *)

Definition ok (d : string) : bool :=
  match snd (getDiskSpace w d) with None => true | Some _ => false end.

(** Sends on [results] and on [errors] that a goroutine at [p] has done. *)
Definition rsent (p : nat) (d : string) : nat :=
  if ok d then (if (1 <=? p)%nat then 1 else 0)%nat
  else (if (2 <=? p)%nat then 1 else 0)%nat.

Definition esent (p : nat) (d : string) : nat :=
  if ok d then (if (2 <=? p)%nat then 1 else 0)%nat
  else (if (1 <=? p)%nat then 1 else 0)%nat.

Definition total (f : nat -> string -> nat) (pcs : list nat) (ds : list string) : nat :=
  sum_list (zip_with f pcs ds).

Definition in_hand (s : state) : nat :=
  match got s with Some _ => 1%nat | None => 0%nat end.

Definition counted (s : state) : Prop :=
  List.length (pc s) = cap drives
  /\ (todo s <= cap drives)%nat
  /\ (List.length (results s) + (cap drives - todo s) + in_hand s
      = total rsent (pc s) drives)%nat
  /\ (List.length (errors s) + (cap drives - todo s)
      = total esent (pc s) drives)%nat
  /\ (in_hand s <= todo s)%nat.

Lemma total_alter f ds : forall pcs i p d,
  pcs !! i = Some p -> ds !! i = Some d ->
  (total f (alter S i pcs) ds + f p d = total f pcs ds + f (S p) d)%nat.
Proof.
  unfold total. induction ds as [|d0 ds IH]; intros pcs i p d Hp Hd.
  - destruct i; discriminate.
  - destruct pcs as [|p0 pcs]; [destruct i; discriminate|].
    destruct i as [|i]; simpl in *.
    + injection Hp as ->. injection Hd as ->. lia.
    + specialize (IH pcs i p d Hp Hd).
      change (alter S (S i) (p0 :: pcs)) with (p0 :: alter S i pcs). simpl.
      change (list_alter S i pcs) with (alter S i pcs). lia.
Qed.

Lemma total_le f ds : (forall p d, f p d <= 1)%nat ->
  forall pcs, List.length pcs = List.length ds -> (total f pcs ds <= List.length ds)%nat.
Proof.
  intros Hf. unfold total. induction ds as [|d ds IH]; intros [|p pcs] Hl;
    simpl in *; try lia.
  specialize (IH pcs (eq_add_S _ _ Hl)). specialize (Hf p d). lia.
Qed.

Lemma total_lt f ds : (forall p d, f p d <= 1)%nat ->
  forall pcs i p d, List.length pcs = List.length ds ->
  pcs !! i = Some p -> ds !! i = Some d -> f p d = 0%nat ->
  (total f pcs ds < List.length ds)%nat.
Proof.
  intros Hf. induction ds as [|d0 ds IH]; intros pcs i p d Hl Hp Hd H0.
  - destruct i; discriminate.
  - destruct pcs as [|p0 pcs]; [destruct i; discriminate|].
    destruct i as [|i]; simpl in *.
    + injection Hp as ->. injection Hd as ->.
      pose proof (total_le f ds Hf pcs (eq_add_S _ _ Hl)). unfold total in *. simpl. lia.
    + specialize (IH pcs i p d (eq_add_S _ _ Hl) Hp Hd H0).
      specialize (Hf p0 d0). unfold total in *. simpl. lia.
Qed.

Lemma total_missing f ds : (forall p d, f p d <= 1)%nat ->
  forall pcs, List.length pcs = List.length ds ->
  (total f pcs ds < List.length ds)%nat ->
  exists i p d, pcs !! i = Some p /\ ds !! i = Some d /\ f p d = 0%nat.
Proof.
  intros Hf. induction ds as [|d0 ds IH]; intros [|p0 pcs] Hl Hlt;
    simpl in *; try lia.
  destruct (f p0 d0) eqn:E.
  - exists 0%nat, p0, d0. auto.
  - destruct (IH pcs (eq_add_S _ _ Hl)) as (i & p & d & ? & ? & ?).
    { specialize (Hf p0 d0). unfold total in *. simpl in Hlt. lia. }
    exists (S i), p, d. auto.
Qed.

Lemma rsent_le p d : (rsent p d <= 1)%nat.
Proof. unfold rsent. repeat case_match; lia. Qed.

Lemma esent_le p d : (esent p d <= 1)%nat.
Proof. unfold esent. repeat case_match; lia. Qed.

Lemma total_start f : (forall d, f 0%nat d = 0%nat) ->
  forall ds, total f (replicate (List.length ds) 0%nat) ds = 0%nat.
Proof.
  intros Hf. unfold total. induction ds as [|d ds IH]; simpl; [reflexivity|].
  rewrite IH, Hf. reflexivity.
Qed.

Lemma counted_init : counted (init (cap drives)).
Proof.
  unfold counted, init, in_hand, cap; simpl.
  rewrite length_replicate, Nat.sub_diag, !total_start.
  - repeat split; lia.
  - intros d. unfold esent. destruct (ok d); reflexivity.
  - intros d. unfold rsent. destruct (ok d); reflexivity.
Qed.

Lemma worker_step_inv i d s s' :
  drives !! i = Some d -> worker_step (cap drives) i (getDiskSpace w d) s = Some s' ->
  exists p, pc s !! i = Some p /\ (p < 2)%nat /\ pc s' = alter S i (pc s)
    /\ todo s' = todo s /\ got s' = got s /\ disks s' = disks s
    /\ stderr s' = stderr s
    /\ ((rsent p d = 0%nat /\ rsent (S p) d = 1%nat /\ esent (S p) d = esent p d
         /\ (List.length (results s) < cap drives)%nat
         /\ errors s' = errors s
         /\ exists x, results s' = results s ++ [x]
              /\ (forall info, x = Some info -> getDiskSpace w d = (Some info, None)))
        \/ (esent p d = 0%nat /\ esent (S p) d = 1%nat /\ rsent (S p) d = rsent p d
            /\ (List.length (errors s) < cap drives)%nat
            /\ results s' = results s
            /\ exists e, errors s' = errors s ++ [e]
                 /\ (e = None <-> ok d = true))).
Proof.
  intros Hd. unfold worker_step, rsent, esent, ok.
  destruct (getDiskSpace_cases w d) as [[info ->]|[e ->]]; simpl;
    destruct (pc s !! i) as [[|[|?]]|]; try discriminate;
    unfold send_result, send_error;
    match goal with |- (if ?c then _ else _) = _ -> _ =>
      destruct c eqn:Hc; [|discriminate] end;
    apply Nat.ltb_lt in Hc; intros [= <-]; simpl;
    eexists; (split; [reflexivity|]); (split; [lia|]);
    repeat (split; [reflexivity|]).
  - left. repeat (split; [first [reflexivity|assumption]|]). eexists; split; [reflexivity|].
    intros ? [= ->]. reflexivity.
  - right. repeat (split; [first [reflexivity|assumption]|]). eexists; split; [reflexivity|].
    tauto.
  - right. repeat (split; [first [reflexivity|assumption]|]). eexists; split; [reflexivity|].
    split; discriminate.
  - left. repeat (split; [first [reflexivity|assumption]|]). eexists; split; [reflexivity|].
    discriminate.
Qed.

Lemma counted_step s s' : steps w drives s s' -> counted s -> counted s'.
Proof.
  intros [a Ha] (Hl & Ht & Hr & He & Hg). destruct a as [i|]; simpl in Ha.
  - destruct (drives !! i) as [d|] eqn:Hi; [|discriminate].
    destruct (worker_step_inv _ _ _ _ Hi Ha)
      as (p & Hp & Hp2 & Hpc & Htd & Hgot & _ & _ & Hcase).
    pose proof (total_alter rsent drives _ _ _ _ Hp Hi) as Tr.
    pose proof (total_alter esent drives _ _ _ _ Hp Hi) as Te.
    unfold counted, in_hand in *. rewrite Hpc, Htd, Hgot, length_alter.
    destruct Hcase as [(R0 & R1 & E1 & _ & Herr & x & Hres & _)
                      |(E0 & E1 & R1 & _ & Hres & e & Herr & _)];
      rewrite Hres, Herr, ?length_app; simpl; repeat split; lia.
  - unfold collector_step in Ha. unfold counted, in_hand in *.
    destruct (todo s) as [|k] eqn:Htodo; [discriminate|].
    destruct (got s) as [info|] eqn:Hgot.
    + destruct (errors s) as [|e r] eqn:Herr; [discriminate|].
      injection Ha as <-. simpl in *. repeat split; lia.
    + destruct (results s) as [|x r] eqn:Hres; [discriminate|].
      injection Ha as <-. simpl in *. repeat split; lia.
Qed.


(** A state in which the loop has not ended has a successor. *)
Lemma progress s : counted s -> (0 < todo s)%nat -> exists s', steps w drives s s'.
Proof.
  intros (Hl & Ht & Hr & He & Hg) Hpos. unfold in_hand in *.
  assert (Hworker : forall i p d, pc s !! i = Some p -> drives !! i = Some d ->
            (rsent p d = 0%nat \/ esent p d = 0%nat) ->
            (rsent p d = 0%nat -> List.length (results s) < cap drives)%nat ->
            (esent p d = 0%nat -> List.length (errors s) < cap drives)%nat ->
            exists s', step w drives (Worker i) s = Some s').
  { intros i p d Hp Hd H0 HR HE. simpl. rewrite Hd.
    unfold worker_step, rsent, esent, ok in *.
    destruct (getDiskSpace_cases w d) as [[info Hok]|[e Hko]].
    - rewrite Hok in *. simpl in *. rewrite Hp.
      destruct p as [|[|p]]; simpl in *.
      + unfold send_result. specialize (HR eq_refl).
        apply Nat.ltb_lt in HR. rewrite HR. eauto.
      + unfold send_error. destruct H0 as [H0|H0]; [discriminate|].
        specialize (HE eq_refl). apply Nat.ltb_lt in HE. rewrite HE. eauto.
      + destruct H0; discriminate.
    - rewrite Hko in *. simpl in *. rewrite Hp.
      destruct p as [|[|p]]; simpl in *.
      + unfold send_error. specialize (HE eq_refl).
        apply Nat.ltb_lt in HE. rewrite HE. eauto.
      + unfold send_result. destruct H0 as [H0|H0]; [|discriminate].
        specialize (HR eq_refl). apply Nat.ltb_lt in HR. rewrite HR. eauto.
      + destruct H0; discriminate. }
  assert (HRlt : forall i p d, pc s !! i = Some p -> drives !! i = Some d ->
            rsent p d = 0%nat -> (List.length (results s) < cap drives)%nat).
  { intros i p d Hp Hd H0.
    pose proof (total_lt rsent drives rsent_le _ _ _ _ Hl Hp Hd H0). unfold cap in *. lia. }
  assert (HElt : forall i p d, pc s !! i = Some p -> drives !! i = Some d ->
            esent p d = 0%nat -> (List.length (errors s) < cap drives)%nat).
  { intros i p d Hp Hd H0.
    pose proof (total_lt esent drives esent_le _ _ _ _ Hl Hp Hd H0). unfold cap in *. lia. }
  destruct (todo s) as [|k] eqn:Htodo; [lia|].
  destruct (got s) as [info|] eqn:Hgot.
  - destruct (errors s) as [|e r] eqn:Herr.
    + destruct (total_missing esent drives esent_le (pc s) Hl) as (i & p & d & Hp & Hd & H0).
      { simpl in He. unfold cap in *. lia. }
      destruct (Hworker i p d Hp Hd (or_intror H0) (HRlt i p d Hp Hd) (HElt i p d Hp Hd))
        as [s' Hs'].
      exists s', (Worker i). exact Hs'.
    + eexists. exists Collector. simpl. unfold collector_step.
      rewrite Htodo, Hgot, Herr. reflexivity.
  - destruct (results s) as [|x r] eqn:Hres.
    + destruct (total_missing rsent drives rsent_le (pc s) Hl) as (i & p & d & Hp & Hd & H0).
      { simpl in Hr. unfold cap in *. lia. }
      destruct (Hworker i p d Hp Hd (or_introl H0) (HRlt i p d Hp Hd) (HElt i p d Hp Hd))
        as [s' Hs'].
      exists s', (Worker i). exact Hs'.
    + eexists. exists Collector. simpl. unfold collector_step.
      rewrite Htodo, Hgot, Hres. reflexivity.
Qed.

(** The measure that every step lowers. *)
Definition mu (s : state) : nat :=
  (sum_list ((fun p => 2 - p) <$> pc s) + 2 * todo s
   + match got s with Some _ => 0 | None => 1 end)%nat.

Lemma sum_alter : forall (pcs : list nat) i p, pcs !! i = Some p -> (p < 2)%nat ->
  (sum_list ((fun p => 2 - p) <$> alter S i pcs) + 1
   = sum_list ((fun p => 2 - p) <$> pcs))%nat.
Proof.
  induction pcs as [|p0 pcs IH]; intros [|i] p Hp Hlt; try discriminate.
  - injection Hp as ->.
    change (alter S 0%nat (p :: pcs)) with (S p :: pcs).
    rewrite !fmap_cons. cbn [sum_list sum_list_with]. unfold id in *. lia.
  - specialize (IH i p Hp Hlt).
    change (alter S (S i) (p0 :: pcs)) with (p0 :: alter S i pcs).
    rewrite !fmap_cons. cbn [sum_list sum_list_with]. unfold id in *. lia.
Qed.

Lemma mu_step s s' : steps w drives s s' -> (mu s' < mu s)%nat.
Proof.
  intros [a Ha]. destruct a as [i|]; simpl in Ha.
  - destruct (drives !! i) as [d|] eqn:Hi; [|discriminate].
    destruct (worker_step_inv _ _ _ _ Hi Ha)
      as (p & Hp & Hp2 & Hpc & Htd & Hgot & _).
    unfold mu. rewrite Hpc, Htd, Hgot.
    pose proof (sum_alter _ _ _ Hp Hp2). lia.
  - unfold collector_step in Ha. unfold mu.
    destruct (todo s) as [|k] eqn:Htodo; [discriminate|].
    destruct (got s) as [info|] eqn:Hgot.
    + destruct (errors s) as [|e r] eqn:Herr; [discriminate|].
      injection Ha as <-. simpl. lia.
    + destruct (results s) as [|x r] eqn:Hres; [discriminate|].
      injection Ha as <-. simpl. lia.
Qed.

Lemma can_finish s : counted s -> exists s', rtc (steps w drives) s s' /\ finished s'.
Proof.
  remember (mu s) as m eqn:Hm. revert s Hm.
  induction m as [m IH] using lt_wf_ind. intros s -> Hc.
  destruct (todo s) as [|k] eqn:Htodo.
  - exists s. split; [constructor|exact Htodo].
  - assert (Hpos : (0 < todo s)%nat) by lia.
    destruct (progress s Hc Hpos) as [s1 Hs1].
    destruct (IH (mu s1) (mu_step _ _ Hs1) s1 eq_refl (counted_step _ _ Hs1 Hc))
      as (s' & Hrun & Hfin).
    exists s'. split; [eapply rtc_l; eauto|exact Hfin].
Qed.



(** *** When every probe fails *)

Definition barren (s : state) : Prop :=
  (forall x, x ∈ results s -> x = None)
  /\ (forall x, got s = Some x -> x = None)
  /\ disks s = None.

Lemma barren_step s s' :
  (forall d, d ∈ drives -> ok d = false) ->
  steps w drives s s' -> barren s -> barren s'.
Proof.
  intros Hfail [a Ha] (Hr & Hg & Hd). destruct a as [i|]; simpl in Ha.
  - destruct (drives !! i) as [d|] eqn:Hi; [|discriminate].
    destruct (worker_step_inv _ _ _ _ Hi Ha)
      as (p & Hp & Hp2 & Hpc & Htd & Hgot & Hdisks & _ & Hcase).
    unfold barren. rewrite Hgot, Hdisks.
    destruct Hcase as [(_ & _ & _ & _ & _ & x & -> & Hx)|(_ & _ & _ & _ & -> & _)];
      repeat split; auto.
    intros y [H|H]%elem_of_app; [auto|].
    apply list_elem_of_singleton in H. subst y.
    destruct x as [info|]; [|reflexivity].
    specialize (Hfail d (list_elem_of_lookup_2 _ _ _ Hi)).
    unfold ok in Hfail. rewrite (Hx info eq_refl) in Hfail. discriminate.
  - unfold collector_step in Ha. unfold barren.
    destruct (todo s) as [|k]; [discriminate|].
    destruct (got s) as [info|] eqn:Hgot.
    + destruct (errors s) as [|e r]; [discriminate|].
      injection Ha as <-. simpl. repeat split; auto; try discriminate.
      rewrite (Hg info eq_refl). destruct e; exact Hd.
    + destruct (results s) as [|x r] eqn:Hres; [discriminate|].
      injection Ha as <-. simpl. repeat split; auto.
      * intros y Hy. apply Hr. right. exact Hy.
      * intros y [= <-]. apply Hr. left.
Qed.

Lemma barren_reachable s :
  (forall d, d ∈ drives -> ok d = false) -> reachable w drives s -> barren s.
Proof.
  intros Hfail H.
  eapply (rtc_ind_r (fun s => barren s)); [ | | exact H].
  - repeat split; simpl; intros x Hx; [inversion Hx|discriminate].
  - intros y z _ Hs Hy. eapply barren_step; eauto.
Qed.

(** *** When every probe succeeds *)











End GatherFacts.

Lemma run_reachable w drives sched : forall s,
  Gather.reachable w drives s -> Gather.reachable w drives (Gather.run w drives sched s).
Proof.
  induction sched as [|a sched IH]; intros s Hs; simpl; [exact Hs|].
  apply IH. destruct (Gather.step w drives a s) as [s'|] eqn:E; simpl; [|exact Hs].
  eapply rtc_r; [exact Hs|]. exists a. exact E.
Qed.

(** [getAllDisksInfo] returns on every machine. *)
Lemma getAllDisksInfo_returns w drives : exists ds log, Gather.returns w drives ds log.
Proof.
  destruct (can_finish w drives _ (counted_init w drives)) as (s & Hrun & Hfin).
  exists (Gather.disks s), (Gather.stderr s), s. repeat split; auto.
Qed.

(** A machine with the one fixed drive [C:] on which the system call
    reports more free bytes than total bytes. *)
Definition odd_machine : Win.env :=
  {| Win.GetLogicalDrives := 4;
     Win.GetDriveTypeW := fun _ => 3;
     Win.GetDiskFreeSpaceExW := fun _ => Win.Returns 1 200 100 200 |}.

Definition odd_disk : DiskInfo :=
  {| Drive := "C:\"; TotalSpace := 100; FreeSpace := 200;
     UsedSpace := 18446744073709551516 |}.

Lemma odd_machine_returns :
  Gather.getAllDisksInfo odd_machine (Some [odd_disk]) [].
Proof.
  exists (Gather.run odd_machine (getAvailableDrives odd_machine)
            (Gather.sequential (getAvailableDrives odd_machine))
            (Gather.init (Gather.cap (getAvailableDrives odd_machine)))).
  split; [apply run_reachable; constructor|].
  vm_compute. auto.
Qed.








(** C1 fails on the code: on [odd_machine] the entry with 200 free
    bytes of 100 is returned by [getAllDisksInfo], so an included entry
    breaks [0 <= free <= total] and [used = total - free], and a probe
    result with [free > total] is not rejected. *)
Lemma C1_counterexample :
  ~ (forall ds log info,
       Gather.getAllDisksInfo odd_machine ds log -> info ∈ items ds ->
       0 <= FreeSpace info <= TotalSpace info
       /\ UsedSpace info = TotalSpace info - FreeSpace info)
  /\ ~ (forall d info ds log,
          getDiskSpace odd_machine d = (Some info, None) ->
          TotalSpace info < FreeSpace info ->
          Gather.getAllDisksInfo odd_machine ds log -> ~ info ∈ items ds).
Proof.
  split.
  - intros H.
    destruct (H _ _ odd_disk odd_machine_returns) as [[_ Hle] _].
    + left.
    + vm_compute in Hle. apply Hle. reflexivity.
  - intros H.
    apply (H "C:\" odd_disk _ _ eq_refl eq_refl odd_machine_returns). left.
Qed.

(** C1, as the code has it: an entry of a snapshot is the result of a
    probe that succeeded, taken over as it is.  [TotalSpace] and
    [FreeSpace] are what the system call reported for the drive,
    [UsedSpace] is their difference modulo 2^64, which is
    [TotalSpace - FreeSpace] when [0 <= free <= total < 2^64]. *)
Theorem C1_entries_are_probe_results (w : Win.env) (ds : slice DiskInfo)
    (log : list error) (info : DiskInfo) :
  Gather.getAllDisksInfo w ds log -> info ∈ items ds ->
  exists d ret tf,
    d ∈ getAvailableDrives w
    /\ Win.GetDiskFreeSpaceExW w d
       = Win.Returns ret (FreeSpace info) (TotalSpace info) tf
    /\ ret <> 0 /\ Drive info = d
    /\ UsedSpace info = (TotalSpace info - FreeSpace info) mod 2 ^ 64
    /\ (0 <= FreeSpace info <= TotalSpace info -> TotalSpace info < 2 ^ 64 ->
        UsedSpace info = TotalSpace info - FreeSpace info).
Proof.
  intros (s & Hreach & _ & <- & _) Hin.
  destruct (sound_reachable _ _ _ Hreach) as (_ & _ & Hd).
  destruct (Hd info Hin) as (d & Hdin & Hprobe).
  destruct (getDiskSpace_ok _ _ _ Hprobe) as (ret & tf & Hcall & Hret & Hdrive & Hused).
  exists d, ret, tf. repeat split; auto; try lia.
  intros Hle Hmax. rewrite Hused. unfold U64.wrap64, U64.modulus.
  apply Z.mod_small. lia.
Qed.

Lemma C1_witness :
  exists d ret tf,
    d ∈ getAvailableDrives odd_machine
    /\ Win.GetDiskFreeSpaceExW odd_machine d
       = Win.Returns ret (FreeSpace odd_disk) (TotalSpace odd_disk) tf
    /\ ret <> 0 /\ Drive odd_disk = d
    /\ UsedSpace odd_disk = (TotalSpace odd_disk - FreeSpace odd_disk) mod 2 ^ 64
    /\ (0 <= FreeSpace odd_disk <= TotalSpace odd_disk ->
        TotalSpace odd_disk < 2 ^ 64 ->
        UsedSpace odd_disk = TotalSpace odd_disk - FreeSpace odd_disk).
Proof.
  apply (C1_entries_are_probe_results odd_machine (Some [odd_disk]) [] odd_disk).
  - exact odd_machine_returns.
  - left.
Defined.

(** *** The errors of the decoder *)

Definition codec_error (e : error) : Prop :=
  e = ErrJSONSyntax \/ e = ErrJSONType \/ e = ErrTime.

Definition clean (sv : Codec.saved) : Prop :=
  forall e, sv = Some e -> codec_error e.

Definition good {A} (o : Codec.outcome A) : Prop :=
  match o with
  | Codec.Ok _ sv => clean sv
  | Codec.Abort e => codec_error e
  end.

Lemma clean_save sv : clean sv -> clean (Codec.save ErrJSONType sv).
Proof.
  unfold clean, Codec.save. destruct sv; auto.
  intros _ e [= <-]. right. left. reflexivity.
Qed.

Lemma good_dec_uint j cur sv : clean sv -> good (Codec.dec_uint j cur sv).
Proof.
  intros H. destruct j; simpl; auto using clean_save.
  destruct (Codec.ParseUint lit); simpl; auto using clean_save.
Qed.

Lemma good_dec_string j cur sv : clean sv -> good (Codec.dec_string j cur sv).
Proof. intros H. destruct j; simpl; auto using clean_save. Qed.

Lemma good_dec_time j cur sv : clean sv -> good (Codec.dec_time j cur sv).
Proof.
  intros H. destruct j; simpl; auto; try (right; right; reflexivity).
  destruct (Rfc3339.parseStrictRFC3339 raw); simpl; auto. right; right; reflexivity.
Qed.

Lemma good_bind {A B} (o : Codec.outcome A) (k : A -> Codec.saved -> Codec.outcome B) :
  good o -> (forall a sv, clean sv -> good (k a sv)) -> good (Codec.bind o k).
Proof. destruct o; simpl; auto. Qed.

Lemma good_dec_list {A} (dec : Json.json -> A -> Codec.saved -> Codec.outcome A) zero :
  (forall j cur sv, clean sv -> good (dec j cur sv)) ->
  forall js cur sv, clean sv -> good (Codec.dec_list dec zero js cur sv).
Proof.
  intros Hdec. induction js as [|j js IH]; intros cur sv Hsv; simpl; auto.
  specialize (Hdec j (hd zero cur) sv Hsv).
  destruct (dec j (hd zero cur) sv) as [x sv'|e]; simpl in *; auto.
  specialize (IH (tl cur) sv' Hdec).
  destruct (Codec.dec_list dec zero js (tl cur) sv') as [[xs rest] sv''|e];
    simpl in *; auto.
Qed.

Lemma good_dec_slice {A} (dec : Json.json -> A -> Codec.saved -> Codec.outcome A) zero :
  (forall j cur sv, clean sv -> good (dec j cur sv)) ->
  forall j cur sv, clean sv -> good (Codec.dec_slice dec zero j cur sv).
Proof.
  intros Hdec j cur sv Hsv. destruct j; simpl; auto using clean_save.
  destruct elems as [|j js]; [exact Hsv|].
  pose proof (good_dec_list dec zero Hdec (j :: js)
                (items (Codec.upto cur) ++ Codec.beyond cur) sv Hsv) as H.
  destruct (Codec.dec_list dec zero (j :: js) _ sv) as [[xs rest] sv'|e];
    simpl in *; auto.
Qed.

Lemma good_dec_struct {A} tags (set : nat -> Json.json -> A -> Codec.saved -> Codec.outcome A) :
  (forall i j cur sv, clean sv -> good (set i j cur sv)) ->
  forall j cur sv, clean sv -> good (Codec.dec_struct tags set j cur sv).
Proof.
  intros Hset j cur sv Hsv. destruct j; simpl; auto using clean_save.
  revert cur sv Hsv. induction members as [|[k v] ms IH]; intros cur sv Hsv; simpl; auto.
  destruct (Codec.field tags _) as [i|]; auto.
  specialize (Hset i v cur sv Hsv).
  destruct (set i v cur sv); simpl in *; auto.
Qed.

Lemma good_dec_disk j cur sv : clean sv -> good (Codec.dec_disk j cur sv).
Proof.
  apply good_dec_struct. intros i v d sv' Hsv'. unfold Codec.set_disk.
  destruct i as [|[|[|i]]]; apply good_bind;
    auto using good_dec_string, good_dec_uint.
Qed.

Lemma good_dec_snapshot j cur sv : clean sv -> good (Codec.dec_snapshot j cur sv).
Proof.
  apply good_dec_struct. intros i v d sv' Hsv'. unfold Codec.set_snapshot.
  destruct i as [|i]; apply good_bind; auto using good_dec_time.
  apply good_dec_slice; auto using good_dec_disk.
Qed.

Lemma Unmarshal_error data e : Codec.Unmarshal data = inr e -> codec_error e.
Proof.
  unfold Codec.Unmarshal. destruct (Json.parse data) as [j|].
  - assert (H : good (Codec.dec_history j Codec.fresh None)).
    { apply good_dec_struct; [|intros ? [=]].
      intros i v h sv Hsv. unfold Codec.set_history.
      apply good_dec_slice; auto using good_dec_snapshot. }
    destruct (Codec.dec_history _ _ _) as [h [e'|]|e']; simpl in H.
    + intros [= <-]. apply H. reflexivity.
    + discriminate.
    + intros [= <-]. exact H.
  - intros [= <-]. left. reflexivity.
Qed.

(** The errors of [collectAndSave] other than "no drives found". *)
Lemma collectAndSave_no_drives disks now ev f r :
  collectAndSave disks now ev f = Some r ->
  cli_err r = Some ErrNoDrives <-> len disks = 0%nat.
Proof.
  unfold collectAndSave. destruct (Nat.eqb_spec (len disks) 0) as [E|E].
  - intros [= <-]. simpl. tauto.
  - assert (Hload : forall e, snd (Store.loadHistory f) = Some e -> e <> ErrNoDrives).
    { unfold Store.loadHistory. destruct f as [|c|data]; simpl; try discriminate.
      - intros e [= <-]. discriminate.
      - destruct (Codec.Unmarshal data) eqn:U; simpl; [discriminate|].
        intros e0 [= <-]. destruct (Unmarshal_error _ _ U) as [->|[->| ->]]; discriminate. }
    destruct (Store.loadHistory f) as [[h|] [e|]]; simpl in Hload.
    + intros [= <-]. simpl. split; [|contradiction]. intros [= ->]. exfalso. eapply Hload; eauto.
    + assert (Hsave : forall h', snd (Store.saveHistory ev h' f) <> Some ErrNoDrives).
      { intros h'. unfold Store.saveHistory, Store.WriteFile.
        destruct (Codec.MarshalIndent h'); [destruct ev|]; simpl; discriminate. }
      match goal with |- context [Store.saveHistory ev ?h' f] =>
        specialize (Hsave h'); destruct (Store.saveHistory ev h' f) as [f' [e|]] end;
        simpl in Hsave.
      * intros [= <-]. simpl. split; [|contradiction]. intros [= ->]. contradiction.
      * destruct (mapM _ _); simpl; [|discriminate].
        intros [= <-]. simpl. split; [discriminate|contradiction].
    + intros [= <-]. simpl. split; [|contradiction]. intros [= ->]. exfalso. eapply Hload; eauto.
    + discriminate.
Qed.

(** A machine with the drives [C:] and [D:] on which every call of
    [GetDiskFreeSpaceExW] fails or is late. *)
Definition dead_machine : Win.env :=
  {| Win.GetLogicalDrives := 12;
     Win.GetDriveTypeW := fun _ => 3;
     Win.GetDiskFreeSpaceExW :=
       fun d => if String.eqb d "C:\" then Win.Returns 0 0 0 0 else Win.Late |}.

(** A machine without drives. *)
Definition bare_machine : Win.env :=
  {| Win.GetLogicalDrives := 0;
     Win.GetDriveTypeW := fun _ => 3;
     Win.GetDiskFreeSpaceExW := fun _ => Win.Late |}.

Lemma all_fail_returns w ds log :
  (forall d, d ∈ getAvailableDrives w -> snd (getDiskSpace w d) <> None) ->
  Gather.getAllDisksInfo w ds log -> ds = None.
Proof.
  intros Hfail (s & Hreach & _ & <- & _).
  eapply barren_reachable; [|exact Hreach].
  intros d Hd. unfold ok. specialize (Hfail d Hd).
  destruct (snd (getDiskSpace w d)); [reflexivity|contradiction].
Qed.

(** C5 fails on the code: when every probe fails [getAllDisksInfo]
    returns the nil list and nothing besides, and no empty list, nil or
    not, gets past [collectAndSave] without "no drives found": the
    condition is list emptiness. *)
Lemma C5_counterexample :
  (forall ds log, Gather.getAllDisksInfo dead_machine ds log -> ds = None)
  /\ (exists log, Gather.getAllDisksInfo dead_machine None log)
  /\ ~ (exists disks now ev f r,
          len disks = 0%nat /\ collectAndSave disks now ev f = Some r
          /\ cli_err r <> Some ErrNoDrives).
Proof.
  split; [|split].
  - intros ds log. apply all_fail_returns.
    intros d Hd. vm_compute in Hd.
    apply list_elem_of_In in Hd. destruct Hd as [<-|[<-|[]]]; vm_compute; discriminate.
  - exists [ErrDiskInfo "C:\"; ErrTimeout "D:\"].
    exists (Gather.run dead_machine (getAvailableDrives dead_machine)
              (Gather.sequential (getAvailableDrives dead_machine))
              (Gather.init (Gather.cap (getAvailableDrives dead_machine)))).
    split; [apply run_reachable; constructor|]. vm_compute. auto.
  - intros (disks & now & ev & f & r & Hlen & Hrun & Herr).
    apply Herr. apply (collectAndSave_no_drives _ _ _ _ _ Hrun). exact Hlen.
Qed.

Lemma updateChart_err m m' : updateChart m = Some m' -> err m' = err m.
Proof.
  unfold updateChart. destruct (history m) as [h|]; [|discriminate].
  destruct (_ <? _)%nat; intros [= <-]; reflexivity.
Qed.

Lemma saveHistory_error ev h f e :
  snd (Store.saveHistory ev h f) = Some e -> e <> ErrNoDrives.
Proof.
  unfold Store.saveHistory, Store.WriteFile.
  destruct (Codec.MarshalIndent h); [destruct ev|]; simpl; intros [= <-]; discriminate.
Qed.

(** What [Update] does to [m.err]: a message with an empty list sets
    it to "no drives found"; a message with drives stores the error of
    [saveHistory] when there is one and leaves [m.err] as it was
    otherwise; no other message touches it. *)
Lemma Update_err w now ev f m ms m' c f' :
  Update w now ev f m ms = Some (m', c, f') ->
  match ms with
  | diskInfoMsg disks =>
      if (len disks =? 0)%nat then err m' = Some ErrNoDrives
      else exists h,
             history m = Some h
             /\ err m' = match snd (Store.saveHistory ev
                                      {| Snapshots :=
                                           append (Snapshots h)
                                             {| Timestamp := now; Disks := disks |} |} f)
                         with
                         | Some e => Some e
                         | None => err m
                         end
  | _ => err m' = err m
  end.
Proof.
  destruct ms as [key|wd ht|disks]; cbn [Update].
  - repeat match goal with
           | |- context [if ?b then _ else _] => destruct b
           end;
      try (intros [= <- _ _]; reflexivity);
      match goal with
      | |- context [updateChart ?x] =>
          destruct (updateChart x) as [m1|] eqn:Hu; [|discriminate];
          cbn [mbind option_bind]; intros [= <- _ _];
          rewrite (updateChart_err _ _ Hu); reflexivity
      end.
  - destruct (loading _); [intros [= <- _ _]; reflexivity|].
    destruct (updateChart _) as [m1|] eqn:Hu; [|discriminate].
    cbn [mbind option_bind]. intros [= <- _ _].
    rewrite (updateChart_err _ _ Hu). reflexivity.
  - destruct (len disks =? 0)%nat; [intros [= <- _ _]; reflexivity|].
    destruct (history m) as [h|]; [|discriminate].
    destruct (Store.saveHistory _ _ _) as [f1 e] eqn:Es.
    destruct (updateChart _) as [m1|] eqn:Hu; [|discriminate].
    cbn [mbind option_bind]. intros [= <- _ _].
    exists h. split; [reflexivity|].
    rewrite (updateChart_err _ _ Hu), Es. cbn [err set_state snd].
    destruct e; reflexivity.
Qed.

(** C5, as the code has it: with no drive listed, and with every probe
    failing, [getAllDisksInfo] returns, and returns the nil list and
    nothing besides; the condition is made by the callers from the
    length of the list.  [collectAndSave] returns "no drives found"
    exactly when the list is empty.  [Update] sets [m.err] to "no drives
    found" when the list is empty, leaving file and history as they are;
    it has no statement that clears [m.err]: a key or a window size
    leaves it as it is, and a list with drives in it puts the error of
    [saveHistory] there when the save fails and nothing otherwise.  So
    after a list with drives [m.err] is "no drives found" exactly when
    it was before and the save went through, and an error once set
    is never nil again. *)
Theorem C5_no_drives_found (w : Win.env) :
  getAvailableDrives w = []
  \/ (forall d, d ∈ getAvailableDrives w -> snd (getDiskSpace w d) <> None) ->
  (exists ds log, Gather.getAllDisksInfo w ds log)
  /\ (forall ds log, Gather.getAllDisksInfo w ds log ->
      ds = None
      /\ (forall now ev f,
            collectAndSave ds now ev f = Some (mkCli f (Some ErrNoDrives) []))
      /\ (forall now ev f m,
            Update w now ev f m (diskInfoMsg ds)
            = Some (set_state (history m) (Some ErrNoDrives) false (status m) m,
                    NoCmd, f)))
  /\ (forall disks now ev f r,
        collectAndSave disks now ev f = Some r ->
        cli_err r = Some ErrNoDrives <-> len disks = 0%nat)
  /\ (forall disks now ev f m,
        len disks = 0%nat ->
        Update w now ev f m (diskInfoMsg disks)
        = Some (set_state (history m) (Some ErrNoDrives) false (status m) m, NoCmd, f))
  /\ (forall disks now ev f m m' c f',
        len disks <> 0%nat ->
        Update w now ev f m (diskInfoMsg disks) = Some (m', c, f') ->
        exists h,
          history m = Some h
          /\ let saved :=
                Store.saveHistory ev
                  {| Snapshots := append (Snapshots h)
                                    {| Timestamp := now; Disks := disks |} |} f in
             f' = fst saved
             /\ err m' = match snd saved with Some e => Some e | None => err m end
             /\ (err m' = Some ErrNoDrives
                 <-> err m = Some ErrNoDrives /\ snd saved = None))
  /\ (forall now ev f m ms m' c f',
        Update w now ev f m ms = Some (m', c, f') ->
        (forall disks, ms <> diskInfoMsg disks) -> err m' = err m)
  /\ (forall now ev f m ms m' c f',
        Update w now ev f m ms = Some (m', c, f') -> err m <> None -> err m' <> None).
Proof.
  intros Hcase. split; [apply getAllDisksInfo_returns|].
  split.
  { intros ds log Hret.
    assert (Hnil : ds = None).
    { destruct Hcase as [Hnone|Hfail]; [|eapply all_fail_returns; eauto].
      eapply all_fail_returns; [|exact Hret]. rewrite Hnone. intros d Hd. inversion Hd. }
    subst ds. repeat split. }
  split; [apply collectAndSave_no_drives|].
  split.
  { intros disks now ev f m Hlen. cbn [Update].
    apply Nat.eqb_eq in Hlen. rewrite Hlen. reflexivity. }
  split.
  { intros disks now ev f m m' c f' Hlen Hu.
    pose proof (Update_err _ _ _ _ _ _ _ _ _ Hu) as He. cbn beta iota in He.
    apply Nat.eqb_neq in Hlen. rewrite Hlen in He.
    destruct He as (h & Hh & He). exists h. split; [exact Hh|]. cbv zeta.
    cbn [Update] in Hu. rewrite Hlen, Hh in Hu.
    destruct (Store.saveHistory _ _ _) as [f1 e] eqn:Es.
    destruct (updateChart _) as [m1|]; [|discriminate].
    cbn [mbind option_bind] in Hu. injection Hu as _ _ <-.
    cbn [fst snd] in *. split; [reflexivity|]. split; [exact He|].
    rewrite He. destruct e as [e|].
    - split; [|intros [_ [=]]]. intros [= ->]. exfalso.
      eapply (saveHistory_error ev _ f ErrNoDrives); [|reflexivity].
      rewrite Es. reflexivity.
    - split; [intros H; split; [exact H|reflexivity]|intros [H _]; exact H]. }
  split.
  { intros now ev f m ms m' c f' Hu Hms.
    pose proof (Update_err _ _ _ _ _ _ _ _ _ Hu) as He.
    destruct ms as [key|wd ht|disks]; try exact He.
    exfalso. apply (Hms disks). reflexivity. }
  intros now ev f m ms m' c f' Hu Hm.
  pose proof (Update_err _ _ _ _ _ _ _ _ _ Hu) as He.
  destruct ms as [key|wd ht|disks]; try (rewrite He; exact Hm).
  destruct (len disks =? 0)%nat; [rewrite He; discriminate|].
  destruct He as (h & _ & ->). destruct (snd _); [discriminate|exact Hm].
Qed.

Lemma dead_machine_fails d :
  d ∈ getAvailableDrives dead_machine -> snd (getDiskSpace dead_machine d) <> None.
Proof.
  intros Hd. vm_compute in Hd.
  apply list_elem_of_In in Hd. destruct Hd as [<-|[<-|[]]]; vm_compute; discriminate.
Qed.

Lemma C5_witness :
  (forall d, d ∈ getAvailableDrives dead_machine ->
             snd (getDiskSpace dead_machine d) <> None)
  /\ (exists ds log, Gather.getAllDisksInfo dead_machine ds log)
  /\ (forall ds log, Gather.getAllDisksInfo dead_machine ds log ->
      ds = None
      /\ (forall now ev f,
            collectAndSave ds now ev f = Some (mkCli f (Some ErrNoDrives) []))
      /\ (forall now ev f m,
            Update dead_machine now ev f m (diskInfoMsg ds)
            = Some (set_state (history m) (Some ErrNoDrives) false (status m) m,
                    NoCmd, f))).
Proof.
  split; [exact dead_machine_fails|].
  pose proof (C5_no_drives_found dead_machine (or_intror dead_machine_fails)) as H.
  split; [exact (proj1 H)|exact (proj1 (proj2 H))].
Defined.

Definition one_disk : DiskInfo :=
  {| Drive := "C:\"; TotalSpace := 1000; FreeSpace := 400; UsedSpace := 600 |}.

(** A session of the dashboard with no history file: the first cycle
    finds no drive, the user asks for another with [r], and that one
    finds a drive.  The snapshot is appended and saved, and [m.err] is
    still "no drives found". *)
Lemma no_drives_outlives_cycle :
  let now := GoTime.zero in
  let snapshot := {| Timestamp := now; Disks := Some [one_disk] |} in
  exists m1 m2 m3 f3,
    Update dead_machine now Store.Completes Store.Absent
      (NewModel Store.Absent) (diskInfoMsg None)
    = Some (m1, NoCmd, Store.Absent)
    /\ err m1 = Some ErrNoDrives
    /\ Update dead_machine now Store.Completes Store.Absent m1 (KeyMsg "r")
       = Some (m2, collectDataCmd, Store.Absent)
    /\ Update dead_machine now Store.Completes Store.Absent m2
         (diskInfoMsg (Some [one_disk]))
       = Some (m3, NoCmd, f3)
    /\ history m3 = Some {| Snapshots := Some [snapshot] |}
    /\ Store.loadHistory f3 = (Some {| Snapshots := Some [snapshot] |}, None)
    /\ err m3 = Some ErrNoDrives.
Proof.
  cbv zeta. do 4 eexists.
  split; [vm_compute; reflexivity|]. split; [reflexivity|].
  split; [vm_compute; reflexivity|]. split; [vm_compute; reflexivity|].
  split; [reflexivity|]. split; [vm_compute; reflexivity|]. reflexivity.
Qed.

(** ** [float64] conversions and divisions of the program *)

Lemma digits2_size m : digits2_pos m = Pos.size m.
Proof. induction m; simpl; congruence. Qed.

Lemma digits2_bounds m :
  2 ^ (Z.pos (digits2_pos m) - 1) <= Z.pos m < 2 ^ Z.pos (digits2_pos m).
Proof.
  rewrite digits2_size. split.
  - pose proof (Pos.size_le m) as H.
    apply Pos2Z.pos_le_pos in H. rewrite Pos2Z.inj_pow in H.
    change (Z.pos m~0) with (2 * Z.pos m) in H.
    replace (Z.pos (Pos.size m)) with (Z.pos (Pos.size m) - 1 + 1) in H by lia.
    rewrite Z.pow_add_r in H by lia. lia.
  - pose proof (Pos.size_gt m) as H.
    apply Pos2Z.pos_lt_pos in H. rewrite Pos2Z.inj_pow in H. exact H.
Qed.

Lemma digits2_unique m d :
  2 ^ (d - 1) <= Z.pos m < 2 ^ d -> Z.pos (digits2_pos m) = d.
Proof.
  intros [Hlo Hhi]. destruct (digits2_bounds m) as [Hlo' Hhi'].
  set (d' := Z.pos (digits2_pos m)) in *.
  assert (0 < d).
  { destruct (Z_lt_le_dec 0 d); [assumption|].
    rewrite (Z.pow_neg_r 2 (d - 1)) in Hlo by lia.
    destruct (Z.eq_dec d 0) as [->|]; [simpl in Hhi; lia|].
    rewrite Z.pow_neg_r in Hhi by lia. lia. }
  destruct (Z.lt_trichotomy d' d) as [Hlt|[Heq|Hgt]]; [|exact Heq|].
  - assert (2 ^ d' <= 2 ^ (d - 1)) by (apply Z.pow_le_mono_r; lia). lia.
  - assert (2 ^ d <= 2 ^ (d' - 1)) by (apply Z.pow_le_mono_r; lia). lia.
Qed.

Lemma shiftl_pos m (d : positive) : Z.pos (Pos.iter xO m d) = Z.pos m * 2 ^ Z.pos d.
Proof.
  induction d as [|d IH] using Pos.peano_ind.
  - simpl. lia.
  - rewrite Pos.iter_succ, Pos2Z.inj_succ, Z.pow_succ_r by lia.
    change (Z.pos (Pos.iter xO m d)~0) with (2 * Z.pos (Pos.iter xO m d)).
    rewrite IH. lia.
Qed.

(** A mantissa of 53 bits is kept as it is. *)
Lemma round_aux_exact m e :
  Z.pos (digits2_pos m) = 53 -> -1074 <= e <= 971 ->
  binary_round_aux 53 1024 false (Z.pos m) e loc_Exact = S754_finite false m e.
Proof.
  intros Hd He.
  assert (Hs : shr_fexp 53 1024 (Z.pos m) e loc_Exact
            = ({| shr_m := Z.pos m; shr_r := false; shr_s := false |}, e)).
  { unfold shr_fexp, fexp, emin.
    cbn [Zdigits2]. rewrite Hd.
    replace (Z.max (53 + e - 53) (3 - 1024 - 53) - e) with 0 by lia.
    reflexivity. }
  unfold binary_round_aux. rewrite Hs.
  cbn [shr_m loc_of_shr_record round_nearest_even].
  rewrite Hs. cbn [shr_m].
  replace (e <=? 1024 - 53) with true by (symmetry; apply Z.leb_le; lia).
  reflexivity.
Qed.

(** [float64(n)] for [0 < n < 2^53] is [n], with a mantissa of 53 bits. *)
Lemma of_Z_small n : 0 < n < 2 ^ 53 ->
  exists m e, F64.of_Z n = S754_finite false m e
    /\ Z.pos (digits2_pos m) = 53 /\ -52 <= e <= 0 /\ Z.pos m = n * 2 ^ (- e).
Proof.
  intros Hn. destruct n as [|p|p]; try lia.
  unfold F64.of_Z, binary_normalize, binary_round.
  pose proof (digits2_bounds p) as Hd.
  assert (Hd53 : 1 <= Z.pos (digits2_pos p) <= 53).
  { split; [lia|].
    destruct (Z_le_gt_dec (Z.pos (digits2_pos p)) 53); [assumption|].
    assert (2 ^ 53 <= 2 ^ (Z.pos (digits2_pos p) - 1)) by (apply Z.pow_le_mono_r; lia).
    lia. }
  unfold fexp, emin, F64.prec, F64.emax.
  rewrite Z.add_0_r.
  replace (Z.max (Z.pos (digits2_pos p) - 53) (3 - 1024 - 53))
    with (Z.pos (digits2_pos p) - 53) by lia.
  unfold shl_align. rewrite Z.sub_0_r.
  destruct (Z.pos (digits2_pos p) - 53) as [|q|q] eqn:Eq; try lia.
  - exists p, 0. rewrite (round_aux_exact p 0) by lia.
    repeat split; lia.
  - exists (Pos.iter xO p q), (Z.neg q).
    assert (Hm : Z.pos (Pos.iter xO p q) = Z.pos p * 2 ^ Z.pos q) by apply shiftl_pos.
    assert (Hdig : Z.pos (digits2_pos (Pos.iter xO p q)) = 53).
    { apply digits2_unique. rewrite Hm.
      replace 53 with (Z.pos (digits2_pos p) + Z.pos q) at 2 by lia.
      replace (53 - 1) with ((Z.pos (digits2_pos p) - 1) + Z.pos q) by lia.
      rewrite !Z.pow_add_r by lia.
      assert (0 < 2 ^ Z.pos q) by (apply Z.pow_pos_nonneg; lia). nia. }
    rewrite (round_aux_exact _ _ Hdig) by lia.
    repeat split; try lia. rewrite Hm. reflexivity.
Qed.

Lemma shr_1_m mrs : 0 <= shr_m mrs ->
  shr_m (shr_1 mrs) = shr_m mrs / 2 /\ 0 <= shr_m (shr_1 mrs).
Proof.
  destruct mrs as [m r s]. simpl. intros Hm.
  destruct m as [|p|p]; [simpl; split; [reflexivity|lia] | | lia].
  destruct p as [p|p|]; simpl.
  - split; [|lia]. change (Z.pos p~1) with (2 * Z.pos p + 1).
    apply (Z.div_unique _ _ _ 1); lia.
  - split; [|lia]. change (Z.pos p~0) with (2 * Z.pos p).
    apply (Z.div_unique _ _ _ 0); lia.
  - split; [reflexivity|lia].
Qed.

Lemma shr_iter_m : forall q mrs, 0 <= shr_m mrs ->
  shr_m (SpecFloat.iter_pos shr_1 q mrs) = shr_m mrs / 2 ^ Z.pos q
  /\ 0 <= shr_m (SpecFloat.iter_pos shr_1 q mrs).
Proof.
  induction q as [q IH|q IH|]; intros mrs Hm; simpl SpecFloat.iter_pos.
  - destruct (shr_1_m mrs Hm) as [E1 P1].
    destruct (IH _ P1) as [E2 P2]. destruct (IH _ P2) as [E3 P3].
    split; [|exact P3]. rewrite E3, E2, E1.
    rewrite !Z.div_div by (try apply Z.pow_pos_nonneg; lia).
    f_equal. change (Z.pos q~1) with (2 * Z.pos q + 1).
    rewrite Z.pow_add_r, Z.pow_mul_r by lia. change (2 ^ 2) with 4.
    rewrite Z.pow_1_r.
    replace 4 with (2 * 2) by reflexivity. rewrite Z.pow_mul_l. lia.
  - destruct (IH _ Hm) as [E2 P2]. destruct (IH _ P2) as [E3 P3].
    split; [|exact P3]. rewrite E3, E2.
    rewrite !Z.div_div by (try apply Z.pow_pos_nonneg; lia).
    f_equal. change (Z.pos q~0) with (2 * Z.pos q).
    rewrite Z.pow_mul_r by lia. change (2 ^ 2) with 4.
    replace 4 with (2 * 2) by reflexivity. rewrite Z.pow_mul_l. lia.
  - destruct (shr_1_m mrs Hm) as [E1 P1]. split; [|exact P1].
    rewrite E1. reflexivity.
Qed.

Lemma round_nearest_even_cases m l :
  round_nearest_even m l = m \/ round_nearest_even m l = m + 1.
Proof.
  destruct l as [|[| |]]; simpl; auto. destruct (Z.even m); auto.
Qed.

(** A mantissa of 54 bits that ends in a zero loses the zero. *)
Lemma round_aux_even m e :
  Z.pos (digits2_pos m) = 53 -> -1075 <= e <= 970 ->
  binary_round_aux 53 1024 false (Z.pos m~0) e loc_Exact
  = S754_finite false m (e + 1).
Proof.
  intros Hd He.
  assert (Hs : shr_fexp 53 1024 (Z.pos m~0) e loc_Exact
            = ({| shr_m := Z.pos m; shr_r := false; shr_s := false |}, e + 1)).
  { unfold shr_fexp, fexp, emin. cbn [Zdigits2 digits2_pos].
    rewrite Pos2Z.inj_succ, Hd.
    replace (Z.max (Z.succ 53 + e - 53) (3 - 1024 - 53) - e) with 1 by lia.
    reflexivity. }
  assert (Hs' : shr_fexp 53 1024 (Z.pos m) (e + 1) loc_Exact
            = ({| shr_m := Z.pos m; shr_r := false; shr_s := false |}, e + 1)).
  { unfold shr_fexp, fexp, emin. cbn [Zdigits2]. rewrite Hd.
    replace (Z.max (53 + (e + 1) - 53) (3 - 1024 - 53) - (e + 1)) with 0 by lia.
    reflexivity. }
  unfold binary_round_aux. rewrite Hs.
  cbn [shr_m loc_of_shr_record round_nearest_even].
  rewrite Hs'. cbn [shr_m].
  replace (e + 1 <=? 1024 - 53) with true by (symmetry; apply Z.leb_le; lia).
  reflexivity.
Qed.

(** [float64(n)] of a positive [uint64] is a finite positive number
    with a mantissa of 53 bits. *)
Lemma of_Z_finite n : 0 < n < 2 ^ 64 ->
  exists m e, F64.of_Z n = S754_finite false m e
    /\ Z.pos (digits2_pos m) = 53 /\ -52 <= e <= 12.
Proof.
  intros Hn. destruct (Z_lt_le_dec n (2 ^ 53)) as [Hs|Hl].
  { destruct (of_Z_small n) as (m & e & E & Hd & He & _); [lia|].
    exists m, e. repeat split; auto; lia. }
  destruct n as [|p|p]; try lia.
  unfold F64.of_Z, binary_normalize, binary_round.
  pose proof (digits2_bounds p) as Hd.
  assert (Hd64 : 54 <= Z.pos (digits2_pos p) <= 64).
  { split.
    - destruct (Z_le_gt_dec 54 (Z.pos (digits2_pos p))); [assumption|].
      assert (2 ^ Z.pos (digits2_pos p) <= 2 ^ 53) by (apply Z.pow_le_mono_r; lia). lia.
    - destruct (Z_le_gt_dec (Z.pos (digits2_pos p)) 64); [assumption|].
      assert (2 ^ 64 <= 2 ^ (Z.pos (digits2_pos p) - 1)) by (apply Z.pow_le_mono_r; lia).
      lia. }
  unfold fexp, emin, F64.prec, F64.emax. rewrite Z.add_0_r.
  replace (Z.max (Z.pos (digits2_pos p) - 53) (3 - 1024 - 53))
    with (Z.pos (digits2_pos p) - 53) by lia.
  unfold shl_align. rewrite Z.sub_0_r.
  destruct (Z.pos (digits2_pos p) - 53) as [|q|q] eqn:Eq; try lia.
  unfold binary_round_aux at 1.
  assert (Hs : shr_fexp 53 1024 (Z.pos p) 0 loc_Exact
            = (SpecFloat.iter_pos shr_1 q {| shr_m := Z.pos p; shr_r := false; shr_s := false |},
               Z.pos q)).
  { unfold shr_fexp, fexp, emin. cbn [Zdigits2].
    replace (Z.max (Z.pos (digits2_pos p) + 0 - 53) (3 - 1024 - 53) - 0)
      with (Z.pos q) by lia.
    reflexivity. }
  rewrite Hs.
  set (mrs := SpecFloat.iter_pos shr_1 q _).
  destruct (shr_iter_m q {| shr_m := Z.pos p; shr_r := false; shr_s := false |})
    as [Em Pm]; [simpl; lia|].
  fold mrs in Em, Pm. simpl shr_m in Em.
  assert (Hm1 : 2 ^ 52 <= shr_m mrs < 2 ^ 53).
  { rewrite Em. assert (0 < 2 ^ Z.pos q) by (apply Z.pow_pos_nonneg; lia).
    replace (Z.pos (digits2_pos p)) with (53 + Z.pos q) in Hd by lia.
    replace (53 + Z.pos q - 1) with (52 + Z.pos q) in Hd by lia.
    rewrite !Z.pow_add_r in Hd by lia. split.
    - apply Z.div_le_lower_bound; lia.
    - apply Z.div_lt_upper_bound; lia. }
  set (m2 := round_nearest_even (shr_m mrs) (loc_of_shr_record mrs)).
  assert (Hm2 : 2 ^ 52 <= m2 <= 2 ^ 53).
  { subst m2. destruct (round_nearest_even_cases (shr_m mrs) (loc_of_shr_record mrs))
      as [-> | ->]; lia. }
  clearbody m2. destruct m2 as [|m2|m2]; try lia.
  destruct (Z.eq_dec (Z.pos m2) (2 ^ 53)) as [Etop|Hlt].
  - (* the rounding carried into bit 54 *)
    assert (Em2 : m2 = 9007199254740992%positive)
      by (apply Pos2Z.inj; rewrite Etop; reflexivity).
    subst m2.
    exists 4503599627370496%positive, (Z.pos q + 1).
    split; [|split; [reflexivity|lia]].
    assert (Es : shr_fexp 53 1024 (Z.pos 9007199254740992) (Z.pos q) loc_Exact
              = ({| shr_m := 4503599627370496; shr_r := false; shr_s := false |},
                 Z.pos q + 1)).
    { unfold shr_fexp, fexp, emin.
      change (Zdigits2 (Z.pos 9007199254740992)) with 54.
      replace (Z.max (54 + Z.pos q - 53) (3 - 1024 - 53) - Z.pos q) with 1 by lia.
      reflexivity. }
    rewrite Es. cbn [shr_m].
    replace (Z.pos q + 1 <=? 1024 - 53) with true by (symmetry; apply Z.leb_le; lia).
    reflexivity.
  - assert (Hd2 : Z.pos (digits2_pos m2) = 53) by (apply digits2_unique; lia).
    exists m2, (Z.pos q). split; [|split; [exact Hd2|lia]].
    assert (Hs2 : shr_fexp 53 1024 (Z.pos m2) (Z.pos q) loc_Exact
              = ({| shr_m := Z.pos m2; shr_r := false; shr_s := false |}, Z.pos q)).
    { unfold shr_fexp, fexp, emin. cbn [Zdigits2]. rewrite Hd2.
      replace (Z.max (53 + Z.pos q - 53) (3 - 1024 - 53) - Z.pos q) with 0 by lia.
      reflexivity. }
    rewrite Hs2. cbn [shr_m].
    replace (Z.pos q <=? 1024 - 53) with true by (symmetry; apply Z.leb_le; lia).
    reflexivity.
Qed.

(** Dividing by a power of two changes the exponent only. *)
Lemma div_pow2 m e k :
  Z.pos (digits2_pos m) = 53 -> -900 <= e <= 900 -> 0 <= k <= 64 ->
  F64.div (S754_finite false m e) (S754_finite false 4503599627370496 (k - 52))
  = S754_finite false m (e - k).
Proof.
  intros Hd He Hk. unfold F64.div, SFdiv, F64.prec, F64.emax.
  assert (Hcore : SFdiv_core_binary 53 1024 (Z.pos m) e (Z.pos 4503599627370496) (k - 52)
                  = (Z.pos m~0, e - k - 1, loc_Exact)).
  { unfold SFdiv_core_binary, fexp, emin. cbn [Zdigits2]. rewrite Hd.
    change (Z.pos (digits2_pos 4503599627370496)) with 53.
    replace (Z.min (Z.max (53 + e - (53 + (k - 52)) - 53) (3 - 1024 - 53)) (e - (k - 52)))
      with (e - k - 1) by lia.
    replace (e - (k - 52) - (e - k - 1)) with 53 by lia.
    cbv iota.
    rewrite Z.shiftl_mul_pow2 by lia.
    assert (Hq : Z.div_eucl (Z.pos m * 2 ^ 53) (Z.pos 4503599627370496) = (Z.pos m~0, 0)).
    { pose proof (Z.div_eucl_eq (Z.pos m * 2 ^ 53) (Z.pos 4503599627370496) ltac:(lia)) as Heq.
      pose proof (Z.mod_pos_bound (Z.pos m * 2 ^ 53) (Z.pos 4503599627370496) ltac:(lia)) as Hb.
      unfold Z.modulo in Hb.
      destruct (Z.div_eucl (Z.pos m * 2 ^ 53) (Z.pos 4503599627370496)) as [q r].
      change (Z.pos m~0) with (2 * Z.pos m).
      change (2 ^ 53) with (2 * 4503599627370496) in Heq.
      f_equal; lia. }
    rewrite Hq. reflexivity. }
  rewrite Hcore. simpl xorb.
  rewrite (round_aux_even m (e - k - 1) Hd) by lia.
  f_equal. lia.
Qed.

Lemma of_Z_pow1024 (j : nat) : (j <= 5)%nat ->
  F64.of_Z (1024 ^ (Z.of_nat j + 1))
  = S754_finite false 4503599627370496 (10 * (Z.of_nat j + 1) - 52).
Proof.
  intros Hj. do 6 (destruct j as [|j]; [vm_compute; reflexivity|]). lia.
Qed.

(** ** [formatBytes] *)

Lemma scale_S fuel n div exp :
  scale (S fuel) n div exp
  = if 1024 <=? n then scale fuel (n / 1024) (U64.mul div 1024) (S exp)
    else Some (div, exp).
Proof. reflexivity. Qed.

(** The loop ends within the fuel, without wrapping [div], on the
    largest power of 1024 that is at most [bytes]. *)
Lemma scale_spec bytes : 1024 <= bytes < 2 ^ 64 ->
  exists (exp : nat) (div : Z),
    scale 64 (bytes / 1024) 1024 0 = Some (div, exp)
    /\ (exp <= 5)%nat /\ div = 1024 ^ (Z.of_nat exp + 1)
    /\ div <= bytes < div * 1024.
Proof.
  intros Hb. change 64%nat with (S (S (S (S (S (S 58)))))).
  rewrite scale_S. destruct (Z.leb_spec 1024 (bytes / 1024)) as [H1|H1];
    [|exists 0%nat, 1024; repeat split; try reflexivity; try lia;
     Z.div_mod_to_equations; lia].
  change (U64.mul 1024 1024) with 1048576.
  rewrite scale_S. destruct (Z.leb_spec 1024 (bytes / 1024 / 1024)) as [H2|H2];
    [|exists 1%nat, 1048576; repeat split; try reflexivity; try lia;
     Z.div_mod_to_equations; lia].
  change (U64.mul 1048576 1024) with 1073741824.
  rewrite scale_S. destruct (Z.leb_spec 1024 (bytes / 1024 / 1024 / 1024)) as [H3|H3];
    [|exists 2%nat, 1073741824; repeat split; try reflexivity; try lia;
     Z.div_mod_to_equations; lia].
  change (U64.mul 1073741824 1024) with 1099511627776.
  rewrite scale_S.
  destruct (Z.leb_spec 1024 (bytes / 1024 / 1024 / 1024 / 1024)) as [H4|H4];
    [|exists 3%nat, 1099511627776; repeat split; try reflexivity; try lia;
     Z.div_mod_to_equations; lia].
  change (U64.mul 1099511627776 1024) with 1125899906842624.
  rewrite scale_S.
  destruct (Z.leb_spec 1024 (bytes / 1024 / 1024 / 1024 / 1024 / 1024)) as [H5|H5];
    [|exists 4%nat, 1125899906842624; repeat split; try reflexivity; try lia;
     Z.div_mod_to_equations; lia].
  change (U64.mul 1125899906842624 1024) with 1152921504606846976.
  rewrite scale_S.
  destruct (Z.leb_spec 1024 (bytes / 1024 / 1024 / 1024 / 1024 / 1024 / 1024)) as [H6|H6];
    [|exists 5%nat, 1152921504606846976; repeat split; try reflexivity; try lia;
     Z.div_mod_to_equations; lia].
  change (2 ^ 64) with 18446744073709551616 in Hb.
  Z.div_mod_to_equations. lia.
Qed.

Lemma itoa_digit d : 0 <= d <= 9 ->
  Fmt.itoa d = String (Bytes.chr (48 + d)) "".
Proof.
  intros Hd.
  assert (d = 0 \/ d = 1 \/ d = 2 \/ d = 3 \/ d = 4 \/ d = 5 \/ d = 6 \/ d = 7
          \/ d = 8 \/ d = 9) as H by lia.
  repeat (destruct H as [->|H]; [reflexivity|]). subst d. reflexivity.
Qed.

Lemma tenths_nonneg m e : 0 <= F64.tenths m e.
Proof.
  unfold F64.tenths. destruct (0 <=? e) eqn:E.
  - apply Z.leb_le in E. assert (0 <= 2 ^ e) by (apply Z.pow_nonneg; lia). lia.
  - apply Z.leb_gt in E.
    assert (0 < 2 ^ (- e)) by (apply Z.pow_pos_nonneg; lia).
    assert (0 <= 10 * Z.pos m / 2 ^ (- e)) by (apply Z.div_pos; lia).
    destruct (_ || _); lia.
Qed.

(** [%.1f] of a finite positive number: an integer part, a point and
    one digit. *)
Lemma f1_shape m e :
  exists whole d, 0 <= whole /\ 0 <= d <= 9
    /\ 10 * whole + d = F64.tenths m e
    /\ Fmt.f1 (S754_finite false m e)
       = Fmt.itoa whole +:+ "." +:+ String (Bytes.chr (48 + d)) "".
Proof.
  pose proof (tenths_nonneg m e) as Ht.
  exists (F64.tenths m e / 10), (F64.tenths m e mod 10).
  pose proof (Z.mod_pos_bound (F64.tenths m e) 10 ltac:(lia)).
  pose proof (Z.div_mod (F64.tenths m e) 10 ltac:(lia)).
  assert (0 <= F64.tenths m e / 10) by (apply Z.div_pos; lia).
  repeat split; try lia.
  unfold Fmt.f1. rewrite (itoa_digit (F64.tenths m e mod 10)) by lia.
  reflexivity.
Qed.

Lemma append_assoc (a b c : string) : (a +:+ b) +:+ c = a +:+ (b +:+ c).
Proof. induction a as [|x a IH]; simpl; [reflexivity|]. f_equal. exact IH. Qed.

(** C9: below 1024 [formatBytes] prints the number and [" B"].  From
    1024 on it prints [float64(n)] divided by the largest power of 1024
    that is at most [n], rounded to tenths with ties to even, as an
    integer part, a point and exactly one digit, then a space and the
    unit [K], [M], [G], [T], [P] or [E] of that power followed by [B];
    [float64(n)] is [n] itself below 2^53.  The loop neither runs out of
    fuel nor leaves the unit table.  The four examples of the
    specification hold. *)
Theorem C9_formatBytes (n : Z) :
  0 <= n < 2 ^ 64 ->
  (n < 1024 -> formatBytes n = Some (Fmt.itoa n +:+ " B"))
  /\ (1024 <= n ->
      exists (exp : nat) (unit : ascii) (m : positive) (e whole d : Z),
        String.get exp "KMGTPE" = Some unit
        /\ 1024 ^ (Z.of_nat exp + 1) <= n < 1024 ^ (Z.of_nat exp + 2)
        /\ F64.of_Z n = S754_finite false m e
        /\ (n < 2 ^ 53 -> e <= 0 /\ Z.pos m = n * 2 ^ (- e))
        /\ 10 * whole + d = F64.tenths m (e - 10 * (Z.of_nat exp + 1))
        /\ 0 <= whole /\ 0 <= d <= 9
        /\ formatBytes n
           = Some (Fmt.itoa whole +:+ "." +:+ String (Bytes.chr (48 + d)) ""
                   +:+ " " +:+ String unit "B"))
  /\ formatBytes 0 = Some "0 B"
  /\ formatBytes 1023 = Some "1023 B"
  /\ formatBytes 1024 = Some "1.0 KB"
  /\ formatBytes 1536 = Some "1.5 KB".
Proof.
  intros Hn. split; [|split; [|repeat split; vm_compute; reflexivity]].
  - intros Hlt. unfold formatBytes.
    apply Z.ltb_lt in Hlt. rewrite Hlt. reflexivity.
  - intros Hge.
    destruct (scale_spec n ltac:(lia)) as (exp & div & Hscale & Hexp & Hdiv & Hbounds).
    assert (Hunit : exists unit, String.get exp "KMGTPE" = Some unit).
    { do 6 (destruct exp as [|exp]; [eexists; reflexivity|]). lia. }
    destruct Hunit as [unit Hunit].
    assert (Hfloat : exists m e, F64.of_Z n = S754_finite false m e
              /\ Z.pos (digits2_pos m) = 53 /\ -52 <= e <= 12
              /\ (n < 2 ^ 53 -> e <= 0 /\ Z.pos m = n * 2 ^ (- e))).
    { destruct (Z_lt_le_dec n (2 ^ 53)) as [Hs|Hl].
      - destruct (of_Z_small n ltac:(lia)) as (m & e & E & Hd & He & Hx).
        exists m, e. repeat split; auto; lia.
      - destruct (of_Z_finite n ltac:(lia)) as (m & e & E & Hd & He).
        exists m, e. repeat split; auto; lia. }
    destruct Hfloat as (m & e & Hof & Hdig & He & Hexact).
    destruct (f1_shape m (e - 10 * (Z.of_nat exp + 1))) as (whole & d & Hw & Hd & Hval & Hf1).
    exists exp, unit, m, e, whole, d.
    split; [exact Hunit|]. split.
    { rewrite Hdiv in Hbounds.
      replace (Z.of_nat exp + 2) with (Z.of_nat exp + 1 + 1) by lia.
      rewrite (Z.pow_add_r 1024 (Z.of_nat exp + 1) 1) by lia.
      change (1024 ^ 1) with 1024. lia. }
    split; [exact Hof|]. split; [exact Hexact|]. split; [exact Hval|].
    split; [exact Hw|]. split; [exact Hd|].
    unfold formatBytes.
    replace (n <? 1024) with false by (symmetry; apply Z.ltb_ge; lia).
    rewrite Hscale. unfold unit_letter. rewrite Hunit.
    rewrite Hof, Hdiv, (of_Z_pow1024 exp Hexp).
    rewrite (div_pow2 m e (10 * (Z.of_nat exp + 1)) Hdig) by lia.
    rewrite Hf1, !append_assoc. reflexivity.
Qed.

Lemma C9_witness : formatBytes 1536 = Some "1.5 KB".
Proof.
  destruct (C9_formatBytes 1536) as (_ & _ & _ & _ & _ & H).
  - split; [discriminate|reflexivity].
  - exact H.
Defined.

(** The gigabytes of a point: [float64(free)] with the exponent lowered
    by 30, which is [free / 1024^3] exactly when [free < 2^53]. *)
Lemma GB_value free : 0 < free < 2 ^ 64 ->
  exists m e, F64.of_Z free = S754_finite false m e
    /\ GB free = S754_finite false m (e - 30)
    /\ (free < 2 ^ 53 -> e <= 0 /\ Z.pos m = free * 2 ^ (- e)).
Proof.
  intros Hn.
  assert (Hfloat : exists m e, F64.of_Z free = S754_finite false m e
            /\ Z.pos (digits2_pos m) = 53 /\ -52 <= e <= 12
            /\ (free < 2 ^ 53 -> e <= 0 /\ Z.pos m = free * 2 ^ (- e))).
  { destruct (Z_lt_le_dec free (2 ^ 53)) as [Hs|Hl].
    - destruct (of_Z_small free ltac:(lia)) as (m & e & E & Hd & He & Hx).
      exists m, e. repeat split; auto; lia.
    - destruct (of_Z_finite free ltac:(lia)) as (m & e & E & Hd & He).
      exists m, e. repeat split; auto; lia. }
  destruct Hfloat as (m & e & Hof & Hdig & He & Hexact).
  exists m, e. split; [exact Hof|]. split; [|exact Hexact].
  unfold GB. rewrite Hof.
  change (F64.of_Z 1024) with (S754_finite false 4503599627370496 (10 - 52)).
  rewrite (div_pow2 m e 10 Hdig) by lia.
  rewrite (div_pow2 m (e - 10) 10 Hdig) by lia.
  rewrite (div_pow2 m (e - 10 - 10) 10 Hdig) by lia.
  f_equal. lia.
Qed.

Lemma GB_zero : GB 0 = S754_zero false.
Proof. reflexivity. Qed.

(** ** The series extractor *)

(** The series as the specification words it: going through the history
    in stored order, one point for each snapshot that contains the
    drive, the free space of the drive's entry in gigabytes. *)
Definition extract_spec (snapshots : list Snapshot) (drive : string)
  : list spec_float :=
  (fun disk => GB (FreeSpace disk))
    <$> omap (fun s => find_disk drive (items (Disks s))) snapshots.

Lemma find_disk_Some drive disks disk :
  find_disk drive disks = Some disk -> disk ∈ disks /\ Drive disk = drive.
Proof.
  induction disks as [|d0 ds IH]; simpl; [discriminate|].
  destruct (String.eqb_spec (Drive d0) drive) as [E|E].
  - intros [= <-]. split; [left|exact E].
  - intros H. destruct (IH H). split; [right|]; assumption.
Qed.

Lemma find_disk_None drive disks :
  find_disk drive disks = None <-> forall disk, disk ∈ disks -> Drive disk <> drive.
Proof.
  induction disks as [|d0 ds IH]; simpl.
  - split; [intros _ disk H; inversion H|reflexivity].
  - destruct (String.eqb_spec (Drive d0) drive) as [E|E].
    + split; [discriminate|]. intros H. exfalso. apply (H d0); [left|exact E].
    + rewrite IH. split.
      * intros H disk [->|Hin]%elem_of_cons; auto.
      * intros H disk Hin. apply H. right. exact Hin.
Qed.

Lemma series_from snapshots drive : forall acc,
  fold_left
    (fun data snapshot =>
       match find_disk drive (items (Disks snapshot)) with
       | Some disk => data ++ [GB (FreeSpace disk)]
       | None => data
       end) snapshots acc
  = acc ++ extract_spec snapshots drive.
Proof.
  unfold extract_spec. induction snapshots as [|s rest IH]; intros acc; simpl.
  - rewrite app_nil_r. reflexivity.
  - rewrite IH. destruct (find_disk drive (items (Disks s))); simpl.
    + rewrite <- app_assoc. reflexivity.
    + reflexivity.
Qed.

Lemma series_spec snapshots drive : series snapshots drive = extract_spec snapshots drive.
Proof. unfold series. rewrite series_from. reflexivity. Qed.

Lemma collect_from_points n drive : forall snapshots i acc,
  dataPoints (collect_from n drive i snapshots acc)
  = dataPoints acc ++ extract_spec snapshots drive.
Proof.
  unfold extract_spec. induction snapshots as [|s rest IH]; intros i acc; simpl.
  - rewrite app_nil_r. reflexivity.
  - rewrite IH. unfold collect_step.
    destruct (find_disk drive (items (Disks s))); simpl; [|reflexivity].
    destruct (_ || _ || _); simpl; rewrite <- app_assoc; reflexivity.
Qed.

Lemma collect_points snapshots drive :
  dataPoints (collect snapshots drive) = extract_spec snapshots drive.
Proof. unfold collect. rewrite collect_from_points. reflexivity. Qed.

(** The label track has one entry per point. *)
Lemma collect_from_aligned n drive : forall snapshots i acc,
  List.length (timeLabels acc) = List.length (dataPoints acc) ->
  List.length (timeLabels (collect_from n drive i snapshots acc))
  = List.length (dataPoints (collect_from n drive i snapshots acc)).
Proof.
  induction snapshots as [|s rest IH]; intros i acc Hacc; simpl; [exact Hacc|].
  apply IH. unfold collect_step.
  destruct (find_disk drive (items (Disks s))); [|exact Hacc].
  destruct (_ || _ || _); simpl; rewrite !length_app, Hacc; reflexivity.
Qed.

Lemma collect_aligned snapshots drive :
  List.length (timeLabels (collect snapshots drive))
  = List.length (dataPoints (collect snapshots drive)).
Proof. apply collect_from_aligned. reflexivity. Qed.

(** The drives of [driveMap] are those with an entry in some snapshot. *)
Lemma driveMap_inner drive disks : forall dm : gset string,
  drive ∈ fold_left (fun dm disk => {[ Drive disk ]} ∪ dm) disks dm
  <-> drive ∈ dm \/ exists disk, disk ∈ disks /\ Drive disk = drive.
Proof.
  induction disks as [|d0 ds IH]; intros dm; simpl.
  - split; [auto|]. intros [H|(disk & H & _)]; [exact H|inversion H].
  - rewrite IH. rewrite elem_of_union, elem_of_singleton. split.
    + intros [[->|H]|(disk & Hin & E)]; auto.
      * right. exists d0. split; [left|reflexivity].
      * right. exists disk. split; [right|]; assumption.
    + intros [H|(disk & [->|Hin]%elem_of_cons & E)]; auto.
      right. exists disk. auto.
Qed.

Definition contains (s : Snapshot) (drive : string) : Prop :=
  exists disk, disk ∈ items (Disks s) /\ Drive disk = drive.

Lemma driveMap_from drive snapshots : forall dm : gset string,
  drive ∈ fold_left
    (fun dm snapshot =>
       fold_left (fun dm disk => {[ Drive disk ]} ∪ dm) (items (Disks snapshot)) dm)
    snapshots dm
  <-> drive ∈ dm \/ exists s, s ∈ snapshots /\ contains s drive.
Proof.
  induction snapshots as [|s0 rest IH]; intros dm; simpl.
  - split; [auto|]. intros [H|(s & H & _)]; [exact H|inversion H].
  - rewrite IH, driveMap_inner. split.
    + intros [[H|H]|(s & Hin & Hc)]; auto.
      * right. exists s0. split; [left|exact H].
      * right. exists s. split; [right|]; assumption.
    + intros [H|(s & [->|Hin]%elem_of_cons & Hc)]; auto.
      right. exists s. auto.
Qed.

Lemma driveMap_spec drive snapshots :
  drive ∈ driveMap snapshots <-> exists s, s ∈ snapshots /\ contains s drive.
Proof.
  unfold driveMap. rewrite driveMap_from. split; [|auto].
  intros [H|H]; [|exact H]. apply not_elem_of_empty in H. contradiction.
Qed.

Lemma graphs_lookup (F : string -> list spec_float) x :
  forall l (g : gmap string (list spec_float)),
  fold_left (fun g drive => <[drive := F drive]> g) l g !! x
  = if decide (x ∈ l) then Some (F x) else g !! x.
Proof.
  induction l as [|k l IH]; intros g; simpl.
  - destruct (decide (x ∈ [])) as [H|H]; [inversion H|reflexivity].
  - rewrite IH. destruct (decide (x ∈ l)) as [H|H].
    + rewrite decide_True by (right; exact H). reflexivity.
    + destruct (decide (x = k)) as [->|E].
      * rewrite decide_True by left. apply lookup_insert_eq.
      * rewrite decide_False by (intros [?|?]%elem_of_cons; contradiction).
        apply lookup_insert_ne. congruence.
Qed.

Lemma extract_spec_nil drive : forall snapshots,
  ~ (exists s, s ∈ snapshots /\ contains s drive) ->
  extract_spec snapshots drive = [].
Proof.
  unfold extract_spec. induction snapshots as [|s rest IH]; intros Hout; [reflexivity|].
  simpl. destruct (find_disk drive (items (Disks s))) as [disk|] eqn:E.
  - exfalso. apply Hout. exists s. split; [left|].
    exists disk. apply find_disk_Some. exact E.
  - apply IH. intros (s' & Hs' & Hc). apply Hout. exists s'. split; [right|]; auto.
Qed.

(** C8: with at least two snapshots [updateChart] stores, for every
    drive that has an entry in some snapshot, the series of
    [extract_spec]: the snapshots in stored order, one point
    [float64(free) / 1024 / 1024 / 1024] for each snapshot with an entry
    of the drive (the first such entry), none for the others; a drive
    without entries has no series.  [renderChartView] collects the same
    points.  A point is [float64(free)] with its exponent lowered by 30,
    that is [free / 1024^3] exactly for [free < 2^53] and to the
    nearest [float64] of [free] above. *)
Theorem C8_series_in_storage_order (m : Model) (h : HistoryData) :
  history m = Some h -> (2 <= len (Snapshots h))%nat ->
  exists m',
    updateChart m = Some m'
    /\ (forall drive,
          (exists s, s ∈ items (Snapshots h) /\ contains s drive) ->
          graphs m' !! drive = Some (extract_spec (items (Snapshots h)) drive))
    /\ (forall drive,
          ~ (exists s, s ∈ items (Snapshots h) /\ contains s drive) ->
          graphs m' !! drive = None
          /\ extract_spec (items (Snapshots h)) drive = [])
    /\ (forall drive,
          dataPoints (collect (items (Snapshots h)) drive)
          = extract_spec (items (Snapshots h)) drive)
    /\ (forall s rest drive,
          extract_spec (s :: rest) drive
          = match find_disk drive (items (Disks s)) with
            | Some disk => GB (FreeSpace disk) :: extract_spec rest drive
            | None => extract_spec rest drive
            end)
    /\ (forall s drive,
          (contains s drive ->
           exists disk, find_disk drive (items (Disks s)) = Some disk
                        /\ disk ∈ items (Disks s) /\ Drive disk = drive)
          /\ (~ contains s drive -> find_disk drive (items (Disks s)) = None))
    /\ GB 0 = S754_zero false
    /\ (forall free, 0 < free < 2 ^ 64 ->
          exists mant e,
            F64.of_Z free = S754_finite false mant e
            /\ GB free = S754_finite false mant (e - 30)
            /\ (free < 2 ^ 53 -> e <= 0 /\ Z.pos mant = free * 2 ^ (- e))).
Proof.
  intros Hh Hlen. unfold updateChart. rewrite Hh.
  unfold len in Hlen. apply Nat.ltb_ge in Hlen. rewrite Hlen.
  eexists. split; [reflexivity|]. simpl.
  split; [|split; [|split; [|split; [|split; [|split; [reflexivity|exact GB_value]]]]]].
  - intros drive Hin. rewrite graphs_lookup, decide_True, series_spec; [reflexivity|].
    rewrite merge_sort_Permutation, elem_of_elements. apply driveMap_spec, Hin.
  - intros drive Hout. split.
    + rewrite graphs_lookup, decide_False; [apply lookup_empty|].
      rewrite merge_sort_Permutation, elem_of_elements, driveMap_spec. exact Hout.
    + apply extract_spec_nil. exact Hout.
  - intros drive. apply collect_points.
  - intros s rest drive. unfold extract_spec. simpl.
    destruct (find_disk drive (items (Disks s))); reflexivity.
  - intros s drive. split.
    + intros (disk & Hin & E).
      destruct (find_disk drive (items (Disks s))) as [d0|] eqn:F.
      * exists d0. split; [reflexivity|]. apply find_disk_Some. exact F.
      * exfalso. rewrite find_disk_None in F. apply (F disk Hin E).
    + intros Hout. apply find_disk_None. intros disk Hin E. apply Hout.
      exists disk. auto.
Qed.

(** A history of four snapshots of one drive at T, T+1h, T+13h and
    T+14h, with T = 2024-01-15 10:30:00 UTC. *)
Definition at_hour (k : Z) (disks : list DiskInfo) : Snapshot :=
  {| Timestamp := {| unixSec := 1705314600 + 3600 * k; nsec := 0; offset := 0;
                     mono := None |};
     Disks := Some disks |}.

Definition disk_C (free : Z) : DiskInfo :=
  {| Drive := "C:\"; TotalSpace := 500000000000; FreeSpace := free;
     UsedSpace := 500000000000 - free |}.

Definition disk_D (free : Z) : DiskInfo :=
  {| Drive := "D:\"; TotalSpace := 64000000000; FreeSpace := free;
     UsedSpace := 64000000000 - free |}.

Definition four_snapshots : HistoryData :=
  {| Snapshots := Some [at_hour 0 [disk_C 150000000000];
                        at_hour 1 [disk_C 149000000000];
                        at_hour 13 [disk_C 148000000000];
                        at_hour 14 [disk_C 147000000000]] |}.

Definition model_of (h : HistoryData) (selected : Z) : Model :=
  {| history := Some h; graphs := ∅; currentView := viewChart;
     selectedDisk := selected; width := 80; height := 40;
     err := None; loading := false; status := "" |}.

Lemma C8_witness : exists m', updateChart (model_of four_snapshots 0) = Some m'.
Proof.
  destruct (C8_series_in_storage_order (model_of four_snapshots 0) four_snapshots
              eq_refl (le_S _ _ (le_S _ _ (le_n 2))))
    as (m' & H & _).
  exists m'. exact H.
Defined.

(** ** Too little history *)

(** C6: with fewer than two snapshots [updateChart] leaves the model as
    it is (no series, no error) and [renderChartView] writes the header
    and the two lines asking for more history, and nothing else,
    whichever drive is selected and whatever the machine has. *)
Theorem C6_insufficient_data (w : Win.env) (m : Model) (h : HistoryData) :
  history m = Some h -> (len (Snapshots h) < 2)%nat ->
  updateChart m = Some m
  /\ renderChartView w m
     = Some [Styled headerStyle "Free space over time:"; Text (nl +:+ nl);
             Text ("Not enough data for a graph yet." +:+ nl);
             Text ("Run the program a few times to build history." +:+ nl)]
  /\ (forall selected,
        updateChart (set_selected selected m) = Some (set_selected selected m)
        /\ renderChartView w (set_selected selected m) = renderChartView w m).
Proof.
  intros Hh Hlen. unfold len in Hlen. apply Nat.ltb_lt in Hlen.
  assert (Hany : forall m0, history m0 = Some h ->
            updateChart m0 = Some m0
            /\ renderChartView w m0 = Some (chart_header ++ not_enough_data)).
  { intros m0 H0. unfold updateChart, renderChartView.
    rewrite H0. cbv zeta. rewrite Hlen. split; reflexivity. }
  destruct (Hany m Hh) as [Hu Hr].
  split; [exact Hu|]. split; [exact Hr|].
  intros selected. destruct (Hany (set_selected selected m) Hh) as [Hu' Hr'].
  split; [exact Hu'|]. rewrite Hr', Hr. reflexivity.
Qed.

Definition one_snapshot : HistoryData :=
  {| Snapshots := Some [at_hour 0 [disk_C 150000000000]] |}.

Lemma C6_witness :
  updateChart (model_of one_snapshot 0) = Some (model_of one_snapshot 0).
Proof.
  exact (proj1 (C6_insufficient_data odd_machine (model_of one_snapshot 0)
                  one_snapshot eq_refl (le_n 2))).
Defined.

(** ** The label track *)

Lemma format_label_not_blank t : GoTime.format_label t <> "".
Proof.
  unfold GoTime.format_label.
  destruct (GoTime.appendInt (GoTime.day (GoTime.clock t)) 2); discriminate.
Qed.

(** The example of the specification: labels at positions 0, 2 and 3. *)
Lemma labels_of_four_snapshots :
  timeLabels (collect (items (Snapshots four_snapshots)) "C:\")
  = ["15.01 10:30"; ""; "15.01 23:30"; "16.01 00:30"].
Proof. vm_compute. reflexivity. Qed.

(** A history in which drive [D:] has entries in the first two
    snapshots and none in the third, one hour apart. *)
Definition unplugged : HistoryData :=
  {| Snapshots := Some [at_hour 0 [disk_C 150000000000; disk_D 32000000000];
                        at_hour 1 [disk_C 149000000000; disk_D 31000000000];
                        at_hour 2 [disk_C 148000000000]] |}.

(** C3 on [unplugged]: the series of [D:] has two points and the label
    of the last one is blank.  The loop tests the index of the
    snapshot, [i == len(m.history.Snapshots)-1], where the label track
    needs the last point of the series. *)
Theorem C3_last_point_blank :
  List.length (dataPoints (collect (items (Snapshots unplugged)) "D:\")) = 2%nat
  /\ timeLabels (collect (items (Snapshots unplugged)) "D:\") = ["15.01 10:30"; ""].
Proof. vm_compute. auto. Qed.

(** * The history file: what is saved is read back *)

(** ** Strings *)

Lemma append_nil_r (a : string) : a +:+ "" = a.
Proof. induction a as [|x a IH]; simpl; [reflexivity|]. f_equal. exact IH. Qed.

Lemma length_append (a b : string) :
  String.length (a +:+ b) = (String.length a + String.length b)%nat.
Proof. induction a as [|x a IH]; simpl; [reflexivity|]. f_equal. exact IH. Qed.

(** ** Decimal numbers *)

Lemma code_chr z : 0 <= z < 256 -> Bytes.code (Bytes.chr z) = z.
Proof.
  intros Hz. unfold Bytes.code, Bytes.chr.
  rewrite N_ascii_embedding; [lia|].
  change 256%N with (Z.to_N 256). apply Z2N.inj_lt; lia.
Qed.

Lemma chr_code c : Bytes.chr (Bytes.code c) = c.
Proof. unfold Bytes.code, Bytes.chr. rewrite N2Z.id. apply ascii_N_embedding. Qed.

Lemma code_range c : 0 <= Bytes.code c < 256.
Proof.
  unfold Bytes.code. pose proof (N_ascii_bounded c). lia.
Qed.

Lemma code_digit d : 0 <= d <= 9 -> Bytes.code (Fmt.digit d) = 48 + d.
Proof. intros Hd. apply code_chr. lia. Qed.

Lemma is_digit_digit d : 0 <= d <= 9 -> Bytes.is_digit (Fmt.digit d) = true.
Proof.
  intros Hd. unfold Bytes.is_digit, Bytes.between. rewrite code_digit by lia.
  apply andb_true_intro. split; apply Z.leb_le; lia.
Qed.

Lemma itoa_loop_acc fuel : forall n acc,
  Fmt.itoa_loop fuel n acc = Fmt.itoa_loop fuel n "" +:+ acc.
Proof.
  induction fuel as [|fuel IH]; intros n acc; simpl; [reflexivity|].
  destruct (n <? 10); [reflexivity|].
  rewrite IH, (IH _ (String _ "")), append_assoc. reflexivity.
Qed.

Lemma itoa_loop_fuel f1 : forall f2 n acc,
  (0 < f1)%nat -> (0 < f2)%nat ->
  0 <= n < 10 ^ Z.of_nat f1 -> 0 <= n < 10 ^ Z.of_nat f2 ->
  Fmt.itoa_loop f1 n acc = Fmt.itoa_loop f2 n acc.
Proof.
  induction f1 as [|f1 IH]; intros f2 n acc P1 P2 H1 H2; [lia|].
  destruct f2 as [|f2]; [lia|].
  simpl. destruct (Z.ltb_spec n 10) as [Hlt|Hge]; [reflexivity|].
  rewrite Nat2Z.inj_succ, Z.pow_succ_r in H1, H2 by lia.
  assert (0 <= n / 10 < 10 ^ Z.of_nat f1).
  { split; [apply Z.div_pos; lia|apply Z.div_lt_upper_bound; lia]. }
  assert (0 <= n / 10 < 10 ^ Z.of_nat f2).
  { split; [apply Z.div_pos; lia|apply Z.div_lt_upper_bound; lia]. }
  apply IH; try assumption.
  - destruct f1; [simpl in H1; lia|lia].
  - destruct f2; [simpl in H2; lia|lia].
Qed.

Lemma pow2_le_pow10 k : 0 <= k -> 2 ^ k <= 10 ^ k.
Proof. intros Hk. apply Z.pow_le_mono_l. lia. Qed.

Lemma itoa_fuel_ok n : 0 <= n -> 0 <= n < 10 ^ Z.of_nat (S (Z.to_nat (Z.log2 n))).
Proof.
  intros Hn. split; [exact Hn|].
  rewrite Nat2Z.inj_succ, Z2Nat.id by apply Z.log2_nonneg.
  destruct (Z.eq_dec n 0) as [->|Hnz]; [simpl; lia|].
  pose proof (Z.log2_spec n ltac:(lia)) as [_ Hlt].
  pose proof (pow2_le_pow10 (Z.succ (Z.log2 n)) ltac:(pose proof (Z.log2_nonneg n); lia)).
  lia.
Qed.

Lemma itoa_small n : 0 <= n < 10 -> Fmt.itoa n = String (Fmt.digit n) "".
Proof.
  intros Hn. unfold Fmt.itoa. simpl.
  rewrite Z.mod_small by lia.
  destruct (Z.ltb_spec n 10); [reflexivity|lia].
Qed.

Lemma itoa_step n : 10 <= n ->
  Fmt.itoa n = Fmt.itoa (n / 10) +:+ String (Fmt.digit (n mod 10)) "".
Proof.
  intros Hn. unfold Fmt.itoa at 1. simpl.
  destruct (Z.ltb_spec n 10); [lia|].
  rewrite itoa_loop_acc. f_equal.
  assert (0 <= n / 10) by (apply Z.div_pos; lia).
  pose proof (itoa_fuel_ok n ltac:(lia)) as [_ Hlt].
  rewrite Nat2Z.inj_succ, Z.pow_succ_r in Hlt by lia.
  assert (Hq : n / 10 < 10 ^ Z.of_nat (Z.to_nat (Z.log2 n)))
    by (apply Z.div_lt_upper_bound; lia).
  apply itoa_loop_fuel; [| lia | lia | apply itoa_fuel_ok; assumption].
  destruct (Z.to_nat (Z.log2 n)); [simpl in Hq; lia|lia].
Qed.

(** Induction on the decimal digits of a number. *)
Lemma decimal_ind (P : Z -> Prop) :
  (forall n, 0 <= n < 10 -> P n) ->
  (forall n, 10 <= n -> P (n / 10) -> P n) ->
  forall n, 0 <= n -> P n.
Proof.
  intros Hsmall Hstep. apply Zlt_0_ind. intros n IH Hn.
  destruct (Z_lt_le_dec n 10) as [Hlt|Hge]; [apply Hsmall; lia|].
  apply Hstep; [exact Hge|]. apply IH. split.
  - apply Z.div_pos; lia.
  - apply Z.div_lt; lia.
Qed.

Lemma digits_value_app a : forall acc b,
  Codec.digits_value acc (a +:+ b)
  = Codec.digits_value acc a ≫= fun v => Codec.digits_value v b.
Proof.
  induction a as [|x a IH]; intros acc b; simpl; [reflexivity|].
  destruct (Bytes.is_digit x); [apply IH|reflexivity].
Qed.

Lemma digits_value_itoa n : 0 <= n -> Codec.digits_value 0 (Fmt.itoa n) = Some n.
Proof.
  revert n. apply decimal_ind.
  - intros n Hn. rewrite itoa_small by lia. simpl.
    rewrite is_digit_digit, code_digit by lia. f_equal. lia.
  - intros n Hn IH. rewrite itoa_step, digits_value_app, IH by lia. simpl.
    pose proof (Z.mod_pos_bound n 10 ltac:(lia)).
    rewrite is_digit_digit, code_digit by lia. f_equal.
    pose proof (Z.div_mod n 10 ltac:(lia)). lia.
Qed.

Lemma itoa_not_empty n : Fmt.itoa n <> "".
Proof. unfold Fmt.itoa. simpl. destruct (n <? 10); [discriminate|].
  rewrite itoa_loop_acc. destruct (Fmt.itoa_loop _ _ ""); discriminate.
Qed.

(** [ParseUint] reads back what [%d] wrote. *)
Lemma ParseUint_itoa n : 0 <= n < 2 ^ 64 -> Codec.ParseUint (Fmt.itoa n) = Some n.
Proof.
  intros Hn. unfold Codec.ParseUint.
  destruct (Fmt.itoa n) eqn:E; [exfalso; eapply itoa_not_empty; eauto|].
  rewrite <- E, digits_value_itoa by lia. simpl.
  unfold U64.modulus. destruct (Z.ltb_spec n (2 ^ 64)); [reflexivity|lia].
Qed.

Fixpoint all_digits (s : string) : bool :=
  match s with
  | EmptyString => true
  | String c r => Bytes.is_digit c && all_digits r
  end.

(** What may follow a value in a document written by [print]. *)
Definition delim (rest : string) : Prop :=
  match rest with
  | EmptyString => True
  | String c _ => Bytes.code c = 44 \/ Bytes.code c = 10
  end.

Lemma all_digits_app a b : all_digits (a +:+ b) = all_digits a && all_digits b.
Proof.
  induction a as [|x a IH]; simpl; [reflexivity|].
  rewrite IH, andb_assoc. reflexivity.
Qed.

Lemma all_digits_itoa n : 0 <= n -> all_digits (Fmt.itoa n) = true.
Proof.
  revert n. apply decimal_ind.
  - intros n Hn. rewrite itoa_small by lia. simpl.
    rewrite is_digit_digit by lia. reflexivity.
  - intros n Hn IH. rewrite itoa_step, all_digits_app, IH by lia. simpl.
    pose proof (Z.mod_pos_bound n 10 ltac:(lia)).
    rewrite is_digit_digit by lia. reflexivity.
Qed.

Lemma digits_run a : forall rest,
  all_digits a = true ->
  match rest with String c _ => Bytes.is_digit c = false | EmptyString => True end ->
  Json.digits (a +:+ rest) = (a, rest).
Proof.
  induction a as [|x a IH]; intros rest Ha Hrest; simpl in *.
  - destruct rest as [|c r]; [reflexivity|]. simpl. rewrite Hrest. reflexivity.
  - apply andb_true_iff in Ha as [Hx Ha]. rewrite Hx, (IH rest Ha Hrest). reflexivity.
Qed.

Lemma itoa_head n : 0 < n ->
  exists d r, 1 <= d <= 9 /\ Fmt.itoa n = String (Fmt.digit d) r.
Proof.
  intros Hn. assert (H0 : 0 <= n) by lia. revert n H0 Hn. apply (decimal_ind
    (fun n => 0 < n -> exists d r, 1 <= d <= 9 /\ Fmt.itoa n = String (Fmt.digit d) r)).
  - intros n Hn Hpos. exists n, "". split; [lia|]. apply itoa_small. lia.
  - intros n Hn IH _.
    destruct IH as (d & r & Hd & E).
    { apply Z.div_str_pos. lia. }
    exists d, (r +:+ String (Fmt.digit (n mod 10)) "").
    split; [exact Hd|]. rewrite itoa_step, E by lia. reflexivity.
Qed.

Lemma delim_not_digit rest : delim rest ->
  match rest with String c _ => Bytes.is_digit c = false | EmptyString => True end.
Proof.
  destruct rest as [|c r]; simpl; [auto|].
  unfold Bytes.is_digit, Bytes.between.
  intros [-> | ->]; reflexivity.
Qed.

(** The scanner takes the digits of [%d] as one number literal. *)
Lemma scan_number_itoa n rest : 0 <= n -> delim rest ->
  Json.scan_number (Fmt.itoa n +:+ rest) = Some (Fmt.itoa n, rest).
Proof.
  intros Hn Hrest.
  assert (Hafter : forall lit, Json.scan_frac rest ≫= (fun '(f, s3) =>
             Json.scan_exp s3 ≫= (fun '(e, s4) => Some (lit +:+ f +:+ e, s4)))
             = Some (lit, rest)).
  { intros lit. destruct rest as [|c r]; simpl.
    - rewrite append_nil_r. reflexivity.
    - simpl in Hrest. unfold Json.scan_exp.
      destruct Hrest as [E|E]; rewrite E; simpl; rewrite E; simpl;
        rewrite append_nil_r; reflexivity. }
  destruct (Z.eq_dec n 0) as [->|Hnz].
  - change (Fmt.itoa 0) with "0". unfold Json.scan_number. simpl.
    exact (Hafter "0").
  - destruct (itoa_head n ltac:(lia)) as (d & r & Hd & E).
    pose proof (all_digits_itoa n Hn) as Hall. rewrite E in Hall. simpl in Hall.
    apply andb_true_iff in Hall as [_ Hall].
    rewrite E. unfold Json.scan_number. simpl.
    rewrite code_digit by lia.
    destruct (Z.eqb_spec (48 + d) 45); [lia|].
    unfold Json.scan_int. simpl. rewrite code_digit by lia.
    destruct (Z.eqb_spec (48 + d) 48); [lia|].
    rewrite is_digit_digit by lia.
    rewrite (digits_run r rest Hall (delim_not_digit _ Hrest)). simpl.
    exact (Hafter (String (Fmt.digit d) r)).
Qed.

(** *** Fields of fixed width *)

(** [w] decimal digits of [x], the last one at the right. *)
Fixpoint fixed (w : nat) (x : Z) : string :=
  match w with
  | O => ""
  | S w' => fixed w' (x / 10) +:+ String (Fmt.digit (x mod 10)) ""
  end.

Definition zeros (k : nat) : string := String.concat "" (replicate k "0").

Lemma zeros_S k : zeros (S k) = String "0" (zeros k).
Proof. unfold zeros. destruct k; reflexivity. Qed.

Lemma zeros_snoc k : zeros k +:+ "0" = String "0" (zeros k).
Proof.
  induction k as [|k IH]; [reflexivity|].
  rewrite zeros_S. simpl. rewrite IH. reflexivity.
Qed.

Lemma fixed_zero w : fixed w 0 = zeros w.
Proof.
  induction w as [|w IH]; [reflexivity|].
  simpl. change (0 / 10) with 0. change (0 mod 10) with 0.
  rewrite IH. change (Fmt.digit 0) with "0"%char.
  rewrite zeros_snoc, zeros_S. reflexivity.
Qed.

Lemma itoa_length n w : 0 <= n < 10 ^ Z.of_nat w -> (0 < w)%nat ->
  (String.length (Fmt.itoa n) <= w)%nat.
Proof.
  revert n. induction w as [|w IH]; intros n Hn Hw; [lia|].
  destruct (Z_lt_le_dec n 10) as [Hlt|Hge].
  - rewrite itoa_small by lia. simpl. lia.
  - rewrite itoa_step, length_append by lia. simpl.
    rewrite Nat2Z.inj_succ, Z.pow_succ_r in Hn by lia.
    assert (0 <= n / 10 < 10 ^ Z.of_nat w).
    { split; [apply Z.div_pos; lia|apply Z.div_lt_upper_bound; lia]. }
    assert (0 < w)%nat by (destruct w; [simpl in *; lia|lia]).
    specialize (IH (n / 10)). lia.
Qed.

Lemma pad_fixed w : forall x, 0 <= x < 10 ^ Z.of_nat w -> (0 < w)%nat ->
  GoTime.pad w (Fmt.itoa x) = fixed w x.
Proof.
  unfold GoTime.pad.
  induction w as [|w IH]; intros x Hx Hw; [lia|].
  fold (zeros (S w - String.length (Fmt.itoa x))).
  destruct (Z_lt_le_dec x 10) as [Hlt|Hge].
  - rewrite itoa_small by lia. simpl String.length.
    replace (S w - 1)%nat with w by lia. simpl fixed.
    rewrite (Z.div_small x 10), (Z.mod_small x 10) by lia.
    rewrite fixed_zero. reflexivity.
  - rewrite Nat2Z.inj_succ, Z.pow_succ_r in Hx by lia.
    assert (Hq : 0 <= x / 10 < 10 ^ Z.of_nat w).
    { split; [apply Z.div_pos; lia|apply Z.div_lt_upper_bound; lia]. }
    assert (Hw' : (0 < w)%nat) by (destruct w; [simpl in *; lia|lia]).
    rewrite itoa_step, length_append by lia. simpl String.length. simpl fixed.
    replace (S w - (String.length (Fmt.itoa (x / 10)) + 1))%nat
      with (w - String.length (Fmt.itoa (x / 10)))%nat by lia.
    rewrite <- append_assoc. f_equal.
    specialize (IH (x / 10) Hq Hw').
    fold (zeros (w - String.length (Fmt.itoa (x / 10)))) in IH. exact IH.
Qed.

Lemma appendInt_fixed w x : 0 <= x < 10 ^ Z.of_nat w -> (0 < w)%nat ->
  GoTime.appendInt x w = fixed w x.
Proof.
  intros Hx Hw. unfold GoTime.appendInt.
  destruct (Z.ltb_spec x 0); [lia|]. apply pad_fixed; assumption.
Qed.

Lemma all_digits_fixed w : forall x, all_digits (fixed w x) = true.
Proof.
  induction w as [|w IH]; intros x; simpl; [reflexivity|].
  rewrite all_digits_app, IH. simpl.
  pose proof (Z.mod_pos_bound x 10 ltac:(lia)).
  rewrite is_digit_digit by lia. reflexivity.
Qed.

Lemma length_fixed w : forall x, String.length (fixed w x) = w.
Proof.
  induction w as [|w IH]; intros x; simpl; [reflexivity|].
  rewrite length_append, IH. simpl. lia.
Qed.

Lemma num_digits_fixed w : forall x k acc s,
  0 <= x < 10 ^ Z.of_nat w ->
  Rfc3339.num_digits (w + k) acc (fixed w x +:+ s)
  = Rfc3339.num_digits k (acc * 10 ^ Z.of_nat w + x) s.
Proof.
  induction w as [|w IH]; intros x k acc s Hx.
  - simpl in *. f_equal. lia.
  - rewrite Nat2Z.inj_succ, Z.pow_succ_r in * by lia.
    assert (Hq : 0 <= x / 10 < 10 ^ Z.of_nat w).
    { split; [apply Z.div_pos; lia|apply Z.div_lt_upper_bound; lia]. }
    simpl fixed. rewrite append_assoc.
    replace (S w + k)%nat with (w + S k)%nat by lia.
    rewrite (IH (x / 10) (S k) acc _ Hq). simpl.
    pose proof (Z.mod_pos_bound x 10 ltac:(lia)).
    rewrite is_digit_digit, code_digit by lia. f_equal.
    pose proof (Z.div_mod x 10 ltac:(lia)). lia.
Qed.

(** A field written with [appendInt] is read back by [num]. *)
Lemma num_appendInt w lo hi x s :
  (0 < w)%nat -> 0 <= x < 10 ^ Z.of_nat w -> lo <= x <= hi ->
  Rfc3339.num w lo hi (GoTime.appendInt x w +:+ s) = Some (x, s).
Proof.
  intros Hw Hx Hr. unfold Rfc3339.num.
  rewrite appendInt_fixed by assumption.
  replace w with (w + 0)%nat at 1 by lia.
  rewrite num_digits_fixed by assumption. simpl.
  replace (0 * 10 ^ Z.of_nat w + x) with x by lia.
  destruct (Z.leb_spec lo x); [|lia]. destruct (Z.leb_spec x hi); [|lia].
  reflexivity.
Qed.

(** ** String literals *)

(** [utf8.ValidString], with [k] bytes of a sequence still to pass. *)
Fixpoint utf8_valid (k : nat) (s : string) : bool :=
  match s with
  | EmptyString => true
  | String c r =>
      match k with
      | S k' => Bytes.between 128 191 c && utf8_valid k' r
      | O =>
          if Bytes.code c <? 128 then utf8_valid 0 r
          else
            match Bytes.seq_len s with
            | O => false
            | S n => utf8_valid n r
            end
      end
  end.

Lemma hex_val_digit z : 0 <= z < 16 -> Bytes.hex_val (Bytes.hex_digit z) = Some z.
Proof.
  intros Hz.
  assert (H : z = 0 \/ z = 1 \/ z = 2 \/ z = 3 \/ z = 4 \/ z = 5 \/ z = 6 \/ z = 7
              \/ z = 8 \/ z = 9 \/ z = 10 \/ z = 11 \/ z = 12 \/ z = 13 \/ z = 14
              \/ z = 15) by lia.
  repeat (destruct H as [-> | H]; [vm_compute; reflexivity|]).
  subst z. vm_compute. reflexivity.
Qed.

Lemma unquote_0 s : Quote.unquote_body 0 false s = Quote.unquote_body 0 true s.
Proof. destruct s; reflexivity. Qed.

Lemma quote_0 s : Quote.quote_body 0 false s = Quote.quote_body 0 true s.
Proof. destruct s; reflexivity. Qed.

Lemma unquote_plain c t keep :
  Bytes.code c <> 92 -> Bytes.code c < 128 ->
  Quote.unquote_body 0 keep (String c t) = String c (Quote.unquote_body 0 true t).
Proof.
  intros H1 H2. simpl.
  destruct (Z.eqb_spec (Bytes.code c) 92); [contradiction|].
  destruct (Z.ltb_spec (Bytes.code c) 128); [reflexivity|lia].
Qed.

Lemma unquote_simple e t keep :
  Bytes.code e <> 117 ->
  Quote.unquote_body 0 keep (String Quote.backslash (String e t))
  = String (Quote.escaped_char e) (Quote.unquote_body 0 true t).
Proof.
  intros H. simpl.
  destruct (Z.eqb_spec (Bytes.code e) 117); [contradiction|].
  rewrite unquote_0. reflexivity.
Qed.

Lemma unquote_u a b c d rr t keep :
  Bytes.hex4 (String a (String b (String c (String d "")))) = Some rr ->
  (55296 <=? rr) && (rr <? 57344) = false ->
  Quote.unquote_body 0 keep
    (String Quote.backslash (String "u" (String a (String b (String c (String d t))))))
  = Bytes.utf8_encode rr +:+ Quote.unquote_body 0 true t.
Proof.
  intros H Hs.
  change (Quote.unquote_body 0 keep
    (String Quote.backslash (String "u" (String a (String b (String c (String d t)))))))
    with (let '(out, n) := Quote.unicode_escape (String a (String b (String c (String d t)))) in
          out +:+ Quote.unquote_body n false
                    (String "u" (String a (String b (String c (String d t)))))).
  unfold Quote.unicode_escape.
  change (Bytes.hex4 (String a (String b (String c (String d t)))))
    with (Bytes.hex4 (String a (String b (String c (String d ""))))).
  rewrite H, Hs. simpl Quote.unquote_body. rewrite unquote_0. reflexivity.
Qed.

Lemma code_eq c z : Bytes.code c = z -> c = Bytes.chr z.
Proof. intros <-. symmetry. apply chr_code. Qed.

Lemma unquote_escape_ascii c t :
  Bytes.code c < 128 ->
  Quote.unquote_body 0 true (Quote.escape_ascii c +:+ t)
  = String c (Quote.unquote_body 0 true t).
Proof.
  intros Hc. unfold Quote.escape_ascii. cbv zeta.
  pose proof (code_range c) as Hr.
  assert (Hk : forall z e, Bytes.code c = z -> Bytes.code e <> 117 ->
            Quote.escaped_char e = Bytes.chr z ->
            Quote.unquote_body 0 true (String Quote.backslash (String e "") +:+ t)
            = String c (Quote.unquote_body 0 true t)).
  { intros z e Hz He Hesc. apply code_eq in Hz. subst c.
    simpl String.append. rewrite unquote_simple by exact He.
    rewrite Hesc. reflexivity. }
  destruct (Z.leb_spec 32 (Bytes.code c)) as [H32|H32];
  destruct (Z.eqb_spec (Bytes.code c) 34) as [H34|H34];
  destruct (Z.eqb_spec (Bytes.code c) 92) as [H92|H92];
  destruct (Z.eqb_spec (Bytes.code c) 60) as [H60|H60];
  destruct (Z.eqb_spec (Bytes.code c) 62) as [H62|H62];
  destruct (Z.eqb_spec (Bytes.code c) 38) as [H38|H38];
  try lia; cbn [andb orb negb].
  all: try (apply (Hk 34 c); [assumption|lia|
              rewrite (code_eq _ _ H34); reflexivity]).
  all: try (apply (Hk 92 c); [assumption|lia|
              rewrite (code_eq _ _ H92); reflexivity]).
  all: try (apply unquote_plain; lia).
  all: destruct (Z.eqb_spec (Bytes.code c) 8) as [H8|H8];
      [apply (Hk 8 "b"%char); [assumption|vm_compute; congruence|reflexivity]|].
  all: destruct (Z.eqb_spec (Bytes.code c) 12) as [H12|H12];
      [apply (Hk 12 "f"%char); [assumption|vm_compute; congruence|reflexivity]|].
  all: destruct (Z.eqb_spec (Bytes.code c) 10) as [H10|H10];
      [apply (Hk 10 "n"%char); [assumption|vm_compute; congruence|reflexivity]|].
  all: destruct (Z.eqb_spec (Bytes.code c) 13) as [H13|H13];
      [apply (Hk 13 "r"%char); [assumption|vm_compute; congruence|reflexivity]|].
  all: destruct (Z.eqb_spec (Bytes.code c) 9) as [H9|H9];
      [apply (Hk 9 "t"%char); [assumption|vm_compute; congruence|reflexivity]|].
  all: simpl String.append.
  all: rewrite (unquote_u _ _ _ _ (Bytes.code c));
    [ unfold Bytes.utf8_encode;
      destruct (Z.ltb_spec (Bytes.code c) 128); [|lia];
      rewrite chr_code; reflexivity
    | unfold Bytes.hex4;
      change (Bytes.hex_val "0") with (Some 0);
      rewrite !hex_val_digit by (try (vm_compute; split; congruence);
        Z.div_mod_to_equations; lia);
      f_equal; Z.div_mod_to_equations; lia
    | apply andb_false_iff; left; apply Z.leb_gt; lia ].
Qed.

Definition cont (c : ascii) : Prop := Bytes.between 128 191 c = true.

Lemma between_weaken lo hi lo' hi' c :
  lo' <= lo -> hi <= hi' -> Bytes.between lo hi c = true -> Bytes.between lo' hi' c = true.
Proof.
  unfold Bytes.between. intros H1 H2 H.
  apply andb_true_iff in H. destruct H as [Ha Hb].
  apply Z.leb_le in Ha. apply Z.leb_le in Hb.
  apply andb_true_iff. split; apply Z.leb_le; lia.
Qed.

(** What [seq_len] has seen when it answers [S n]. *)
Lemma seq_len_inv c r n :
  Bytes.seq_len (String c r) = S n ->
  194 <= Bytes.code c /\
  match n with
  | 1%nat => exists c1 r', r = String c1 r' /\ cont c1 /\
        forall t, Bytes.seq_len (String c (String c1 t)) = 2%nat
  | 2%nat => exists c1 c2 r', r = String c1 (String c2 r') /\ cont c1 /\ cont c2 /\
        forall t, Bytes.seq_len (String c (String c1 (String c2 t))) = 3%nat
  | 3%nat => exists c1 c2 c3 r', r = String c1 (String c2 (String c3 r')) /\
        cont c1 /\ cont c2 /\ cont c3 /\
        forall t, Bytes.seq_len (String c (String c1 (String c2 (String c3 t)))) = 4%nat
  | _ => False
  end.
Proof.
  intros H.
  assert (Hc : 194 <= Bytes.code c).
  { unfold Bytes.seq_len in H. cbv zeta in H.
    destruct (Z.ltb_spec (Bytes.code c) 194); [discriminate|assumption]. }
  split; [exact Hc|].
  unfold Bytes.seq_len in *. cbv zeta in *.
  destruct (Bytes.code c <? 194) eqn:T0; [discriminate|].
  destruct (Bytes.code c <=? 223) eqn:T1.
  { destruct r as [|c1 r']; [discriminate|].
    destruct (Bytes.between 128 191 c1) eqn:E1; [|discriminate].
    injection H as <-. exists c1, r'.
    split; [reflexivity|]. split; [exact E1|]. intros t. rewrite E1. reflexivity. }
  destruct (Bytes.code c <=? 239) eqn:T2.
  { destruct r as [|c1 [|c2 r']]; try discriminate.
    destruct (Bytes.between _ _ c1) eqn:E1; [|discriminate].
    destruct (Bytes.between 128 191 c2) eqn:E2; [|discriminate].
    injection H as <-. exists c1, c2, r'.
    split; [reflexivity|]. split.
    { refine (between_weaken _ _ _ _ _ _ _ E1);
        [destruct (Bytes.code c =? 224); lia|destruct (Bytes.code c =? 237); lia]. }
    split; [exact E2|]. intros t. rewrite E1, E2. reflexivity. }
  destruct (Bytes.code c <=? 244) eqn:T3; [|discriminate].
  destruct r as [|c1 [|c2 [|c3 r']]]; try discriminate.
  destruct (Bytes.between _ _ c1) eqn:E1; [|discriminate].
  destruct (Bytes.between 128 191 c2) eqn:E2; [|discriminate].
  destruct (Bytes.between 128 191 c3) eqn:E3; [|discriminate].
  injection H as <-. exists c1, c2, c3, r'.
  split; [reflexivity|]. split.
  { refine (between_weaken _ _ _ _ _ _ _ E1);
      [destruct (Bytes.code c =? 240); lia|destruct (Bytes.code c =? 244); lia]. }
  split; [exact E2|]. split; [exact E3|]. intros t. rewrite E1, E2, E3. reflexivity.
Qed.

Lemma seq_len_copy c r n :
  Bytes.seq_len (String c r) = S n ->
  Bytes.seq_len (String c (Quote.quote_body n true r)) = S n.
Proof.
  intros H. destruct (seq_len_inv _ _ _ H) as [_ Hn].
  destruct n as [|[|[|[|n]]]]; try contradiction.
  - destruct Hn as (c1 & r' & -> & _ & Ht). apply Ht.
  - destruct Hn as (c1 & c2 & r' & -> & _ & _ & Ht). apply Ht.
  - destruct Hn as (c1 & c2 & c3 & r' & -> & _ & _ & _ & Ht). apply Ht.
Qed.

Lemma seq_len_valid c r n :
  Bytes.seq_len (String c r) = S n -> utf8_valid n r = utf8_valid 0 (Bytes.drop n r).
Proof.
  intros H. destruct (seq_len_inv _ _ _ H) as [_ Hn].
  destruct n as [|[|[|[|n]]]]; try contradiction.
  - destruct Hn as (c1 & r' & -> & E1 & _). simpl. rewrite E1. reflexivity.
  - destruct Hn as (c1 & c2 & r' & -> & E1 & E2 & _). simpl. rewrite E1, E2. reflexivity.
  - destruct Hn as (c1 & c2 & c3 & r' & -> & E1 & E2 & E3 & _). simpl.
    rewrite E1, E2, E3. reflexivity.
Qed.

Lemma unquote_multi c t n :
  128 <= Bytes.code c -> Bytes.seq_len (String c t) = S n ->
  Quote.unquote_body 0 true (String c t) = String c (Quote.unquote_body n true t).
Proof.
  intros Hc Hn.
  change (Quote.unquote_body 0 true (String c t)) with
    (if Bytes.code c =? 92 then
       match t with
       | String e r' =>
           if Bytes.code e =? 117 then
             let '(out, n) := Quote.unicode_escape r' in
             out +:+ Quote.unquote_body n false t
           else String (Quote.escaped_char e) (Quote.unquote_body 1 false t)
       | EmptyString => ""
       end
     else if Bytes.code c <? 128 then String c (Quote.unquote_body 0 true t)
     else match Bytes.seq_len (String c t) with
          | O => Bytes.replacement +:+ Quote.unquote_body 0 true t
          | S n => String c (Quote.unquote_body n true t)
          end).
  destruct (Z.eqb_spec (Bytes.code c) 92); [lia|].
  destruct (Z.ltb_spec (Bytes.code c) 128); [lia|].
  rewrite Hn. reflexivity.
Qed.

Lemma line_sep_inv s d :
  Quote.line_sep s = Some d ->
  exists r', s = String (Bytes.chr 226) (String (Bytes.chr 128) (String (Bytes.chr (if Ascii.eqb d "8" then 168 else 169)) r'))
    /\ (d = "8"%char \/ d = "9"%char).
Proof.
  unfold Quote.line_sep. destruct s as [|a [|b [|c r']]]; try discriminate.
  destruct (Z.eqb_spec (Bytes.code a) 226) as [Ha|]; [|discriminate].
  destruct (Z.eqb_spec (Bytes.code b) 128) as [Hb|]; [|discriminate].
  cbn [andb].
  apply code_eq in Ha, Hb. subst a b.
  destruct (Z.eqb_spec (Bytes.code c) 168) as [Hc|].
  { intros [= <-]. apply code_eq in Hc. subst c. exists r'. split; [reflexivity|]. left; reflexivity. }
  destruct (Z.eqb_spec (Bytes.code c) 169) as [Hc|]; [|discriminate].
  intros [= <-]. apply code_eq in Hc. subst c. exists r'. split; [reflexivity|]. right; reflexivity.
Qed.

Lemma utf8_valid_0 c r :
  utf8_valid 0 (String c r)
  = if Bytes.code c <? 128 then utf8_valid 0 r
    else match Bytes.seq_len (String c r) with
         | O => false
         | S n => utf8_valid n r
         end.
Proof. reflexivity. Qed.

Lemma quote_body_0 c r keep :
  Quote.quote_body 0 keep (String c r)
  = if Bytes.code c <? 128 then Quote.escape_ascii c +:+ Quote.quote_body 0 true r
    else match Bytes.seq_len (String c r) with
         | O => String Quote.backslash "ufffd" +:+ Quote.quote_body 0 true r
         | S n =>
             match Quote.line_sep (String c r) with
             | Some d => String Quote.backslash ("u202" +:+ String d "")
                         +:+ Quote.quote_body n false r
             | None => String c (Quote.quote_body n true r)
             end
         end.
Proof. reflexivity. Qed.

(** [unquote] undoes [quote] on valid UTF-8. *)
Lemma unquote_quote_body s : forall k,
  utf8_valid k s = true ->
  Quote.unquote_body k true (Quote.quote_body k true s) = s
  /\ Quote.unquote_body 0 true (Quote.quote_body k false s) = Bytes.drop k s.
Proof.
  induction s as [|c r IH]; intros k Hv.
  { destruct k; split; reflexivity. }
  destruct k as [|k].
  - assert (H1 : Quote.unquote_body 0 true (Quote.quote_body 0 true (String c r))
                 = String c r).
    { rewrite utf8_valid_0 in Hv. rewrite quote_body_0. revert Hv.
      destruct (Z.ltb_spec (Bytes.code c) 128) as [Hc|Hc]; intros Hv.
      { rewrite unquote_escape_ascii by assumption. f_equal. apply (IH 0%nat Hv). }
      revert Hv.
      destruct (Bytes.seq_len (String c r)) as [|n] eqn:En; [discriminate|].
      intros Hv.
      destruct (Quote.line_sep (String c r)) as [d|] eqn:Ed.
      - destruct (line_sep_inv _ _ Ed) as (r' & Hs & Hd).
        destruct Hd as [-> | ->]; simpl in Hs; injection Hs as -> ->;
          (assert (n = 2%nat) as -> by (vm_compute in En; congruence));
          destruct (IH 2%nat Hv) as [_ IH2]; simpl in IH2;
          simpl String.append.
        + rewrite (unquote_u _ _ _ _ 8232) by reflexivity.
          simpl Quote.quote_body. rewrite IH2. reflexivity.
        + rewrite (unquote_u _ _ _ _ 8233) by reflexivity.
          simpl Quote.quote_body. rewrite IH2. reflexivity.
      - rewrite (unquote_multi c _ n) by (try lia; apply seq_len_copy; exact En).
        f_equal. apply (IH n Hv). }
    split; [exact H1|]. rewrite quote_0. exact H1.
  - simpl in Hv. apply andb_true_iff in Hv. destruct Hv as [_ Hv].
    destruct (IH k Hv) as [IH1 IH2]. split.
    + simpl. rewrite IH1. reflexivity.
    + simpl. exact IH2.
Qed.

Lemma unquote_quote s : utf8_valid 0 s = true -> Quote.unquote (Quote.quote s) = s.
Proof. intros H. apply (unquote_quote_body s 0 H). Qed.

(** The scanner passes over what [quote] writes. *)
Definition scans (p : string) : Prop :=
  forall X raw rest, Json.scan_string X = Some (raw, rest) ->
    Json.scan_string (p +:+ X) = Some (p +:+ raw, rest).

Lemma scans_plain c :
  Bytes.code c <> 34 -> Bytes.code c <> 92 -> 32 <= Bytes.code c ->
  scans (String c "").
Proof.
  intros H1 H2 H3 X raw rest HX. simpl.
  destruct (Z.eqb_spec (Bytes.code c) 34); [contradiction|].
  destruct (Z.eqb_spec (Bytes.code c) 92); [contradiction|].
  destruct (Z.ltb_spec (Bytes.code c) 32); [lia|].
  rewrite HX. reflexivity.
Qed.

Lemma scans_simple e :
  Json.simple_escape e = true -> scans (String Quote.backslash (String e "")).
Proof.
  intros He X raw rest HX. simpl. rewrite He, HX. reflexivity.
Qed.

Lemma scans_u a b c d :
  Json.is_hex a && Json.is_hex b && Json.is_hex c && Json.is_hex d = true ->
  scans (String Quote.backslash (String "u" (String a (String b (String c (String d "")))))).
Proof.
  intros He X raw rest HX. simpl. rewrite He, HX. reflexivity.
Qed.

Lemma is_hex_digit z : 0 <= z < 16 -> Json.is_hex (Bytes.hex_digit z) = true.
Proof. intros Hz. unfold Json.is_hex. rewrite hex_val_digit by assumption. reflexivity. Qed.

Lemma scans_escape_ascii c : scans (Quote.escape_ascii c).
Proof.
  unfold Quote.escape_ascii. cbv zeta. pose proof (code_range c) as Hr.
  destruct (Z.leb_spec 32 (Bytes.code c)) as [H32|H32];
  destruct (Z.eqb_spec (Bytes.code c) 34) as [H34|H34];
  destruct (Z.eqb_spec (Bytes.code c) 92) as [H92|H92];
  destruct (Z.eqb_spec (Bytes.code c) 60) as [H60|H60];
  destruct (Z.eqb_spec (Bytes.code c) 62) as [H62|H62];
  destruct (Z.eqb_spec (Bytes.code c) 38) as [H38|H38];
  try lia; cbn [andb orb negb].
  all: try (apply scans_plain; lia).
  all: try (apply scans_simple; unfold Json.simple_escape; cbv zeta;
            rewrite ?H34, ?H92; reflexivity).
  all: repeat (match goal with
       | |- context [if ?x =? ?y then _ else _] => destruct (Z.eqb_spec x y)
       end; [apply scans_simple; reflexivity|]).
  all: apply scans_u; change (Json.is_hex "0") with true;
       rewrite !is_hex_digit by (Z.div_mod_to_equations; lia); reflexivity.
Qed.

Lemma scan_quote_body rest s : forall k keep,
  utf8_valid k s = true ->
  Json.scan_string (Quote.quote_body k keep s +:+ String Quote.dquote rest)
  = Some (Quote.quote_body k keep s, rest).
Proof.
  induction s as [|c r IH]; intros k keep Hv.
  { destruct k; reflexivity. }
  destruct k as [|k].
  - rewrite utf8_valid_0 in Hv. rewrite quote_body_0. revert Hv.
    destruct (Z.ltb_spec (Bytes.code c) 128) as [Hc|Hc]; intros Hv.
    { rewrite append_assoc. apply scans_escape_ascii. apply IH. exact Hv. }
    revert Hv. destruct (Bytes.seq_len (String c r)) as [|n] eqn:En; [discriminate|].
    intros Hv.
    destruct (Quote.line_sep (String c r)) as [d|] eqn:Ed.
    + rewrite append_assoc.
      destruct (line_sep_inv _ _ Ed) as (_ & _ & [-> | ->]);
        [apply (scans_u "2" "0" "2" "8" eq_refl)
        |apply (scans_u "2" "0" "2" "9" eq_refl)]; apply IH; exact Hv.
    + apply (scans_plain c ltac:(lia) ltac:(lia) ltac:(lia)). apply IH. exact Hv.
  - simpl in Hv. apply andb_true_iff in Hv. destruct Hv as [Hc Hv].
    simpl Quote.quote_body. destruct keep.
    + unfold Bytes.between in Hc. apply andb_true_iff in Hc. destruct Hc as [Hc _].
      apply Z.leb_le in Hc.
      apply (scans_plain c ltac:(lia) ltac:(lia) ltac:(lia)). apply IH. exact Hv.
    + apply IH. exact Hv.
Qed.

Lemma scan_quote s rest :
  utf8_valid 0 s = true ->
  Json.scan_string (Quote.quote s +:+ String Quote.dquote rest)
  = Some (Quote.quote s, rest).
Proof. apply scan_quote_body. Qed.

(** ** Documents: the parser reads back what [print] writes *)

Import Json.

Definition num_ok (lit : string) : Prop :=
  match lit with
  | String c _ => (Bytes.code c =? 45) || Bytes.is_digit c = true
  | EmptyString => False
  end
  /\ forall rest, delim rest -> scan_number (lit +:+ rest) = Some (lit, rest).

Definition str_ok (raw : string) : Prop :=
  forall rest, scan_string (raw +:+ String Quote.dquote rest) = Some (raw, rest).

Fixpoint wf (v : json) : Prop :=
  match v with
  | JNum lit => num_ok lit
  | JStr raw => str_ok raw
  | JArr xs =>
      (fix all (l : list json) : Prop :=
         match l with
         | [] => True
         | x :: l' => wf x /\ all l'
         end) xs
  | JObj ms =>
      (fix all (l : list (string * json)) : Prop :=
         match l with
         | [] => True
         | (k, x) :: l' => str_ok k /\ wf x /\ all l'
         end) ms
  | _ => True
  end.

Fixpoint tree_size (v : json) : nat :=
  match v with
  | JArr xs =>
      S ((fix sum (l : list json) : nat :=
            match l with
            | [] => 0
            | x :: l' => S (tree_size x) + sum l'
            end) xs)
  | JObj ms =>
      S ((fix sum (l : list (string * json)) : nat :=
            match l with
            | [] => 0
            | (_, x) :: l' => S (tree_size x) + sum l'
            end) ms)
  | _ => 1
  end%nat.

Fixpoint tree_height (v : json) : nat :=
  match v with
  | JArr xs =>
      S ((fix hi (l : list json) : nat :=
            match l with
            | [] => 0
            | x :: l' => Nat.max (tree_height x) (hi l')
            end) xs)
  | JObj ms =>
      S ((fix hi (l : list (string * json)) : nat :=
            match l with
            | [] => 0
            | (_, x) :: l' => Nat.max (tree_height x) (hi l')
            end) ms)
  | _ => 0
  end%nat.

Fixpoint elems_tail (d : nat) (l : list json) : string :=
  match l with
  | [] => ""
  | y :: l' => "," +:+ newline d +:+ print d y +:+ elems_tail d l'
  end.

Fixpoint members_tail (d : nat) (l : list (string * json)) : string :=
  match l with
  | [] => ""
  | (k, y) :: l' =>
      "," +:+ newline d +:+ quoted k +:+ ": " +:+ print d y +:+ members_tail d l'
  end.

Lemma elems_tail_fix d xs :
  (fix rest (l : list json) : string :=
     match l with
     | [] => ""
     | y :: l' => "," +:+ newline d +:+ print d y +:+ rest l'
     end) xs = elems_tail d xs.
Proof.
  induction xs as [|y l IH]; [reflexivity|].
  cbn [elems_tail]. rewrite <- IH. reflexivity.
Qed.

Lemma members_tail_fix d ms :
  (fix rest (l : list (string * json)) : string :=
     match l with
     | [] => ""
     | (k', y) :: l' =>
         "," +:+ newline d +:+ quoted k' +:+ ": " +:+ print d y +:+ rest l'
     end) ms = members_tail d ms.
Proof.
  induction ms as [|[k y] l IH]; [reflexivity|].
  cbn [members_tail]. rewrite <- IH. reflexivity.
Qed.

Lemma print_arr d x xs :
  print d (JArr (x :: xs))
  = "[" +:+ newline (S d) +:+ print (S d) x +:+ elems_tail (S d) xs
    +:+ newline d +:+ "]".
Proof. rewrite <- elems_tail_fix. reflexivity. Qed.

Lemma print_obj d k x ms :
  print d (JObj ((k, x) :: ms))
  = "{" +:+ newline (S d) +:+ quoted k +:+ ": " +:+ print (S d) x
    +:+ members_tail (S d) ms +:+ newline d +:+ "}".
Proof. rewrite <- members_tail_fix. reflexivity. Qed.

Lemma skip_ws_spaces k s :
  skip_ws (String.concat "" (replicate k "  ") +:+ s) = skip_ws s.
Proof.
  induction k as [|k IH]; [reflexivity|].
  replace (String.concat "" (replicate (S k) "  "))
    with ("  " +:+ String.concat "" (replicate k "  "))
    by (destruct k; reflexivity).
  rewrite append_assoc. simpl. exact IH.
Qed.

Lemma skip_ws_newline d s : skip_ws (newline d +:+ s) = skip_ws s.
Proof.
  unfold newline. rewrite append_assoc. unfold nl. simpl.
  apply skip_ws_spaces.
Qed.

Lemma skip_ws_head c s : is_ws c = false -> skip_ws (String c s) = String c s.
Proof. intros H. simpl. rewrite H. reflexivity. Qed.

Lemma parse_value_ws fuel dp s s' :
  skip_ws s = skip_ws s' -> parse_value fuel dp s = parse_value fuel dp s'.
Proof. intros H. destruct fuel; simpl; [reflexivity|]. rewrite H. reflexivity. Qed.

Lemma skip_ws_idem s : skip_ws (skip_ws s) = skip_ws s.
Proof.
  induction s as [|c r IH]; [reflexivity|].
  simpl. destruct (is_ws c) eqn:E; [exact IH|]. simpl. rewrite E. reflexivity.
Qed.

Lemma quoted_app k X : quoted k +:+ X = String Quote.dquote (k +:+ String Quote.dquote X).
Proof. unfold quoted. simpl. rewrite append_assoc. reflexivity. Qed.

Lemma json_induction (P : json -> Prop) :
  P JNull -> (forall b, P (JBool b)) -> (forall lit, P (JNum lit)) ->
  (forall raw, P (JStr raw)) ->
  (forall xs, Forall P xs -> P (JArr xs)) ->
  (forall ms, Forall (fun m => P (snd m)) ms -> P (JObj ms)) ->
  forall v, P v.
Proof.
  intros Hnull Hbool Hnum Hstr Harr Hobj.
  fix IH 1. intros [| b | lit | raw | xs | ms].
  - exact Hnull.
  - apply Hbool.
  - apply Hnum.
  - apply Hstr.
  - apply Harr. induction xs as [|x l IHl]; constructor; [apply IH|exact IHl].
  - apply Hobj. induction ms as [|[k x] l IHl]; constructor; [apply IH|exact IHl].
Qed.

Fixpoint sum_elems (l : list json) : nat :=
  match l with
  | [] => 0
  | x :: l' => S (tree_size x) + sum_elems l'
  end%nat.

Fixpoint hi_elems (l : list json) : nat :=
  match l with
  | [] => 0
  | x :: l' => Nat.max (tree_height x) (hi_elems l')
  end%nat.

Fixpoint wf_elems (l : list json) : Prop :=
  match l with
  | [] => True
  | x :: l' => wf x /\ wf_elems l'
  end.

Fixpoint sum_members (l : list (string * json)) : nat :=
  match l with
  | [] => 0
  | (_, x) :: l' => S (tree_size x) + sum_members l'
  end%nat.

Fixpoint hi_members (l : list (string * json)) : nat :=
  match l with
  | [] => 0
  | (_, x) :: l' => Nat.max (tree_height x) (hi_members l')
  end%nat.

Fixpoint wf_members (l : list (string * json)) : Prop :=
  match l with
  | [] => True
  | (k, x) :: l' => str_ok k /\ wf x /\ wf_members l'
  end.

Lemma size_arr xs : tree_size (JArr xs) = S (sum_elems xs).
Proof. reflexivity. Qed.
Lemma size_obj ms : tree_size (JObj ms) = S (sum_members ms).
Proof. reflexivity. Qed.
Lemma height_arr xs : tree_height (JArr xs) = S (hi_elems xs).
Proof. reflexivity. Qed.
Lemma height_obj ms : tree_height (JObj ms) = S (hi_members ms).
Proof. reflexivity. Qed.
Lemma wf_arr xs : wf (JArr xs) = wf_elems xs.
Proof. reflexivity. Qed.
Lemma wf_obj ms : wf (JObj ms) = wf_members ms.
Proof. reflexivity. Qed.

Lemma head_num c :
  (Bytes.code c =? 45) || Bytes.is_digit c = true ->
  is_ws c = false /\ (Bytes.code c =? 123) = false /\ (Bytes.code c =? 91) = false
  /\ (Bytes.code c =? 34) = false /\ Bytes.code c <> 93 /\ Bytes.code c <> 125.
Proof.
  unfold Bytes.is_digit, Bytes.between, is_ws. intros H.
  assert (Hc : Bytes.code c = 45 \/ 48 <= Bytes.code c <= 57).
  { apply orb_true_iff in H. destruct H as [H|H].
    - left. apply Z.eqb_eq. exact H.
    - right. apply andb_true_iff in H. destruct H as [H1 H2].
      apply Z.leb_le in H1. apply Z.leb_le in H2. lia. }
  repeat split;
    repeat match goal with
    | |- context [?x =? ?y] => destruct (Z.eqb_spec x y); try lia
    end; try reflexivity; lia.
Qed.

(** The first byte of a printed value starts a value. *)
Lemma print_head d v : wf v ->
  exists c t, print d v = String c t /\ is_ws c = false
              /\ Bytes.code c <> 93 /\ Bytes.code c <> 125.
Proof.
  destruct v as [| [|] | lit | raw | [|x xs] | [|[k x] ms]]; intros Hw.
  1-3, 6, 8: (eexists _, _; split; [reflexivity|]; repeat split;
              vm_compute; congruence).
  - destruct Hw as [Hh _]. destruct lit as [|c t]; [contradiction|].
    exists c, t. split; [reflexivity|].
    destruct (head_num c Hh) as (? & _ & _ & _ & ? & ?). auto.
  - (eexists _, _; split; [reflexivity|]; repeat split; vm_compute; congruence).
  - rewrite print_arr.
    (eexists _, _; split; [reflexivity|]; repeat split; vm_compute; congruence).
  - rewrite print_obj.
    (eexists _, _; split; [reflexivity|]; repeat split; vm_compute; congruence).
Qed.

Lemma parse_value_str f dp X :
  parse_value (S f) dp (String Quote.dquote X)
  = '(raw, rest) ← scan_string X; Some (JStr raw, rest).
Proof. reflexivity. Qed.

Lemma parse_value_num f dp c X :
  (Bytes.code c =? 45) || Bytes.is_digit c = true ->
  parse_value (S f) dp (String c X)
  = '(lit, rest) ← scan_number (String c X); Some (JNum lit, rest).
Proof.
  intros H. destruct (head_num c H) as (H1 & H2 & H3 & H4 & _).
  cbn [parse_value]. rewrite (skip_ws_head _ _ H1). cbv zeta.
  rewrite H2, H3, H4, H. reflexivity.
Qed.

Lemma parse_value_arr f dp r c r' :
  skip_ws r = String c r' -> Bytes.code c <> 93 ->
  parse_value (S f) (S dp) (String "[" r)
  = '(es, rest) ← parse_elems f dp r; Some (JArr es, rest).
Proof.
  intros H Hc. cbn [parse_value].
  change (skip_ws (String "[" r)) with (String "["%char r). cbv zeta.
  change (Bytes.code "[" =? 123) with false.
  change (Bytes.code "[" =? 91) with true. cbv iota.
  rewrite H. destruct (Z.eqb_spec (Bytes.code c) 93); [contradiction|].
  reflexivity.
Qed.

Lemma parse_value_obj f dp r c r' :
  skip_ws r = String c r' -> Bytes.code c <> 125 ->
  parse_value (S f) (S dp) (String "{" r)
  = '(ms, rest) ← parse_members f dp r; Some (JObj ms, rest).
Proof.
  intros H Hc. cbn [parse_value].
  change (skip_ws (String "{" r)) with (String "{"%char r). cbv zeta.
  change (Bytes.code "{" =? 123) with true. cbv iota.
  rewrite H. destruct (Z.eqb_spec (Bytes.code c) 125); [contradiction|].
  reflexivity.
Qed.

Definition reads_back (v : json) : Prop :=
  forall fuel dp d rest,
    (tree_size v <= fuel)%nat -> (tree_height v <= dp)%nat -> wf v -> delim rest ->
    parse_value fuel dp (print d v +:+ rest) = Some (v, rest).

Lemma delim_newline d s : delim (newline d +:+ s).
Proof. right. reflexivity. Qed.

Lemma delim_comma s : delim ("," +:+ s).
Proof. left. reflexivity. Qed.

Lemma parse_elems_print xs : forall x,
  Forall reads_back (x :: xs) ->
  forall fuel dp d d0 rest,
    (sum_elems (x :: xs) <= fuel)%nat -> (hi_elems (x :: xs) <= dp)%nat ->
    wf_elems (x :: xs) ->
    parse_elems fuel dp
      (newline d +:+ print d x +:+ elems_tail d xs +:+ newline d0 +:+ String "]" rest)
    = Some (x :: xs, rest).
Proof.
  induction xs as [|y l IH]; intros x HF fuel dp d d0 rest Hs Hh Hw.
  - apply Forall_cons_1 in HF. destruct HF as [Hx _].
    destruct fuel as [|f]; [simpl in Hs; lia|].
    cbn [parse_elems].
    rewrite (parse_value_ws f dp _ _ (skip_ws_newline d _)).
    cbn [elems_tail]. cbn [String.append].
    rewrite (Hx f dp d _); [|simpl in Hs; lia|simpl in Hh; lia|apply Hw|apply delim_newline].
    cbn [mbind option_bind]. rewrite skip_ws_newline. reflexivity.
  - pose proof HF as HF0.
    apply Forall_cons_1 in HF. destruct HF as [Hx HF].
    destruct fuel as [|f]; [simpl in Hs; lia|].
    cbn [parse_elems].
    rewrite (parse_value_ws f dp _ _ (skip_ws_newline d _)).
    cbn [elems_tail]. rewrite !append_assoc.
    rewrite (Hx f dp d _); [|simpl in Hs; lia|simpl in Hh; lia|apply Hw|apply delim_comma].
    cbn [mbind option_bind]. cbn [String.append].
    rewrite (skip_ws_head _ _ (eq_refl : is_ws "," = false)).
    change (Bytes.code "," =? 44) with true. cbv iota.
    rewrite (IH y HF f dp d d0 rest); [reflexivity|simpl in *; lia|simpl in *; lia|apply Hw].
Qed.

Lemma app1 c X : String c "" +:+ X = String c X.
Proof. reflexivity. Qed.

Lemma parse_value_space f dp s :
  parse_value f dp (String " " s) = parse_value f dp s.
Proof. apply parse_value_ws. reflexivity. Qed.

Lemma parse_members_print ms : forall k x,
  Forall (fun m => reads_back (snd m)) ((k, x) :: ms) ->
  forall fuel dp d d0 rest,
    (sum_members ((k, x) :: ms) <= fuel)%nat -> (hi_members ((k, x) :: ms) <= dp)%nat ->
    wf_members ((k, x) :: ms) ->
    parse_members fuel dp
      (newline d +:+ quoted k +:+ ": " +:+ print d x +:+ members_tail d ms
       +:+ newline d0 +:+ String "}" rest)
    = Some ((k, x) :: ms, rest).
Proof.
  induction ms as [|[k' y] l IH]; intros k x HF fuel dp d d0 rest Hs Hh Hw.
  - apply Forall_cons_1 in HF. destruct HF as [Hx _]. simpl in Hx.
    destruct fuel as [|f]; [simpl in Hs; lia|].
    destruct Hw as (Hk & Hwx & _).
    cbn [parse_members]. rewrite skip_ws_newline, quoted_app.
    rewrite (skip_ws_head _ _ (eq_refl : is_ws Quote.dquote = false)).
    change (Bytes.code Quote.dquote =? 34) with true. cbv iota.
    rewrite Hk. cbn [mbind option_bind]. cbn [String.append].
    rewrite (skip_ws_head _ _ (eq_refl : is_ws ":" = false)).
    change (Bytes.code ":" =? 58) with true. cbv iota.
    rewrite parse_value_space.
    cbn [members_tail]. cbn [String.append].
    rewrite (Hx f dp d _); [|simpl in Hs; lia|simpl in Hh; lia|apply Hwx|apply delim_newline].
    cbn [mbind option_bind]. rewrite skip_ws_newline. reflexivity.
  - apply Forall_cons_1 in HF. destruct HF as [Hx HF]. simpl in Hx.
    destruct fuel as [|f]; [simpl in Hs; lia|].
    destruct Hw as (Hk & Hwx & Hw).
    cbn [parse_members]. rewrite skip_ws_newline, quoted_app.
    rewrite (skip_ws_head _ _ (eq_refl : is_ws Quote.dquote = false)).
    change (Bytes.code Quote.dquote =? 34) with true. cbv iota.
    rewrite Hk. cbn [mbind option_bind]. cbn [String.append].
    rewrite (skip_ws_head _ _ (eq_refl : is_ws ":" = false)).
    change (Bytes.code ":" =? 58) with true. cbv iota.
    rewrite parse_value_space.
    cbn [members_tail]. rewrite !append_assoc.
    rewrite (Hx f dp d _); [|simpl in Hs; lia|simpl in Hh; lia|apply Hwx|apply delim_comma].
    cbn [mbind option_bind]. rewrite (app1 ",").
    rewrite (skip_ws_head _ _ (eq_refl : is_ws "," = false)).
    change (Bytes.code "," =? 44) with true. cbv iota.
    rewrite (IH k' y HF f dp d d0 rest); [reflexivity|simpl in *; lia|simpl in *; lia|apply Hw].
Qed.

Lemma expect_ok lit v rest : expect lit v (lit +:+ rest) = Some (v, rest).
Proof.
  unfold expect.
  assert (H : String.prefix lit (lit +:+ rest) = true
              /\ Bytes.drop (String.length lit) (lit +:+ rest) = rest).
  { induction lit as [|a l IH].
    - split; [destruct rest; reflexivity|reflexivity].
    - destruct IH as [IH1 IH2]. split.
      + simpl. destruct (ascii_dec a a); [exact IH1|contradiction].
      + simpl. exact IH2. }
  destruct H as [-> ->]. reflexivity.
Qed.

Lemma parse_value_print v : reads_back v.
Proof.
  induction v as [| b | lit | raw | xs HF | ms HF] using json_induction;
    intros fuel dp d rest Hs Hh Hw Hd;
    (destruct fuel as [|f]; [simpl in Hs; lia|]).
  - change (expect "null" JNull ("null" +:+ rest) = Some (JNull, rest)).
    apply expect_ok.
  - destruct b.
    + change (expect "true" (JBool true) ("true" +:+ rest) = Some (JBool true, rest)).
      apply expect_ok.
    + change (expect "false" (JBool false) ("false" +:+ rest) = Some (JBool false, rest)).
      apply expect_ok.
  - destruct Hw as [Hc Hscan]. destruct lit as [|c t]; [contradiction|].
    cbn [print]. cbn [String.append].
    rewrite (parse_value_num f dp c _ Hc).
    change (String c (t +:+ rest)) with (String c t +:+ rest).
    rewrite (Hscan rest Hd). reflexivity.
  - cbn [print]. rewrite quoted_app, parse_value_str.
    rewrite (Hw rest). reflexivity.
  - destruct dp as [|dp]; [rewrite height_arr in Hh; lia|].
    destruct xs as [|x xs]; [reflexivity|].
    rewrite print_arr, !append_assoc. rewrite (app1 "[").
    rewrite wf_arr in Hw. rewrite size_arr in Hs. rewrite height_arr in Hh.
    destruct (print_head (S d) x (proj1 Hw)) as (c & t & Hp & Hws & Hc & _).
    rewrite (parse_value_arr f dp _ c
               (t +:+ elems_tail (S d) xs +:+ newline d +:+ "]" +:+ rest)).
    + rewrite (app1 "]").
      rewrite (parse_elems_print xs x HF f dp (S d) d rest); [reflexivity|lia|lia|exact Hw].
    + rewrite skip_ws_newline, Hp. cbn [String.append]. apply skip_ws_head. exact Hws.
    + exact Hc.
  - destruct dp as [|dp]; [rewrite height_obj in Hh; lia|].
    destruct ms as [|[k x] ms]; [reflexivity|].
    rewrite print_obj, !append_assoc. rewrite (app1 "{").
    rewrite wf_obj in Hw. rewrite size_obj in Hs. rewrite height_obj in Hh.
    rewrite (parse_value_obj f dp _ Quote.dquote
               (k +:+ String Quote.dquote (": " +:+ print (S d) x +:+ members_tail (S d) ms
                 +:+ newline d +:+ "}" +:+ rest))).
    + rewrite (app1 "}").
      rewrite (parse_members_print ms k x HF f dp (S d) d rest);
        [reflexivity|lia|lia|exact Hw].
    + rewrite skip_ws_newline, quoted_app. apply skip_ws_head. reflexivity.
    + vm_compute. congruence.
Qed.

Lemma length_pos_print d v : wf v -> (1 <= String.length (print d v))%nat.
Proof.
  intros Hw. destruct (print_head d v Hw) as (c & t & -> & _). simpl. lia.
Qed.

Lemma size_print v : forall d, wf v -> (tree_size v <= 2 * String.length (print d v))%nat.
Proof.
  induction v as [| b | lit | raw | xs HF | ms HF] using json_induction;
    intros d Hw.
  - simpl. lia.
  - destruct b; simpl; lia.
  - pose proof (length_pos_print d (JNum lit) Hw). simpl in *. lia.
  - pose proof (length_pos_print d (JStr raw) Hw). simpl in *. lia.
  - destruct xs as [|x xs]; [simpl; lia|].
    rewrite print_arr, size_arr, !length_append. rewrite wf_arr in Hw.
    assert (Ht : forall l, Forall (fun v => forall d, wf v ->
                               (tree_size v <= 2 * String.length (print d v))%nat) l ->
                 wf_elems l ->
                 (sum_elems l <= 2 * String.length (elems_tail (S d) l))%nat).
    { induction l as [|y l IHl]; intros HFl Hwl; [simpl; lia|].
      apply Forall_cons_1 in HFl. destruct HFl as [Hy HFl]. destruct Hwl as [Hwy Hwl].
      cbn [sum_elems elems_tail]. rewrite !length_append.
      specialize (Hy (S d) Hwy). specialize (IHl HFl Hwl).
      change (String.length ",") with 1%nat. lia. }
    apply Forall_cons_1 in HF. destruct HF as [Hx HF]. destruct Hw as [Hwx Hw].
    specialize (Hx (S d) Hwx). specialize (Ht xs HF Hw).
    cbn [sum_elems]. change (String.length "[") with 1%nat.
    change (String.length "]") with 1%nat. lia.
  - destruct ms as [|[k x] ms]; [simpl; lia|].
    rewrite print_obj, size_obj, !length_append. rewrite wf_obj in Hw.
    assert (Ht : forall l, Forall (fun m : string * json => forall d, wf (snd m) ->
                   (tree_size (snd m) <= 2 * String.length (print d (snd m)))%nat) l ->
                 wf_members l ->
                 (sum_members l <= 2 * String.length (members_tail (S d) l))%nat).
    { induction l as [|[k' y] l IHl]; intros HFl Hwl; [simpl; lia|].
      apply Forall_cons_1 in HFl. destruct HFl as [Hy HFl].
      destruct Hwl as (_ & Hwy & Hwl). simpl in Hy.
      cbn [sum_members members_tail]. rewrite !length_append.
      specialize (Hy (S d) Hwy). specialize (IHl HFl Hwl).
      change (String.length ",") with 1%nat. lia. }
    apply Forall_cons_1 in HF. destruct HF as [Hx HF]. destruct Hw as (_ & Hwx & Hw).
    simpl in Hx. specialize (Hx (S d) Hwx). specialize (Ht ms HF Hw).
    cbn [sum_members]. change (String.length "{") with 1%nat.
    change (String.length "}") with 1%nat. lia.
Qed.

(** A well-formed tree that is not too deep is read back from its
    printed form. *)
Lemma parse_print v :
  wf v -> (tree_height v <= maxNestingDepth)%nat -> parse (print 0 v) = Some v.
Proof.
  intros Hw Hh. unfold parse.
  pose proof (size_print v 0 Hw) as Hs.
  rewrite <- (append_nil_r (print 0 v)) at 2.
  rewrite (parse_value_print v _ maxNestingDepth 0%nat ""); [reflexivity|lia|exact Hh|exact Hw|exact I].
Qed.

(** ** The calendar *)

Import GoTime.

(** The date of the day [doe] of an era of 400 years that starts on a
    first of March; the year is counted in the era. *)
Definition civil_doe (doe : Z) : Z * Z * Z :=
  let yoe := (doe - doe / 1460 + doe / 36524 - doe / 146096) / 365 in
  let doy := doe - (365 * yoe + yoe / 4 - yoe / 100) in
  let mp := (5 * doy + 2) / 153 in
  let d := doy - (153 * mp + 2) / 5 + 1 in
  let m := if mp <? 10 then mp + 3 else mp - 9 in
  (if m <=? 2 then yoe + 1 else yoe, m, d).

Lemma civil_of_days_era z :
  civil_of_days z =
  let '(y, m, d) := civil_doe ((z + 719468) mod 146097) in
  (y + (z + 719468) / 146097 * 400, m, d).
Proof.
  unfold civil_of_days, civil_doe. cbv zeta.
  destruct (_ <=? 2); f_equal; f_equal; lia.
Qed.

Lemma days_of_civil_era y m d e :
  days_of_civil (y + e * 400) m d = days_of_civil y m d + e * 146097.
Proof.
  unfold days_of_civil. cbv zeta.
  replace (if m <=? 2 then y + e * 400 - 1 else y + e * 400)
    with ((if m <=? 2 then y - 1 else y) + e * 400)
    by (destruct (m <=? 2); lia).
  rewrite Z.div_add, Z.mod_add by lia. lia.
Qed.

Lemma isLeap_era y e : isLeap (y + e * 400) = isLeap y.
Proof.
  unfold isLeap.
  replace (y + e * 400) with (y + (e * 100) * 4) at 1 by lia.
  replace (y + e * 400) with (y + (e * 4) * 100) at 1 by lia.
  rewrite !Z.mod_add by lia. reflexivity.
Qed.

Lemma daysIn_era m y e : daysIn m (y + e * 400) = daysIn m y.
Proof. unfold daysIn. rewrite isLeap_era. reflexivity. Qed.

Definition valid_date (y m d : Z) : bool :=
  (1 <=? m) && (m <=? 12) && (1 <=? d) && (d <=? daysIn m y).

Definition check_doe (doe : Z) : bool :=
  let '(y, m, d) := civil_doe doe in
  valid_date y m d && (days_of_civil y m d =? doe - 719468).

(** The year of the era and the day of the year of a day of the era. *)
Lemma year_of_era doe : 0 <= doe < 146097 ->
  let yoe := (doe - doe / 1460 + doe / 36524 - doe / 146096) / 365 in
  let doy := doe - (365 * yoe + yoe / 4 - yoe / 100) in
  0 <= yoe < 400 /\ 0 <= doy <= 365
  /\ (doy = 365 -> (yoe + 1) mod 4 = 0
                   /\ ((yoe + 1) mod 100 <> 0 \/ (yoe + 1) mod 400 = 0)).
Proof.
  intros H yoe doy. subst yoe doy. Z.div_mod_to_equations; lia.
Qed.

Lemma era_of_year yoe doy :
  0 <= yoe < 400 -> 0 <= doy <= 365 ->
  (doy = 365 -> (yoe + 1) mod 4 = 0
                /\ ((yoe + 1) mod 100 <> 0 \/ (yoe + 1) mod 400 = 0)) ->
  let doe := yoe * 365 + yoe / 4 - yoe / 100 + doy in
  0 <= doe < 146097
  /\ (doe - doe / 1460 + doe / 36524 - doe / 146096) / 365 = yoe.
Proof.
  intros Hy Hd Hl doe. subst doe.
  Z.div_mod_to_equations; lia.
Qed.

Lemma month_of_day doy : 0 <= doy <= 365 ->
  let mp := (5 * doy + 2) / 153 in
  let d := doy - (153 * mp + 2) / 5 + 1 in
  0 <= mp <= 11 /\ 1 <= d <= 31
  /\ (mp = 1 \/ mp = 3 \/ mp = 6 \/ mp = 8 -> d <= 30)
  /\ (mp = 11 -> d <= 29 /\ (d = 29 -> doy = 365)).
Proof.
  intros H mp d. subst mp d. Z.div_mod_to_equations. lia.
Qed.

Lemma day_of_month mp d : 0 <= mp <= 11 -> 1 <= d <= 31 ->
  (mp = 1 \/ mp = 3 \/ mp = 6 \/ mp = 8 -> d <= 30) ->
  (mp = 11 -> d <= 29) ->
  let doy := (153 * mp + 2) / 5 + d - 1 in
  0 <= doy <= 365 /\ (5 * doy + 2) / 153 = mp
  /\ doy - (153 * mp + 2) / 5 + 1 = d
  /\ (doy = 365 -> mp = 11 /\ d = 29).
Proof.
  intros Hm Hd H30 H29 doy. subst doy. Z.div_mod_to_equations. lia.
Qed.

Ltac split_tests :=
  repeat match goal with
  | |- context [?x <? ?y] => destruct (Z.ltb_spec x y); try lia
  | |- context [?x <=? ?y] => destruct (Z.leb_spec x y); try lia
  | |- context [?x =? ?y] => destruct (Z.eqb_spec x y); try lia
  end; cbn [andb orb negb].

Lemma isLeap_true y :
  y mod 4 = 0 -> (y mod 100 <> 0 \/ y mod 400 = 0) -> isLeap y = true.
Proof.
  intros H4 H100. unfold isLeap. split_tests; try reflexivity; lia.
Qed.

Lemma isLeap_inv y :
  isLeap y = true -> y mod 4 = 0 /\ (y mod 100 <> 0 \/ y mod 400 = 0).
Proof.
  unfold isLeap. split_tests; try discriminate; intros _; lia.
Qed.

Lemma daysIn_ge m y d :
  d <= 31 ->
  (m = 4 \/ m = 6 \/ m = 9 \/ m = 11 -> d <= 30) ->
  (m = 2 -> d <= 28 \/ (d <= 29 /\ isLeap y = true)) ->
  d <= daysIn m y.
Proof.
  intros H31 H30 H2. unfold daysIn.
  destruct (Z.eqb_spec m 2) as [E|E].
  - destruct (H2 E) as [H|[H Hl]]; [destruct (isLeap y); lia|rewrite Hl; lia].
  - split_tests; lia.
Qed.

Lemma daysIn_inv m y d :
  1 <= m <= 12 -> d <= daysIn m y ->
  d <= 31 /\ (m = 4 \/ m = 6 \/ m = 9 \/ m = 11 -> d <= 30)
  /\ (m = 2 -> d <= 28 \/ (d <= 29 /\ isLeap y = true)).
Proof.
  intros Hm. unfold daysIn.
  destruct (Z.eqb_spec m 2) as [E|E].
  - destruct (isLeap y); intros H; (split; [lia|]); (split; [intros; lia|]); intros _.
    + right. split; [lia|reflexivity].
    + left. lia.
  - split_tests; intros H; (split; [lia|]); (split; [intros; lia|]); intros; lia.
Qed.

Lemma check_doe_ok doe : 0 <= doe < 146097 -> check_doe doe = true.
Proof.
  intros H. unfold check_doe, civil_doe. cbv zeta.
  pose proof (year_of_era doe H) as Hy. cbv zeta in Hy.
  set (yoe := (doe - doe / 1460 + doe / 36524 - doe / 146096) / 365) in *.
  set (doy := doe - (365 * yoe + yoe / 4 - yoe / 100)) in *.
  destruct Hy as (Hyoe & Hdoy & Hleap).
  pose proof (month_of_day doy Hdoy) as Hm. cbv zeta in Hm.
  set (mp := (5 * doy + 2) / 153) in *.
  set (d := doy - (153 * mp + 2) / 5 + 1) in *.
  destruct Hm as (Hmp & Hd & H30 & H29).
  assert (Edoe : doe = 365 * yoe + yoe / 4 - yoe / 100 + doy) by (subst doy; lia).
  assert (Ed : doy = (153 * mp + 2) / 5 + d - 1) by (subst d; lia).
  clearbody yoe doy mp d.
  set (m := if mp <? 10 then mp + 3 else mp - 9).
  assert (Em : (mp < 10 /\ m = mp + 3) \/ (10 <= mp /\ m = mp - 9)).
  { unfold m. destruct (Z.ltb_spec mp 10); lia. }
  clearbody m.
  set (y := if m <=? 2 then yoe + 1 else yoe).
  assert (Ey : (m <= 2 /\ y = yoe + 1) \/ (2 < m /\ y = yoe)).
  { unfold y. destruct (Z.leb_spec m 2); lia. }
  clearbody y.
  apply andb_true_intro. split.
  - unfold valid_date. rewrite !andb_true_iff, !Z.leb_le.
    repeat split; try lia.
    apply daysIn_ge; try lia.
    intros ->. assert (mp = 11) by lia. destruct (H29 ltac:(assumption)) as [Hd29 Hd365].
    destruct (Z.eq_dec d 29) as [E29|]; [|left; lia].
    right. split; [lia|]. destruct (Hleap (Hd365 E29)) as [L4 L100].
    assert (y = yoe + 1) as -> by lia. apply isLeap_true; assumption.
  - apply Z.eqb_eq. unfold days_of_civil. cbv zeta.
    destruct (Z.leb_spec m 2); destruct (Z.ltb_spec 2 m); try lia;
      Z.div_mod_to_equations; lia.
Qed.

(** The date of a day is a date of the calendar and the day of that
    date. *)
Lemma days_of_civil_of_days z :
  let '(y, m, d) := civil_of_days z in
  valid_date y m d = true /\ days_of_civil y m d = z.
Proof.
  rewrite civil_of_days_era.
  pose proof (Z.mod_pos_bound (z + 719468) 146097 ltac:(lia)) as Hb.
  pose proof (check_doe_ok _ Hb) as Hc.
  unfold check_doe in Hc.
  destruct (civil_doe ((z + 719468) mod 146097)) as [[y m] d].
  apply andb_true_iff in Hc. destruct Hc as [Hv Hd]. apply Z.eqb_eq in Hd.
  split.
  - unfold valid_date in *. rewrite daysIn_era. exact Hv.
  - rewrite days_of_civil_era, Hd.
    pose proof (Z.div_mod (z + 719468) 146097 ltac:(lia)). lia.
Qed.

Definition check_date (yoe m d : Z) : bool :=
  let y := if m <=? 2 then yoe + 1 else yoe in
  negb (d <=? daysIn m y)
  || (let doe := days_of_civil y m d + 719468 in
      (0 <=? doe) && (doe <? 146097)
      && match civil_doe doe with
         | (y', m', d') => (y' =? y) && (m' =? m) && (d' =? d)
         end).

Lemma check_date_ok yoe m d :
  0 <= yoe < 400 -> 1 <= m <= 12 -> 1 <= d <= 31 -> check_date yoe m d = true.
Proof.
  intros Hy Hm Hd. unfold check_date. cbv zeta.
  set (y := if m <=? 2 then yoe + 1 else yoe).
  assert (Ey : (m <= 2 /\ y = yoe + 1) \/ (2 < m /\ y = yoe)).
  { unfold y. destruct (Z.leb_spec m 2); lia. }
  clearbody y.
  destruct (Z.leb_spec d (daysIn m y)) as [Hle|]; [|reflexivity].
  cbn [negb orb].
  destruct (daysIn_inv m y d Hm Hle) as (_ & H30 & H2).
  set (mp := if 2 <? m then m - 3 else m + 9).
  assert (Emp : (2 < m /\ mp = m - 3) \/ (m <= 2 /\ mp = m + 9)).
  { unfold mp. destruct (Z.ltb_spec 2 m); lia. }
  assert (Hdays : days_of_civil y m d + 719468
                  = yoe * 365 + yoe / 4 - yoe / 100 + ((153 * mp + 2) / 5 + d - 1)).
  { unfold days_of_civil. cbv zeta. fold mp. clearbody mp.
    destruct (Z.leb_spec m 2); destruct Ey as [[? ->]|[? ->]]; try lia;
      Z.div_mod_to_equations; lia. }
  clearbody mp. rewrite Hdays.
  assert (Hmp : 0 <= mp <= 11) by lia.
  assert (H30' : mp = 1 \/ mp = 3 \/ mp = 6 \/ mp = 8 -> d <= 30) by (intros; apply H30; lia).
  assert (H29' : mp = 11 -> d <= 29).
  { intros E. destruct (H2 ltac:(lia)) as [?|[? _]]; lia. }
  pose proof (day_of_month mp d Hmp Hd H30' H29') as Hdm. cbv zeta in Hdm.
  set (doy := (153 * mp + 2) / 5 + d - 1) in *.
  destruct Hdm as (Hdoy & Emp' & Ed' & H365).
  assert (Hleap : doy = 365 -> (yoe + 1) mod 4 = 0
                  /\ ((yoe + 1) mod 100 <> 0 \/ (yoe + 1) mod 400 = 0)).
  { intros E. destruct (H365 E) as [E11 E29].
    destruct (H2 ltac:(lia)) as [?|[_ Hl]]; [lia|].
    assert (y = yoe + 1) as <- by lia. apply isLeap_inv. exact Hl. }
  pose proof (era_of_year yoe doy Hy Hdoy Hleap) as He. cbv zeta in He.
  clearbody doy.
  set (doe := yoe * 365 + yoe / 4 - yoe / 100 + doy) in *.
  destruct He as (Hdoe & Eyoe).
  destruct (Z.leb_spec 0 doe); [|lia]. destruct (Z.ltb_spec doe 146097); [|lia].
  cbn [andb]. unfold civil_doe. cbv zeta. rewrite Eyoe.
  replace (doe - (365 * yoe + yoe / 4 - yoe / 100)) with doy by (subst doe; lia).
  rewrite Emp', Ed'.
  replace (if mp <? 10 then mp + 3 else mp - 9) with m
    by (destruct (Z.ltb_spec mp 10); lia).
  replace (if m <=? 2 then yoe + 1 else yoe) with y
    by (destruct (Z.leb_spec m 2); lia).
  rewrite !Z.eqb_refl. reflexivity.
Qed.

Lemma daysIn_le m y : daysIn m y <= 31.
Proof.
  unfold daysIn. destruct (m =? 2); [destruct (isLeap y); lia|].
  destruct (_ || _); lia.
Qed.

(** A date of the calendar is the date of its day. *)
Lemma civil_of_days_of_civil y m d :
  valid_date y m d = true -> civil_of_days (days_of_civil y m d) = (y, m, d).
Proof.
  unfold valid_date. intros H.
  apply andb_true_iff in H. destruct H as [H Hd2].
  apply andb_true_iff in H. destruct H as [H Hd1].
  apply andb_true_iff in H. destruct H as [Hm1 Hm2].
  apply Z.leb_le in Hm1, Hm2, Hd1, Hd2.
  pose proof (daysIn_le m y) as H31.
  set (Y := if m <=? 2 then y - 1 else y).
  set (e := Y / 400). set (yoe := Y mod 400).
  pose proof (Z.mod_pos_bound Y 400 ltac:(lia)) as Hyoe. fold yoe in Hyoe.
  pose proof (Z.div_mod Y 400 ltac:(lia)) as HY. fold e yoe in HY.
  set (y0 := if m <=? 2 then yoe + 1 else yoe).
  assert (Hy : y = y0 + e * 400).
  { unfold y0, Y in *. destruct (m <=? 2); lia. }
  pose proof (check_date_ok yoe m d ltac:(lia) ltac:(lia) ltac:(lia)) as Hc3.
  unfold check_date in Hc3. cbv zeta in Hc3. fold y0 in Hc3.
  rewrite Hy, daysIn_era in Hd2.
  destruct (Z.leb_spec d (daysIn m y0)) as [_|]; [|lia].
  cbn [negb orb] in Hc3.
  apply andb_true_iff in Hc3. destruct Hc3 as [Hr Hc3].
  apply andb_true_iff in Hr. destruct Hr as [Hr1 Hr2].
  apply Z.leb_le in Hr1. apply Z.ltb_lt in Hr2.
  rewrite Hy, days_of_civil_era, civil_of_days_era.
  replace (days_of_civil y0 m d + e * 146097 + 719468)
    with ((days_of_civil y0 m d + 719468) + e * 146097) by lia.
  rewrite Z.mod_add, Z.div_add by lia.
  rewrite (Z.mod_small _ _ (conj Hr1 Hr2)), (Z.div_small _ _ (conj Hr1 Hr2)).
  destruct (civil_doe (days_of_civil y0 m d + 719468)) as [[y' m'] d'].
  apply andb_true_iff in Hc3. destruct Hc3 as [Hc3 Hd'].
  apply andb_true_iff in Hc3. destruct Hc3 as [Hy' Hm'].
  apply Z.eqb_eq in Hy', Hm', Hd'. rewrite Hy', Hm', Hd'. reflexivity.
Qed.

(** ** Time stamps *)

Import GoTime.

Lemma nanos_fixed w : forall x j tail,
  0 <= x < 10 ^ Z.of_nat w -> 0 <= j ->
  Rfc3339.nanos (10 ^ (Z.of_nat w + j) / 10) (fixed w x +:+ tail)
  = x * 10 ^ j + Rfc3339.nanos (10 ^ j / 10) tail.
Proof.
  induction w as [|w IH]; intros x j tail Hx Hj.
  - simpl in Hx. assert (x = 0) as -> by lia. simpl. reflexivity.
  - rewrite Nat2Z.inj_succ, Z.pow_succ_r in Hx by lia.
    assert (Hq : 0 <= x / 10 < 10 ^ Z.of_nat w).
    { split; [apply Z.div_pos; lia|apply Z.div_lt_upper_bound; lia]. }
    pose proof (Z.mod_pos_bound x 10 ltac:(lia)) as Hm.
    simpl fixed. rewrite append_assoc.
    replace (Z.of_nat (S w) + j) with (Z.of_nat w + (j + 1)) by lia.
    rewrite (IH (x / 10) (j + 1) _ Hq ltac:(lia)).
    rewrite app1. cbn [Rfc3339.nanos]. rewrite code_digit by lia.
    rewrite Z.pow_add_r, Z.pow_1_r by lia.
    rewrite Z.div_mul by lia.
    pose proof (Z.div_mod x 10 ltac:(lia)). nia.
Qed.

Lemma nanos_trim s : forall W,
  Rfc3339.nanos W (Rfc3339.trim_zeros s) = Rfc3339.nanos W s.
Proof.
  induction s as [|c r IH]; intros W; [reflexivity|].
  cbn [Rfc3339.trim_zeros Rfc3339.nanos]. specialize (IH (W / 10)).
  destruct (Rfc3339.trim_zeros r) as [|c' r'].
  - simpl in IH. rewrite <- IH.
    destruct (Z.eqb_spec (Bytes.code c) 48) as [E|E]; simpl; [rewrite E|]; lia.
  - cbn [Rfc3339.nanos]. cbn [Rfc3339.nanos] in IH. lia.
Qed.

Lemma all_digits_trim s : all_digits s = true -> all_digits (Rfc3339.trim_zeros s) = true.
Proof.
  induction s as [|c r IH]; intros H; [reflexivity|].
  simpl in H. apply andb_true_iff in H. destruct H as [Hc Hr].
  cbn [Rfc3339.trim_zeros]. specialize (IH Hr).
  destruct (Rfc3339.trim_zeros r) as [|c' r'].
  - destruct (Bytes.code c =? 48); simpl; [reflexivity|]. rewrite Hc. reflexivity.
  - cbn [all_digits]. cbn [all_digits] in IH. rewrite Hc. exact IH.
Qed.

(** What a zone starts with. *)
Definition zone_head (z : string) : Prop :=
  match z with
  | String c _ => Bytes.code c = 90 \/ Bytes.code c = 43 \/ Bytes.code c = 45
  | EmptyString => False
  end.

Lemma parse_frac_frac ns z :
  0 <= ns < 10 ^ 9 -> zone_head z ->
  Rfc3339.parse_frac (Rfc3339.frac ns +:+ z) = (ns, z).
Proof.
  intros Hns Hz. unfold Rfc3339.frac.
  destruct (Z.eqb_spec ns 0) as [->|Hne].
  - destruct z as [|c r]; [contradiction|]. simpl in Hz. simpl.
    assert (E : (Bytes.code c =? 46) = false) by (apply Z.eqb_neq; lia).
    destruct r; rewrite ?E; reflexivity.
  - rewrite appendInt_fixed by (simpl; lia).
    pose proof (nanos_fixed 9 ns 0 "" ltac:(simpl; lia) ltac:(lia)) as Hn.
    rewrite append_nil_r in Hn. change (10 ^ (Z.of_nat 9 + 0) / 10) with 100000000 in Hn.
    simpl Rfc3339.nanos in Hn at 2. rewrite <- nanos_trim in Hn.
    pose proof (all_digits_trim _ (all_digits_fixed 9 ns)) as Hd.
    destruct (Rfc3339.trim_zeros (fixed 9 ns)) as [|d T] eqn:ET.
    { simpl in Hn. lia. }
    cbn [all_digits] in Hd. apply andb_true_iff in Hd. destruct Hd as [Hd HT].
    rewrite app1. cbn [String.append]. unfold Rfc3339.parse_frac.
    change (Bytes.code "." =? 46) with true. rewrite Hd. cbn [andb].
    change (String d (T +:+ z)) with (String d T +:+ z).
    rewrite (digits_run (String d T) z).
    + rewrite Hn. f_equal. lia.
    + simpl. rewrite Hd, HT. reflexivity.
    + destruct z as [|c r]; [contradiction|]. simpl in Hz.
      unfold Bytes.is_digit, Bytes.between.
      destruct Hz as [-> | [-> | ->]]; reflexivity.
Qed.

Lemma zone_head_zone off : zone_head (Rfc3339.zone off).
Proof.
  unfold Rfc3339.zone. destruct (off =? 0); [left; reflexivity|].
  cbv zeta. destruct (_ <? 0); right; [right|left]; reflexivity.
Qed.

Lemma fixed_2 x :
  fixed 2 x = String (Fmt.digit ((x / 10) mod 10)) (String (Fmt.digit (x mod 10)) "").
Proof. reflexivity. Qed.

Lemma parse_zone_zone off :
  off mod 60 = 0 -> Z.abs off < 86400 ->
  Rfc3339.parse_zone (Rfc3339.zone off) = Some off.
Proof.
  intros Hm Hr. unfold Rfc3339.zone.
  destruct (Z.eqb_spec off 0) as [->|Hne]; [reflexivity|]. cbv zeta.
  set (z := Z.quot off 60).
  assert (Hz : off = z * 60).
  { unfold z. pose proof (Z.quot_rem' off 60) as H.
    assert (Z.rem off 60 = 0); [|lia].
    apply Z.rem_divide; [lia|]. apply Z.mod_divide; [lia|exact Hm]. }
  assert (Ha : 0 < Z.abs z < 1440) by lia.
  assert (Hh : 0 <= Z.abs z / 60 < 24).
  { split; [apply Z.div_pos; lia|apply Z.div_lt_upper_bound; lia]. }
  pose proof (Z.mod_pos_bound (Z.abs z) 60 ltac:(lia)) as Hmm.
  assert (Hp : forall sign : ascii,
    (Bytes.code sign =? 43) || (Bytes.code sign =? 45) = true ->
    Rfc3339.parse_zone
      (String sign "" +:+ appendInt (Z.abs z / 60) 2 +:+ ":" +:+ appendInt (Z.abs z mod 60) 2)
    = Some (if Bytes.code sign =? 45 then - (Z.abs z * 60) else Z.abs z * 60)).
  { intros sign Hs. rewrite app1.
    destruct (appendInt (Z.abs z / 60) 2 +:+ ":" +:+ appendInt (Z.abs z mod 60) 2)
      as [|c r] eqn:E.
    { apply (f_equal String.length) in E.
      rewrite length_append, appendInt_fixed, length_fixed in E by (simpl; lia).
      simpl in E. lia. }
    cbn [Rfc3339.parse_zone]. rewrite Hs, <- E.
    rewrite (num_appendInt 2 0 23) by (simpl; lia).
    cbn [mbind option_bind]. rewrite app1. cbn [Rfc3339.lit].
    change (Bytes.code ":" =? 58) with true. cbv iota.
    cbn [mbind option_bind].
    rewrite <- (append_nil_r (appendInt (Z.abs z mod 60) 2)).
    rewrite (num_appendInt 2 0 59) by (simpl; lia).
    cbn [mbind option_bind].
    replace (Z.abs z / 60 * 60 + Z.abs z mod 60) with (Z.abs z)
      by (pose proof (Z.div_mod (Z.abs z) 60 ltac:(lia)); lia).
    reflexivity. }
  destruct (Z.ltb_spec z 0) as [Hneg|Hpos].
  - rewrite (Hp "-"%char eq_refl). change (Bytes.code "-" =? 45) with true.
    cbv iota. f_equal. lia.
  - rewrite (Hp "+"%char eq_refl). change (Bytes.code "+" =? 45) with false.
    cbv iota. f_equal. lia.
Qed.

(** A time without its monotonic clock reading, as [t.Round(0)] gives
    it. *)
Definition wall (t : Time) : Time :=
  {| unixSec := unixSec t; nsec := nsec t; offset := offset t; mono := None |}.

Definition good_time (t : Time) : Prop :=
  0 <= nsec t < 10 ^ 9 /\ offset t mod 60 = 0 /\ Z.abs (offset t) < 86400
  /\ 0 <= year (clock t) <= 9999.

Ltac read_field w lo hi :=
  rewrite (num_appendInt w lo hi) by (simpl; lia); cbn [mbind option_bind].

Ltac sep :=
  rewrite app1; cbn [Rfc3339.lit];
  match goal with
  | |- context [Bytes.code ?c =? ?b] => change (Bytes.code c =? b) with true
  end; cbv iota; cbn [mbind option_bind].

(** A time stamp is read back from its RFC 3339 text, by the strict
    reader. *)
Lemma parseRFC3339_format t :
  good_time t -> Rfc3339.parseRFC3339 (Rfc3339.format t) = Some (wall t).
Proof.
  intros (Hns & Hoff & Habs & Hy).
  pose proof (days_of_civil_of_days ((unixSec t + offset t) / 86400)) as Hcal.
  unfold Rfc3339.format. cbv zeta. unfold clock in *. cbv zeta in *.
  destruct (civil_of_days ((unixSec t + offset t) / 86400)) as [[y m] d].
  cbn [year month day hour minute second] in *.
  destruct Hcal as [Hv Hd]. unfold valid_date in Hv.
  apply andb_true_iff in Hv. destruct Hv as [Hv Hd2].
  apply andb_true_iff in Hv. destruct Hv as [Hv Hd1].
  apply andb_true_iff in Hv. destruct Hv as [Hm1 Hm2].
  apply Z.leb_le in Hm1, Hm2, Hd1, Hd2.
  pose proof (daysIn_le m y) as H31.
  set (s := (unixSec t + offset t) mod 86400) in *.
  pose proof (Z.mod_pos_bound (unixSec t + offset t) 86400 ltac:(lia)) as Hs.
  fold s in Hs.
  assert (Hh : 0 <= s / 3600 < 24).
  { split; [apply Z.div_pos; lia|apply Z.div_lt_upper_bound; lia]. }
  pose proof (Z.mod_pos_bound s 3600 ltac:(lia)) as Hr.
  assert (Hmi : 0 <= s mod 3600 / 60 < 60).
  { split; [apply Z.div_pos; lia|apply Z.div_lt_upper_bound; lia]. }
  pose proof (Z.mod_pos_bound s 60 ltac:(lia)) as Hsec.
  unfold Rfc3339.parseRFC3339.
  read_field 4%nat 0 9999. sep.
  read_field 2%nat 1 12. sep.
  read_field 2%nat 1 (daysIn m y). sep.
  read_field 2%nat 0 23. sep.
  read_field 2%nat 0 59. sep.
  read_field 2%nat 0 59.
  rewrite (parse_frac_frac _ _ Hns (zone_head_zone _)).
  rewrite (parse_zone_zone _ Hoff Habs). cbn [mbind option_bind].
  unfold wall. f_equal. f_equal. rewrite Hd.
  pose proof (Z.div_mod (unixSec t + offset t) 86400 ltac:(lia)) as E1.
  fold s in E1.
  pose proof (Z.div_mod s 3600 ltac:(lia)) as E2.
  pose proof (Z.div_mod (s mod 3600) 60 ltac:(lia)) as E3.
  assert (E4 : (s mod 3600) mod 60 = s mod 60).
  { Z.div_mod_to_equations. lia. }
  lia.
Qed.

Lemma parse_format t :
  good_time t -> Rfc3339.parseStrictRFC3339 (Rfc3339.format t) = Some (wall t).
Proof.
  intros H. unfold Rfc3339.parseStrictRFC3339.
  rewrite (parseRFC3339_format t H). reflexivity.
Qed.

Lemma MarshalJSON_Some t txt :
  Rfc3339.MarshalJSON t = Some txt ->
  txt = Rfc3339.format t /\ 0 <= year (clock t) <= 9999
  /\ (offset t = 0 \/ Z.abs (Z.quot (offset t) 60) / 60 < 24).
Proof.
  unfold Rfc3339.MarshalJSON. cbv zeta.
  destruct (Z.ltb_spec (year (clock t)) 0); [discriminate|].
  destruct (Z.ltb_spec 9999 (year (clock t))); [discriminate|]. cbn [orb].
  destruct (Z.eqb_spec (offset t) 0) as [E|E]; cbn [negb andb].
  - intros [= <-]. split; [reflexivity|]. split; [lia|]. left. exact E.
  - destruct (Z.leb_spec 24 (Z.abs (Z.quot (offset t) 60) / 60)); [discriminate|].
    intros [= <-]. split; [reflexivity|]. split; [lia|]. right. assumption.
Qed.

Lemma MarshalJSON_good t :
  good_time t -> Rfc3339.MarshalJSON t = Some (Rfc3339.format t).
Proof.
  intros (Hns & Hoff & Habs & Hy). unfold Rfc3339.MarshalJSON. cbv zeta.
  destruct (Z.ltb_spec (year (clock t)) 0); [lia|].
  destruct (Z.ltb_spec 9999 (year (clock t))); [lia|]. cbn [orb].
  destruct (Z.eqb_spec (offset t) 0) as [E|E]; cbn [negb andb]; [reflexivity|].
  destruct (Z.leb_spec 24 (Z.abs (Z.quot (offset t) 60) / 60)) as [H24|]; [|reflexivity].
  exfalso.
  assert (Z.abs (Z.quot (offset t) 60) < 1440).
  { pose proof (Z.quot_rem' (offset t) 60).
    assert (Z.rem (offset t) 60 = 0); [|lia].
    apply Z.rem_divide; [lia|]. apply Z.mod_divide; [lia|exact Hoff]. }
  assert (Z.abs (Z.quot (offset t) 60) / 60 < 24)
    by (apply Z.div_lt_upper_bound; lia).
  lia.
Qed.

(** ** The codec: decoding what was encoded *)

Import Json Codec.

Definition good_disk (d : DiskInfo) : Prop :=
  utf8_valid 0 (Drive d) = true
  /\ 0 <= TotalSpace d < 2 ^ 64 /\ 0 <= FreeSpace d < 2 ^ 64
  /\ 0 <= UsedSpace d < 2 ^ 64.

Definition good_snapshot (s : Snapshot) : Prop :=
  good_time (Timestamp s) /\ Forall good_disk (items (Disks s)).

Definition good_history (h : HistoryData) : Prop :=
  Forall good_snapshot (items (Snapshots h)).

(** What is read back: the monotonic clock readings are gone. *)
Definition wall_snapshot (s : Snapshot) : Snapshot :=
  {| Timestamp := wall (Timestamp s); Disks := Disks s |}.

Definition wall_history (h : HistoryData) : HistoryData :=
  {| Snapshots := fmap (M := option) (map wall_snapshot) (Snapshots h) |}.

(** The trees of the encoder, for values it does not refuse. *)
Definition json_slice {A} (enc : A -> json) (s : slice A) : json :=
  match s with
  | None => JNull
  | Some l => JArr (map enc l)
  end.

Definition json_disk (d : DiskInfo) : json :=
  JObj [("drive", enc_string (Drive d));
        ("total_space", enc_uint (TotalSpace d));
        ("free_space", enc_uint (FreeSpace d));
        ("used_space", enc_uint (UsedSpace d))].

Definition json_snapshot (s : Snapshot) : json :=
  JObj [("timestamp", JStr (Rfc3339.format (Timestamp s)));
        ("disks", json_slice json_disk (Disks s))].

Definition json_history (h : HistoryData) : json :=
  JObj [("snapshots", json_slice json_snapshot (Snapshots h))].

Lemma mapM_total {A B} (f : A -> option B) (g : A -> B) (l : list A) :
  Forall (fun x => f x = Some (g x)) l -> mapM f l = Some (map g l).
Proof.
  induction 1 as [|x l Hx _ IH]; [reflexivity|].
  cbn [mapM map]. rewrite Hx, IH. reflexivity.
Qed.

Lemma enc_slice_total {A} (f : A -> option json) (g : A -> json) (s : slice A) :
  Forall (fun x => f x = Some (g x)) (items s) ->
  enc_slice f s = Some (json_slice g s).
Proof.
  destruct s as [l|]; [|reflexivity]. intros H. unfold enc_slice, json_slice.
  rewrite (mapM_total f g l H). reflexivity.
Qed.

Lemma enc_snapshot_good s :
  good_snapshot s -> enc_snapshot s = Some (json_snapshot s).
Proof.
  intros [Ht _]. unfold enc_snapshot.
  rewrite (MarshalJSON_good _ Ht). cbn [mbind option_bind].
  rewrite (enc_slice_total enc_disk json_disk).
  - reflexivity.
  - apply Forall_forall. intros d _. reflexivity.
Qed.

Lemma enc_history_good h :
  good_history h -> enc_history h = Some (json_history h).
Proof.
  intros H. unfold enc_history.
  rewrite (enc_slice_total enc_snapshot json_snapshot).
  - reflexivity.
  - eapply Forall_impl; [exact H|]. intros s Hs. apply enc_snapshot_good. exact Hs.
Qed.

(** *** The trees of the encoder are well formed *)

(** Bytes the scanner takes as they are. *)
Fixpoint plain (s : string) : bool :=
  match s with
  | EmptyString => true
  | String c r =>
      (32 <=? Bytes.code c) && negb (Bytes.code c =? 34)
      && negb (Bytes.code c =? 92) && plain r
  end.

Lemma plain_app a b : plain (a +:+ b) = plain a && plain b.
Proof.
  induction a as [|x a IH]; simpl; [reflexivity|].
  rewrite IH, !andb_assoc. reflexivity.
Qed.

Lemma plain_digits s : all_digits s = true -> plain s = true.
Proof.
  induction s as [|c r IH]; [reflexivity|]. simpl. intros H.
  apply andb_true_iff in H. destruct H as [Hc Hr]. rewrite (IH Hr).
  unfold Bytes.is_digit, Bytes.between in Hc.
  apply andb_true_iff in Hc. destruct Hc as [H1 H2].
  apply Z.leb_le in H1. apply Z.leb_le in H2.
  destruct (Z.leb_spec 32 (Bytes.code c)); [|lia].
  destruct (Z.eqb_spec (Bytes.code c) 34); [lia|].
  destruct (Z.eqb_spec (Bytes.code c) 92); [lia|]. reflexivity.
Qed.

Lemma str_ok_plain s : plain s = true -> str_ok s.
Proof.
  intros H rest. induction s as [|c r IH]; [reflexivity|].
  simpl in H. apply andb_true_iff in H. destruct H as [H Hr].
  apply andb_true_iff in H. destruct H as [H H92].
  apply andb_true_iff in H. destruct H as [H32 H34].
  apply Z.leb_le in H32. apply negb_true_iff in H34, H92.
  simpl. rewrite H34, H92.
  destruct (Z.ltb_spec (Bytes.code c) 32); [lia|].
  rewrite (IH Hr). reflexivity.
Qed.

Lemma plain_appendInt x w :
  0 <= x < 10 ^ Z.of_nat w -> (0 < w)%nat -> plain (GoTime.appendInt x w) = true.
Proof.
  intros Hx Hw. rewrite appendInt_fixed by assumption.
  apply plain_digits, all_digits_fixed.
Qed.

Lemma plain_frac ns : 0 <= ns < 10 ^ 9 -> plain (Rfc3339.frac ns) = true.
Proof.
  intros H. unfold Rfc3339.frac. destruct (ns =? 0); [reflexivity|].
  rewrite appendInt_fixed by (simpl; lia). rewrite app1.
  cbn [plain]. rewrite plain_digits; [reflexivity|].
  apply all_digits_trim, all_digits_fixed.
Qed.

Lemma plain_zone off :
  off mod 60 = 0 -> Z.abs off < 86400 -> plain (Rfc3339.zone off) = true.
Proof.
  intros Hm Hr. unfold Rfc3339.zone.
  destruct (Z.eqb_spec off 0); [reflexivity|]. cbv zeta.
  assert (Ha : Z.abs (Z.quot off 60) < 1440).
  { pose proof (Z.quot_rem' off 60).
    assert (Z.rem off 60 = 0); [|lia].
    apply Z.rem_divide; [lia|]. apply Z.mod_divide; [lia|exact Hm]. }
  assert (Hh : 0 <= Z.abs (Z.quot off 60) / 60 < 24).
  { split; [apply Z.div_pos; lia|apply Z.div_lt_upper_bound; lia]. }
  pose proof (Z.mod_pos_bound (Z.abs (Z.quot off 60)) 60 ltac:(lia)).
  rewrite !plain_app, !plain_appendInt by (simpl; lia).
  destruct (_ <? 0); reflexivity.
Qed.

Lemma plain_format t : good_time t -> plain (Rfc3339.format t) = true.
Proof.
  intros (Hns & Hoff & Habs & Hy).
  pose proof (days_of_civil_of_days ((unixSec t + offset t) / 86400)) as Hcal.
  unfold Rfc3339.format. cbv zeta. unfold GoTime.clock in *. cbv zeta in *.
  destruct (GoTime.civil_of_days ((unixSec t + offset t) / 86400)) as [[y m] d].
  cbn [GoTime.year GoTime.month GoTime.day GoTime.hour GoTime.minute GoTime.second] in *.
  destruct Hcal as [Hv Hd]. unfold valid_date in Hv.
  apply andb_true_iff in Hv. destruct Hv as [Hv Hd2].
  apply andb_true_iff in Hv. destruct Hv as [Hv Hd1].
  apply andb_true_iff in Hv. destruct Hv as [Hm1 Hm2].
  apply Z.leb_le in Hm1, Hm2, Hd1, Hd2.
  pose proof (daysIn_le m y) as H31.
  set (s := (unixSec t + offset t) mod 86400) in *.
  pose proof (Z.mod_pos_bound (unixSec t + offset t) 86400 ltac:(lia)) as Hs.
  fold s in Hs.
  assert (Hh : 0 <= s / 3600 < 24).
  { split; [apply Z.div_pos; lia|apply Z.div_lt_upper_bound; lia]. }
  pose proof (Z.mod_pos_bound s 3600 ltac:(lia)) as Hr.
  assert (Hmi : 0 <= s mod 3600 / 60 < 60).
  { split; [apply Z.div_pos; lia|apply Z.div_lt_upper_bound; lia]. }
  pose proof (Z.mod_pos_bound s 60 ltac:(lia)) as Hsec.
  rewrite !plain_app, !plain_appendInt, plain_frac, plain_zone
    by (try assumption; simpl; lia).
  reflexivity.
Qed.

Lemma num_ok_itoa n : 0 <= n -> num_ok (Fmt.itoa n).
Proof.
  intros Hn. split.
  - destruct (Z.eq_dec n 0) as [->|Hne]; [reflexivity|].
    destruct (itoa_head n ltac:(lia)) as (d & r & Hd & ->).
    rewrite is_digit_digit by lia. apply orb_true_r.
  - intros rest Hrest. apply scan_number_itoa; assumption.
Qed.

Lemma wf_disk d : good_disk d -> wf (json_disk d).
Proof.
  intros (Hn & Ht & Hf & Hu). unfold json_disk. cbn [wf].
  repeat split;
    try (intros rest; reflexivity);
    try (apply num_ok_itoa; lia);
    try (apply scan_number_itoa; [lia|assumption]).
  intros rest. apply scan_quote. exact Hn.
Qed.

Lemma wf_elems_map {A} (g : A -> json) (l : list A) :
  Forall (fun x => wf (g x)) l -> wf_elems (map g l).
Proof. induction 1; simpl; auto. Qed.

Lemma hi_elems_map {A} (g : A -> json) (l : list A) n :
  Forall (fun x => (tree_height (g x) <= n)%nat) l -> (hi_elems (map g l) <= n)%nat.
Proof. induction 1; simpl; lia. Qed.

Lemma wf_slice {A} (g : A -> json) (s : slice A) :
  Forall (fun x => wf (g x)) (items s) -> wf (json_slice g s).
Proof.
  destruct s as [l|]; [|intros; exact I]. intros H.
  unfold json_slice. rewrite wf_arr. apply wf_elems_map. exact H.
Qed.

Lemma height_slice {A} (g : A -> json) (s : slice A) n :
  Forall (fun x => (tree_height (g x) <= n)%nat) (items s) ->
  (tree_height (json_slice g s) <= S n)%nat.
Proof.
  destruct s as [l|]; [|intros; simpl; lia]. intros H.
  unfold json_slice. rewrite height_arr.
  pose proof (hi_elems_map g l n H). lia.
Qed.

Lemma wf_snapshot s : good_snapshot s -> wf (json_snapshot s).
Proof.
  intros [Ht Hd]. unfold json_snapshot.
  change (str_ok "timestamp" /\ str_ok (Rfc3339.format (Timestamp s)) /\
          str_ok "disks" /\ wf (json_slice json_disk (Disks s)) /\ True).
  split; [intros rest; reflexivity|].
  split; [apply str_ok_plain, plain_format; exact Ht|].
  split; [intros rest; reflexivity|]. split; [|exact I].
  apply wf_slice. eapply Forall_impl; [exact Hd|]. apply wf_disk.
Qed.

Lemma height_snapshot s : (tree_height (json_snapshot s) <= 3)%nat.
Proof.
  unfold json_snapshot.
  change (S (Nat.max 0 (Nat.max (tree_height (json_slice json_disk (Disks s))) 0)) <= 3)%nat.
  pose proof (height_slice json_disk (Disks s) 1) as H.
  assert (tree_height (json_slice json_disk (Disks s)) <= 2)%nat; [|lia].
  apply H. apply Forall_forall. intros d _. simpl. lia.
Qed.

Lemma wf_history h : good_history h -> wf (json_history h).
Proof.
  intros H. unfold json_history.
  change (str_ok "snapshots" /\ wf (json_slice json_snapshot (Snapshots h)) /\ True).
  split; [intros rest; reflexivity|]. split; [|exact I].
  apply wf_slice. eapply Forall_impl; [exact H|]. apply wf_snapshot.
Qed.

Lemma height_history h : (tree_height (json_history h) <= maxNestingDepth)%nat.
Proof.
  unfold json_history.
  change (S (Nat.max (tree_height (json_slice json_snapshot (Snapshots h))) 0)
          <= maxNestingDepth)%nat.
  pose proof (height_slice json_snapshot (Snapshots h) 3) as H.
  assert (tree_height (json_slice json_snapshot (Snapshots h)) <= 4)%nat.
  { apply H. apply Forall_forall. intros s _. apply height_snapshot. }
  assert (5 <= maxNestingDepth)%nat by (apply Nat.leb_le; vm_compute; reflexivity).
  lia.
Qed.

(** *** Decoding *)

(** Whatever it is decoded into, the tree [j] gives a value that shows
    as [y]. *)
Definition reads {A B} (dec : json -> A -> saved -> outcome A) (p : A -> B)
    (j : json) (y : B) : Prop :=
  forall cur sv, exists a, dec j cur sv = Ok a sv /\ p a = y.

Lemma dec_list_map {A B} (dec : json -> A -> saved -> outcome A) (zero : A)
    (p : A -> B) (g : B -> json) (r : B -> B) (l : list B) :
  Forall (fun x => reads dec p (g x) (r x)) l ->
  forall backing sv, exists ys rest,
    dec_list dec zero (map g l) backing sv = Ok (ys, rest) sv
    /\ map p ys = map r l.
Proof.
  induction 1 as [|x l Hx _ IH]; intros backing sv.
  { exists [], backing. split; reflexivity. }
  destruct (Hx (hd zero backing) sv) as (a & Ea & Ha).
  destruct (IH (tl backing) sv) as (ys & rest & Eys & Hys).
  exists (a :: ys), rest. cbn [map dec_list]. rewrite Ea, Eys.
  split; [reflexivity|]. rewrite Ha, Hys. reflexivity.
Qed.

Lemma dec_slice_json {A B} (dec : json -> A -> saved -> outcome A) (zero : A)
    (p : A -> B) (g : B -> json) (r : B -> B) (s : slice B) :
  Forall (fun x => reads dec p (g x) (r x)) (items s) ->
  reads (dec_slice dec zero) (fun b => fmap (M := option) (map p) (upto b))
        (json_slice g s) (fmap (M := option) (map r) s).
Proof.
  intros H cur sv. destruct s as [l|].
  2:{ exists fresh. split; reflexivity. }
  unfold json_slice, dec_slice. destruct l as [|x l].
  { eexists. split; reflexivity. }
  destruct (dec_list_map dec zero p g r (x :: l) H
              (items (upto cur) ++ beyond cur) sv) as (ys & rest & E & Hys).
  cbn [map] in *. rewrite E. eexists. split; [reflexivity|].
  cbn [upto fmap option_fmap option_map]. rewrite Hys. reflexivity.
Qed.

Lemma field_disk_0 : field disk_tags (Quote.unquote "drive") = Some 0%nat.
Proof. vm_compute. reflexivity. Qed.
Lemma field_disk_1 : field disk_tags (Quote.unquote "total_space") = Some 1%nat.
Proof. vm_compute. reflexivity. Qed.
Lemma field_disk_2 : field disk_tags (Quote.unquote "free_space") = Some 2%nat.
Proof. vm_compute. reflexivity. Qed.
Lemma field_disk_3 : field disk_tags (Quote.unquote "used_space") = Some 3%nat.
Proof. vm_compute. reflexivity. Qed.
Lemma field_snapshot_0 : field snapshot_tags (Quote.unquote "timestamp") = Some 0%nat.
Proof. vm_compute. reflexivity. Qed.
Lemma field_snapshot_1 : field snapshot_tags (Quote.unquote "disks") = Some 1%nat.
Proof. vm_compute. reflexivity. Qed.
Lemma field_history_0 : field history_tags (Quote.unquote "snapshots") = Some 0%nat.
Proof. vm_compute. reflexivity. Qed.

Lemma dec_disk_json d : good_disk d -> reads dec_disk (fun x => x) (json_disk d) d.
Proof.
  intros (Hn & Ht & Hf & Hu) cur sv. exists d. split; [|reflexivity].
  unfold dec_disk, dec_struct, json_disk. cbn [dec_members].
  rewrite field_disk_0, field_disk_1, field_disk_2, field_disk_3.
  unfold set_disk, enc_string, enc_uint, dec_string, dec_uint, Codec.bind.
  rewrite (unquote_quote _ Hn), !ParseUint_itoa by assumption.
  destruct d; reflexivity.
Qed.

Lemma dec_snapshot_json s : good_snapshot s ->
  reads dec_snapshot snapshot_of (json_snapshot s) (wall_snapshot s).
Proof.
  intros [Ht Hd] cur sv.
  unfold dec_snapshot, dec_struct, json_snapshot. cbn [dec_members].
  rewrite field_snapshot_0, field_snapshot_1.
  unfold set_snapshot, dec_time, Codec.bind.
  rewrite (parse_format _ Ht). cbn [var_Disks var_Timestamp].
  destruct (dec_slice_json dec_disk zero_disk (fun x => x) json_disk (fun d => d)
              (Disks s)
              ltac:(eapply Forall_impl; [exact Hd|]; intros d Hgd;
                    apply dec_disk_json; exact Hgd)
              (var_Disks cur) sv) as (b & Eb & Hb).
  rewrite Eb. eexists. split; [reflexivity|].
  unfold snapshot_of, wall_snapshot. cbn [var_Disks var_Timestamp]. f_equal.
  cbv beta in Hb.
  destruct (upto b) as [l|], (Disks s) as [l'|];
    cbn [fmap option_fmap option_map] in Hb; try discriminate; [|reflexivity].
  injection Hb as Hb. rewrite !List.map_id in Hb. rewrite Hb. reflexivity.
Qed.

Lemma dec_history_json h : good_history h ->
  reads dec_history history_of (json_history h) (wall_history h).
Proof.
  intros H cur sv.
  unfold dec_history, dec_struct, json_history. cbn [dec_members].
  rewrite field_history_0. unfold set_history.
  destruct (dec_slice_json dec_snapshot zero_snapshot snapshot_of json_snapshot
              wall_snapshot (Snapshots h)
              ltac:(eapply Forall_impl; [exact H|]; intros s Hs;
                    apply dec_snapshot_json; exact Hs)
              cur sv) as (b & Eb & Hb).
  rewrite Eb. exists b. split; [reflexivity|].
  unfold history_of, wall_history. cbv beta in Hb. rewrite Hb. reflexivity.
Qed.

(** A history with well-formed fields is written, and read back
    without the monotonic clock readings. *)
Lemma Unmarshal_MarshalIndent h :
  good_history h ->
  exists data, MarshalIndent h = Some data /\ Unmarshal data = inl (wall_history h).
Proof.
  intros H. exists (print 0 (json_history h)). split.
  - unfold MarshalIndent. rewrite (enc_history_good h H). reflexivity.
  - unfold Unmarshal.
    rewrite (parse_print _ (wf_history h H) (height_history h)).
    destruct (dec_history_json h H fresh None) as (a & Ea & Ha).
    rewrite Ea, Ha. reflexivity.
Qed.

(** ** The snapshot store *)

Import Store.

(** A snapshot as [collectAndSave] makes one: drive [C:\] on
    2023-11-14 at 23:13:20.123456789, one hour east of Greenwich, with a
    monotonic clock reading. *)
Definition sample_time : Time :=
  {| unixSec := 1700000000; nsec := 123456789; offset := 3600; mono := Some 5000 |}.

Definition sample_disk : DiskInfo :=
  {| Drive := "C:\"; TotalSpace := 512110190592; FreeSpace := 18446744073709551615;
     UsedSpace := 1 |}.

Definition sample_snapshot : Snapshot :=
  {| Timestamp := sample_time; Disks := Some [sample_disk] |}.

Definition with_snapshot (h : HistoryData) (s : Snapshot) : HistoryData :=
  {| Snapshots := append (Snapshots h) s |}.

Lemma good_sample : good_snapshot sample_snapshot.
Proof.
  split.
  - repeat split; try (vm_compute; congruence).
  - repeat constructor; vm_compute; congruence.
Qed.

Lemma loadHistory_Some f h :
  loadHistory f = (Some h, None) ->
  (f = Absent /\ h = {| Snapshots := Some [] |})
  \/ exists data, f = Present data /\ Codec.Unmarshal data = inl h.
Proof.
  destruct f as [|c|data]; simpl.
  - intros [= <-]. left. split; reflexivity.
  - discriminate.
  - destruct (Codec.Unmarshal data) as [h'|e] eqn:E; [|discriminate].
    intros [= <-]. right. exists data. split; [reflexivity|exact E].
Qed.

Lemma good_with_snapshot h s :
  good_history h -> good_snapshot s -> good_history (with_snapshot h s).
Proof.
  intros Hh Hs. unfold good_history, with_snapshot, append. cbn [Snapshots items].
  apply Forall_app. split; [exact Hh|]. constructor; [exact Hs|constructor].
Qed.

Lemma save_then_load h f :
  good_history h ->
  exists data, saveHistory Completes h f = (Present data, None)
    /\ loadHistory (Present data) = (Some (wall_history h), None).
Proof.
  intros Hh. destruct (Unmarshal_MarshalIndent h Hh) as (data & Hm & Hu).
  exists data. unfold saveHistory, loadHistory. rewrite Hm, Hu. split; reflexivity.
Qed.

(** ** What a stored file holds *)

(** *** Strings read from a document are valid UTF-8 *)

Lemma between_chr lo hi z :
  0 <= z < 256 -> Bytes.between lo hi (Bytes.chr z) = (lo <=? z) && (z <=? hi).
Proof. intros H. unfold Bytes.between. rewrite code_chr by assumption. reflexivity. Qed.

Lemma utf8_valid_multi c r n :
  128 <= Bytes.code c -> Bytes.seq_len (String c r) = S n ->
  utf8_valid 0 (String c r) = utf8_valid n r.
Proof.
  intros Hc Hn. rewrite utf8_valid_0, Hn.
  destruct (Z.ltb_spec (Bytes.code c) 128); [lia|reflexivity].
Qed.

Ltac decide_tests :=
  repeat match goal with
  | |- context [?x <? ?y] => destruct (Z.ltb_spec x y); try lia
  | |- context [?x <=? ?y] => destruct (Z.leb_spec x y); try lia
  | |- context [?x =? ?y] => destruct (Z.eqb_spec x y); try lia
  end.

Lemma utf8_encode_valid r t :
  0 <= r -> utf8_valid 0 (Bytes.utf8_encode r +:+ t) = utf8_valid 0 t.
Proof.
  intros Hr. unfold Bytes.utf8_encode.
  destruct (Z.ltb_spec r 128) as [Hr1|Hr1].
  { rewrite app1, utf8_valid_0, code_chr by lia.
    destruct (Z.ltb_spec r 128); [reflexivity|lia]. }
  destruct (Z.ltb_spec r 2048) as [Hr2|Hr2].
  { assert (2 <= r / 64 < 32).
    { split; [apply Z.div_le_lower_bound; lia|apply Z.div_lt_upper_bound; lia]. }
    pose proof (Z.mod_pos_bound r 64 ltac:(lia)).
    cbn [String.append].
    rewrite (utf8_valid_multi _ _ 1).
    - cbn [utf8_valid]. rewrite between_chr by lia.
      decide_tests. reflexivity.
    - rewrite code_chr; lia.
    - unfold Bytes.seq_len. cbv zeta. rewrite !between_chr, !code_chr by lia.
      decide_tests. reflexivity. }
  destruct ((55296 <=? r) && (r <=? 57343) || (1114111 <? r)) eqn:E.
  { reflexivity. }
  apply orb_false_iff in E. destruct E as [E1 E2].
  apply Z.ltb_ge in E2.
  assert (Hs : r < 55296 \/ 57343 < r).
  { apply andb_false_iff in E1. destruct E1 as [E1|E1];
      [apply Z.leb_gt in E1|apply Z.leb_gt in E1]; lia. }
  pose proof (Z.mod_pos_bound r 64 ltac:(lia)).
  pose proof (Z.mod_pos_bound (r / 64) 64 ltac:(lia)).
  pose proof (Z.mod_pos_bound (r / 4096) 64 ltac:(lia)).
  destruct (Z.ltb_spec r 65536) as [Hr3|Hr3].
  { assert (0 <= r / 4096 < 16).
    { split; [apply Z.div_pos; lia|apply Z.div_lt_upper_bound; lia]. }
    cbn [String.append].
    rewrite (utf8_valid_multi _ _ 2).
    - cbn [utf8_valid]. rewrite !between_chr by lia.
      decide_tests. reflexivity.
    - rewrite code_chr; lia.
    - unfold Bytes.seq_len. cbv zeta. rewrite !between_chr, !code_chr by lia.
      destruct (Z.ltb_spec (224 + r / 4096) 194); [lia|].
      destruct (Z.leb_spec (224 + r / 4096) 223); [lia|].
      destruct (Z.leb_spec (224 + r / 4096) 239); [|lia].
      assert (Hlo : (if 224 + r / 4096 =? 224 then 160 else 128)
                    <= 128 + (r / 64) mod 64).
      { destruct (Z.eqb_spec (224 + r / 4096) 224); [|lia].
        Z.div_mod_to_equations. lia. }
      assert (Hhi : 128 + (r / 64) mod 64
                    <= (if 224 + r / 4096 =? 237 then 159 else 191)).
      { destruct (Z.eqb_spec (224 + r / 4096) 237); [|lia].
        Z.div_mod_to_equations. lia. }
      apply Z.leb_le in Hlo, Hhi. rewrite Hlo, Hhi.
      decide_tests. reflexivity. }
  assert (0 <= r / 262144 <= 4).
  { split; [apply Z.div_pos; lia|].
    assert (r / 262144 < 5) by (apply Z.div_lt_upper_bound; lia). lia. }
  cbn [String.append].
  rewrite (utf8_valid_multi _ _ 3).
  - cbn [utf8_valid]. rewrite !between_chr by lia.
    decide_tests. reflexivity.
  - rewrite code_chr; lia.
  - unfold Bytes.seq_len. cbv zeta. rewrite !between_chr, !code_chr by lia.
    destruct (Z.ltb_spec (240 + r / 262144) 194); [lia|].
    destruct (Z.leb_spec (240 + r / 262144) 223); [lia|].
    destruct (Z.leb_spec (240 + r / 262144) 239); [lia|].
    destruct (Z.leb_spec (240 + r / 262144) 244); [|lia].
    assert (Hlo : (if 240 + r / 262144 =? 240 then 144 else 128)
                  <= 128 + (r / 4096) mod 64).
    { destruct (Z.eqb_spec (240 + r / 262144) 240); [|lia].
      Z.div_mod_to_equations. lia. }
    assert (Hhi : 128 + (r / 4096) mod 64
                  <= (if 240 + r / 262144 =? 244 then 143 else 191)).
    { destruct (Z.eqb_spec (240 + r / 262144) 244); [|lia].
      Z.div_mod_to_equations. lia. }
    apply Z.leb_le in Hlo, Hhi. rewrite Hlo, Hhi.
    decide_tests. reflexivity.
Qed.

(** The inside of a string literal, as the scanner accepts it. *)
Inductive lit_body : string -> Prop :=
| lb_nil : lit_body ""
| lb_plain c r :
    Bytes.code c <> 34 -> Bytes.code c <> 92 -> 32 <= Bytes.code c ->
    lit_body r -> lit_body (String c r)
| lb_simple e r :
    Json.simple_escape e = true -> lit_body r ->
    lit_body (String Quote.backslash (String e r))
| lb_u h1 h2 h3 h4 r :
    Json.is_hex h1 && Json.is_hex h2 && Json.is_hex h3 && Json.is_hex h4 = true ->
    lit_body r ->
    lit_body (String Quote.backslash
                (String "u" (String h1 (String h2 (String h3 (String h4 r)))))).

Lemma scan_string_body n : forall X raw rest,
  (String.length X <= n)%nat ->
  Json.scan_string X = Some (raw, rest) -> lit_body raw.
Proof.
  induction n as [|n IH]; intros X raw rest Hlen H.
  { destruct X; [discriminate|simpl in Hlen; lia]. }
  destruct X as [|c r]; [discriminate|]. simpl in Hlen.
  cbn [Json.scan_string] in H.
  destruct (Z.eqb_spec (Bytes.code c) 34) as [E34|E34].
  { injection H as <- _. constructor. }
  destruct (Z.eqb_spec (Bytes.code c) 92) as [E92|E92].
  { apply code_eq in E92. subst c.
    destruct r as [|e r']; [discriminate|]. simpl in Hlen.
    destruct (Json.simple_escape e) eqn:Es.
    { destruct (Json.scan_string r') as [[raw' rest']|] eqn:E; [|discriminate].
      injection H as <- _. apply lb_simple; [exact Es|].
      apply (IH r' raw' rest'); [lia|exact E]. }
    destruct (Z.eqb_spec (Bytes.code e) 117) as [Eu|]; [|discriminate].
    apply code_eq in Eu. subst e.
    destruct r' as [|h1 [|h2 [|h3 [|h4 r'']]]]; try discriminate.
    simpl in Hlen.
    destruct (Json.is_hex h1 && Json.is_hex h2 && Json.is_hex h3 && Json.is_hex h4)
      eqn:Eh; [|discriminate].
    destruct (Json.scan_string r'') as [[raw' rest']|] eqn:E; [|discriminate].
    injection H as <- _. apply lb_u; [exact Eh|].
    apply (IH r'' raw' rest'); [lia|exact E]. }
  destruct (Z.ltb_spec (Bytes.code c) 32) as [|E32]; [discriminate|].
  destruct (Json.scan_string r) as [[raw' rest']|] eqn:E; [|discriminate].
  injection H as <- _. apply lb_plain; try assumption.
  apply (IH r raw' rest'); [lia|exact E].
Qed.

Lemma lit_body_high c r : 128 <= Bytes.code c -> lit_body (String c r) -> lit_body r.
Proof.
  intros Hc H. inversion H; subst; try assumption;
    exfalso; change (Bytes.code Quote.backslash) with 92 in Hc; lia.
Qed.

Lemma simple_escaped e :
  Json.simple_escape e = true ->
  Bytes.code e <> 117 /\ Bytes.code (Quote.escaped_char e) < 128.
Proof.
  unfold Json.simple_escape. cbv zeta. intros H.
  repeat (apply orb_true_iff in H; destruct H as [H|H]);
    apply Z.eqb_eq in H; apply code_eq in H; subst e; vm_compute; split; congruence.
Qed.

Lemma hex_val_range c v : Bytes.hex_val c = Some v -> 0 <= v < 16.
Proof.
  unfold Bytes.hex_val, Bytes.between.
  destruct (Z.leb_spec 48 (Bytes.code c)); destruct (Z.leb_spec (Bytes.code c) 57);
  destruct (Z.leb_spec 97 (Bytes.code c)); destruct (Z.leb_spec (Bytes.code c) 102);
  destruct (Z.leb_spec 65 (Bytes.code c)); destruct (Z.leb_spec (Bytes.code c) 70);
  cbn [andb]; intros [= <-]; lia.
Qed.

Lemma hex4_range s rr : Bytes.hex4 s = Some rr -> 0 <= rr < 65536.
Proof.
  unfold Bytes.hex4. destruct s as [|a [|b [|c [|d r]]]]; try discriminate.
  destruct (Bytes.hex_val a) as [va|] eqn:Ea; [|discriminate].
  destruct (Bytes.hex_val b) as [vb|] eqn:Eb; [|discriminate].
  destruct (Bytes.hex_val c) as [vc|] eqn:Ec; [|discriminate].
  destruct (Bytes.hex_val d) as [vd|] eqn:Ed; [|discriminate].
  apply hex_val_range in Ea, Eb, Ec, Ed. intros [= <-]. lia.
Qed.

Lemma unquote_escape_eq X keep :
  Quote.unquote_body 0 keep (String Quote.backslash (String "u" X))
  = let '(out, n) := Quote.unicode_escape X in
    out +:+ Quote.unquote_body n false (String "u" X).
Proof. reflexivity. Qed.

Lemma unquote_bad c r :
  128 <= Bytes.code c -> Bytes.seq_len (String c r) = 0%nat ->
  Quote.unquote_body 0 true (String c r)
  = Bytes.replacement +:+ Quote.unquote_body 0 true r.
Proof.
  intros Hc Hn.
  change (Quote.unquote_body 0 true (String c r)) with
    (if Bytes.code c =? 92 then
       match r with
       | String e r' =>
           if Bytes.code e =? 117 then
             let '(out, n) := Quote.unicode_escape r' in
             out +:+ Quote.unquote_body n false r
           else String (Quote.escaped_char e) (Quote.unquote_body 1 false r)
       | EmptyString => ""
       end
     else if Bytes.code c <? 128 then String c (Quote.unquote_body 0 true r)
     else match Bytes.seq_len (String c r) with
          | O => Bytes.replacement +:+ Quote.unquote_body 0 true r
          | S n => String c (Quote.unquote_body n true r)
          end).
  destruct (Z.eqb_spec (Bytes.code c) 92); [lia|].
  destruct (Z.ltb_spec (Bytes.code c) 128); [lia|].
  rewrite Hn. reflexivity.
Qed.

Lemma getu4_inv r rr :
  Bytes.getu4 r = Some rr ->
  exists g1 g2 g3 g4 r2,
    r = String Quote.backslash (String "u" (String g1 (String g2 (String g3 (String g4 r2)))))
    /\ 0 <= rr < 65536.
Proof.
  unfold Bytes.getu4. destruct r as [|a [|b r']]; try discriminate.
  destruct (Z.eqb_spec (Bytes.code a) 92) as [Ea|]; [|discriminate].
  destruct (Z.eqb_spec (Bytes.code b) 117) as [Eb|]; [|discriminate].
  cbn [andb]. apply code_eq in Ea, Eb. subst a b. intros H.
  pose proof (hex4_range _ _ H) as Hr.
  unfold Bytes.hex4 in H. destruct r' as [|g1 [|g2 [|g3 [|g4 r2]]]]; try discriminate.
  exists g1, g2, g3, g4, r2. split; [reflexivity|exact Hr].
Qed.

Lemma lit_body_u g1 g2 g3 g4 r :
  lit_body (String Quote.backslash (String "u" (String g1 (String g2 (String g3 (String g4 r))))))
  -> lit_body r.
Proof.
  intros H. inversion H; subst.
  - exfalso. change (Bytes.code Quote.backslash) with 92 in *. congruence.
  - discriminate.
  - assumption.
Qed.

(** What [unquote] returns for a scanned literal is valid UTF-8. *)
Lemma unquote_valid n : forall s,
  (String.length s <= n)%nat -> lit_body s ->
  utf8_valid 0 (Quote.unquote_body 0 true s) = true.
Proof.
  induction n as [|n IH]; intros s Hlen Hs.
  { destruct s; [reflexivity|simpl in Hlen; lia]. }
  destruct Hs as [|c r H34 H92 H32 Hr|e r He Hr|h1 h2 h3 h4 r Hh Hr].
  - reflexivity.
  - simpl in Hlen.
    destruct (Z.ltb_spec (Bytes.code c) 128) as [Hc|Hc].
    { rewrite unquote_plain by assumption. rewrite utf8_valid_0.
      destruct (Z.ltb_spec (Bytes.code c) 128); [|lia]. apply IH; [lia|exact Hr]. }
    destruct (Bytes.seq_len (String c r)) as [|k] eqn:En.
    { rewrite unquote_bad by assumption. unfold Bytes.replacement.
      rewrite utf8_encode_valid by lia. apply IH; [lia|exact Hr]. }
    rewrite (unquote_multi c r k Hc En).
    destruct (seq_len_inv _ _ _ En) as [_ Hk].
    destruct k as [|[|[|[|k]]]]; try contradiction.
    + destruct Hk as (c1 & r' & -> & E1 & Ht). simpl in Hlen.
      pose proof E1 as B1. unfold cont, Bytes.between in B1.
      apply andb_true_iff in B1. destruct B1 as [B1 _]. apply Z.leb_le in B1.
      cbn [Quote.unquote_body].
      rewrite (utf8_valid_multi _ _ 1 Hc (Ht _)). cbn [utf8_valid].
      rewrite E1. cbn [andb]. apply IH; [lia|].
      apply (lit_body_high c1); [lia|exact Hr].
    + destruct Hk as (c1 & c2 & r' & -> & E1 & E2 & Ht). simpl in Hlen.
      pose proof E1 as B1. unfold cont, Bytes.between in B1.
      apply andb_true_iff in B1. destruct B1 as [B1 _]. apply Z.leb_le in B1.
      pose proof E2 as B2. unfold cont, Bytes.between in B2.
      apply andb_true_iff in B2. destruct B2 as [B2 _]. apply Z.leb_le in B2.
      cbn [Quote.unquote_body].
      rewrite (utf8_valid_multi _ _ 2 Hc (Ht _)). cbn [utf8_valid].
      rewrite E1, E2. cbn [andb]. apply IH; [lia|].
      apply (lit_body_high c2); [lia|]. apply (lit_body_high c1); [lia|exact Hr].
    + destruct Hk as (c1 & c2 & c3 & r' & -> & E1 & E2 & E3 & Ht). simpl in Hlen.
      pose proof E1 as B1. unfold cont, Bytes.between in B1.
      apply andb_true_iff in B1. destruct B1 as [B1 _]. apply Z.leb_le in B1.
      pose proof E2 as B2. unfold cont, Bytes.between in B2.
      apply andb_true_iff in B2. destruct B2 as [B2 _]. apply Z.leb_le in B2.
      pose proof E3 as B3. unfold cont, Bytes.between in B3.
      apply andb_true_iff in B3. destruct B3 as [B3 _]. apply Z.leb_le in B3.
      cbn [Quote.unquote_body].
      rewrite (utf8_valid_multi _ _ 3 Hc (Ht _)). cbn [utf8_valid].
      rewrite E1, E2, E3. cbn [andb]. apply IH; [lia|].
      apply (lit_body_high c3); [lia|]. apply (lit_body_high c2); [lia|].
      apply (lit_body_high c1); [lia|exact Hr].
  - simpl in Hlen. destruct (simple_escaped e He) as [Hu Hlt].
    rewrite unquote_simple by exact Hu. rewrite utf8_valid_0.
    destruct (Z.ltb_spec (Bytes.code (Quote.escaped_char e)) 128); [|lia].
    apply IH; [lia|exact Hr].
  - simpl in Hlen. rewrite unquote_escape_eq. unfold Quote.unicode_escape.
    destruct (Bytes.hex4 (String h1 (String h2 (String h3 (String h4 r)))))
      as [rr|] eqn:E4.
    2:{ exfalso. unfold Bytes.hex4, Json.is_hex in *.
        destruct (Bytes.hex_val h1); [|discriminate].
        destruct (Bytes.hex_val h2); [|discriminate].
        destruct (Bytes.hex_val h3); [|discriminate].
        destruct (Bytes.hex_val h4); discriminate. }
    pose proof (hex4_range _ _ E4) as Hrr.
    assert (H5 : forall out, 0 <= out ->
              utf8_valid 0 (Bytes.utf8_encode out +:+
                Quote.unquote_body 5 false
                  (String "u" (String h1 (String h2 (String h3 (String h4 r))))))
              = true).
    { intros out Hout. rewrite utf8_encode_valid by exact Hout.
      cbn [Quote.unquote_body]. rewrite unquote_0. apply IH; [lia|exact Hr]. }
    destruct ((55296 <=? rr) && (rr <? 57344)) eqn:Esur; [|apply H5; lia].
    cbn [Bytes.drop].
    destruct (Bytes.getu4 r) as [rr1|] eqn:Eg; [|apply (H5 65533); lia].
    destruct ((rr <? 56320) && (56320 <=? rr1) && (rr1 <? 57344)) eqn:Epair;
      [|apply (H5 65533); lia].
    destruct (getu4_inv _ _ Eg) as (g1 & g2 & g3 & g4 & r2 & -> & Hrr1).
    simpl in Hlen.
    apply andb_true_iff in Esur. destruct Esur as [Es1 Es2].
    apply Z.leb_le in Es1. apply Z.ltb_lt in Es2.
    apply andb_true_iff in Epair. destruct Epair as [Ep Ep3].
    apply andb_true_iff in Ep. destruct Ep as [Ep1 Ep2].
    apply Z.ltb_lt in Ep1, Ep3. apply Z.leb_le in Ep2.
    rewrite utf8_encode_valid by lia.
    cbn [Quote.unquote_body]. rewrite unquote_0. apply IH; [lia|].
    apply (lit_body_u g1 g2 g3 g4). exact Hr.
Qed.

Lemma unquote_scanned X raw rest :
  Json.scan_string X = Some (raw, rest) -> utf8_valid 0 (Quote.unquote raw) = true.
Proof.
  intros H. apply (unquote_valid (String.length raw)); [lia|].
  apply (scan_string_body (String.length X) X raw rest); [lia|exact H].
Qed.

Import Json.

(** *** The strings of a parsed document are scanned literals *)

Fixpoint lexed (v : json) : Prop :=
  match v with
  | JStr raw => lit_body raw
  | JArr xs =>
      (fix all (l : list json) : Prop :=
         match l with
         | [] => True
         | x :: l' => lexed x /\ all l'
         end) xs
  | JObj ms =>
      (fix all (l : list (string * json)) : Prop :=
         match l with
         | [] => True
         | (_, x) :: l' => lexed x /\ all l'
         end) ms
  | _ => True
  end.

Fixpoint lexed_elems (l : list json) : Prop :=
  match l with
  | [] => True
  | x :: l' => lexed x /\ lexed_elems l'
  end.

Fixpoint lexed_members (l : list (string * json)) : Prop :=
  match l with
  | [] => True
  | (_, x) :: l' => lexed x /\ lexed_members l'
  end.

Lemma lexed_arr xs : lexed (JArr xs) = lexed_elems xs.
Proof. reflexivity. Qed.
Lemma lexed_obj ms : lexed (JObj ms) = lexed_members ms.
Proof. reflexivity. Qed.

Lemma expect_lexed lit v s v' r :
  lexed v -> expect lit v s = Some (v', r) -> lexed v'.
Proof.
  unfold expect. intros Hv. destruct (String.prefix lit s); [|discriminate].
  intros [= <- _]. exact Hv.
Qed.

Lemma parse_lexed fuel :
  (forall dp s v r, parse_value fuel dp s = Some (v, r) -> lexed v)
  /\ (forall dp s vs r, parse_elems fuel dp s = Some (vs, r) -> lexed_elems vs)
  /\ (forall dp s ms r, parse_members fuel dp s = Some (ms, r) -> lexed_members ms).
Proof.
  induction fuel as [|f (IHv & IHe & IHm)].
  { repeat split; intros; discriminate. }
  split; [|split].
  - intros dp s v r H. cbn [parse_value] in H.
    destruct (skip_ws s) as [|c r0]; [discriminate|]. cbv zeta in H.
    destruct (Bytes.code c =? 123).
    { destruct dp as [|dp]; [discriminate|].
      destruct (skip_ws r0) as [|c' r']; [discriminate|].
      destruct (Bytes.code c' =? 125); [injection H as <- _; exact I|].
      destruct (parse_members f dp r0) as [[ms rest]|] eqn:E; [|discriminate].
      injection H as <- _. rewrite lexed_obj. apply (IHm _ _ _ _ E). }
    destruct (Bytes.code c =? 91).
    { destruct dp as [|dp]; [discriminate|].
      destruct (skip_ws r0) as [|c' r']; [discriminate|].
      destruct (Bytes.code c' =? 93); [injection H as <- _; exact I|].
      destruct (parse_elems f dp r0) as [[es rest]|] eqn:E; [|discriminate].
      injection H as <- _. rewrite lexed_arr. apply (IHe _ _ _ _ E). }
    destruct (Bytes.code c =? 34).
    { destruct (scan_string r0) as [[raw rest]|] eqn:E; [|discriminate].
      injection H as <- _. cbn [lexed].
      apply (scan_string_body (String.length r0) r0 raw rest); [lia|exact E]. }
    destruct ((Bytes.code c =? 45) || Bytes.is_digit c).
    { destruct (scan_number (String c r0)) as [[lit rest]|]; [|discriminate].
      injection H as <- _. exact I. }
    destruct (Bytes.code c =? 116); [apply (expect_lexed _ (JBool true) _ _ _ I H)|].
    destruct (Bytes.code c =? 102); [apply (expect_lexed _ (JBool false) _ _ _ I H)|].
    destruct (Bytes.code c =? 110); [apply (expect_lexed _ JNull _ _ _ I H)|].
    discriminate.
  - intros dp s vs r H. cbn [parse_elems] in H.
    destruct (parse_value f dp s) as [[v r0]|] eqn:Ev; [|discriminate].
    cbn [mbind option_bind] in H.
    destruct (skip_ws r0) as [|c r']; [discriminate|].
    destruct (Bytes.code c =? 44).
    { destruct (parse_elems f dp r') as [[vs' rest]|] eqn:E; [|discriminate].
      injection H as <- _. split; [apply (IHv _ _ _ _ Ev)|apply (IHe _ _ _ _ E)]. }
    destruct (Bytes.code c =? 93); [|discriminate].
    injection H as <- _. split; [apply (IHv _ _ _ _ Ev)|exact I].
  - intros dp s ms r H. cbn [parse_members] in H.
    destruct (skip_ws s) as [|q r0]; [discriminate|].
    destruct (Bytes.code q =? 34); [|discriminate].
    destruct (scan_string r0) as [[key r1]|]; [|discriminate].
    cbn [mbind option_bind] in H.
    destruct (skip_ws r1) as [|c r2]; [discriminate|].
    destruct (Bytes.code c =? 58); [|discriminate].
    destruct (parse_value f dp r2) as [[v r3]|] eqn:Ev; [|discriminate].
    cbn [mbind option_bind] in H.
    destruct (skip_ws r3) as [|c' r4]; [discriminate|].
    destruct (Bytes.code c' =? 44).
    { destruct (parse_members f dp r4) as [[ms' rest]|] eqn:E; [|discriminate].
      injection H as <- _. split; [apply (IHv _ _ _ _ Ev)|apply (IHm _ _ _ _ E)]. }
    destruct (Bytes.code c' =? 125); [|discriminate].
    injection H as <- _. split; [apply (IHv _ _ _ _ Ev)|exact I].
Qed.

Lemma parse_is_lexed data j : parse data = Some j -> lexed j.
Proof.
  unfold parse. intros H.
  destruct (parse_value _ _ data) as [[v rest]|] eqn:E; [|discriminate].
  cbn [mbind option_bind] in H.
  destruct (skip_ws rest); [|discriminate]. injection H as <-.
  apply (proj1 (parse_lexed _) _ _ _ _ E).
Qed.

(** *** Time stamps read from a document *)

Import GoTime.

(** A time as [Time.UnmarshalJSON] leaves one: no monotonic reading,
    the year of its date between 0 and 9999, and a zone offset of
    whole minutes of at most 25 hours (an offset of 24 hours and 60
    minutes passes [time.Parse]). *)
Definition stored_time (t : Time) : Prop :=
  0 <= nsec t < 10 ^ 9 /\ offset t mod 60 = 0 /\ Z.abs (offset t) <= 90000
  /\ 0 <= year (clock t) <= 9999 /\ mono t = None.

(** The zone offset is one that [Time.MarshalJSON] writes. *)
Definition zone_below_day (t : Time) : Prop := Z.abs (offset t) < 86400.

Lemma stored_good_time t : stored_time t -> zone_below_day t -> good_time t.
Proof. intros (Hns & Hm & _ & Hy & _) Hz. repeat split; try assumption; lia. Qed.

Lemma num_range n lo hi s x r : Rfc3339.num n lo hi s = Some (x, r) -> lo <= x <= hi.
Proof.
  unfold Rfc3339.num. destruct (Rfc3339.num_digits n 0 s) as [[x' r']|]; [|discriminate].
  cbn [mbind option_bind].
  destruct (Z.leb_spec lo x'); [|discriminate].
  destruct (Z.leb_spec x' hi); [|discriminate].
  intros [= <- _]. lia.
Qed.

Lemma digit_range c : Bytes.is_digit c = true -> 0 <= Bytes.code c - 48 <= 9.
Proof.
  unfold Bytes.is_digit, Bytes.between. intros H.
  apply andb_true_iff in H. destruct H as [H1 H2].
  apply Z.leb_le in H1. apply Z.leb_le in H2. lia.
Qed.

Lemma num_digits_range n : forall acc s x r,
  Rfc3339.num_digits n acc s = Some (x, r) ->
  acc * 10 ^ Z.of_nat n <= x < (acc + 1) * 10 ^ Z.of_nat n.
Proof.
  induction n as [|n IH]; intros acc s x r H.
  - simpl in H. injection H as <- _. simpl. lia.
  - cbn [Rfc3339.num_digits] in H. destruct s as [|c s']; [discriminate|].
    destruct (Bytes.is_digit c) eqn:Ec; [|discriminate].
    apply digit_range in Ec. apply IH in H.
    rewrite Nat2Z.inj_succ, Z.pow_succ_r by lia.
    assert (0 < 10 ^ Z.of_nat n) by (apply Z.pow_pos_nonneg; lia). nia.
Qed.

Lemma getnum_range s fixed x r : Rfc3339.getnum s fixed = Some (x, r) -> 0 <= x <= 99.
Proof.
  unfold Rfc3339.getnum. destruct s as [|c s']; [discriminate|].
  destruct (Bytes.is_digit c) eqn:Ec; [|discriminate]. apply digit_range in Ec.
  destruct s' as [|d s''].
  - destruct fixed; [discriminate|]. intros [= <- _]. lia.
  - destruct (Bytes.is_digit d) eqn:Ed.
    + apply digit_range in Ed. intros [= <- _]. lia.
    + destruct fixed; [discriminate|]. intros [= <- _]. lia.
Qed.

Lemma digits_all s : forall ds rest, Json.digits s = (ds, rest) -> all_digits ds = true.
Proof.
  induction s as [|c r IH]; intros ds rest H; simpl in H.
  - injection H as <- _. reflexivity.
  - destruct (Bytes.is_digit c) eqn:Ec.
    + destruct (Json.digits r) as [ds' rest'] eqn:E. injection H as <- _.
      simpl. rewrite Ec. apply (IH ds' rest' eq_refl).
    + injection H as <- _. reflexivity.
Qed.

Lemma nanos_bound ds : all_digits ds = true ->
  forall W, 0 <= W -> 0 <= Rfc3339.nanos W ds <= Z.max 0 (10 * W - 1).
Proof.
  induction ds as [|c r IH]; intros Hd W HW; [simpl; lia|].
  simpl in Hd. apply andb_true_iff in Hd. destruct Hd as [Hc Hr].
  unfold Bytes.is_digit, Bytes.between in Hc.
  apply andb_true_iff in Hc. destruct Hc as [H1 H2].
  apply Z.leb_le in H1. apply Z.leb_le in H2.
  cbn [Rfc3339.nanos].
  assert (HW' : 0 <= W / 10) by (apply Z.div_pos; lia).
  specialize (IH Hr (W / 10) HW').
  assert (10 * (W / 10) <= W) by (apply Z.mul_div_le; lia).
  nia.
Qed.

Lemma parse_frac_range s ns r : Rfc3339.parse_frac s = (ns, r) -> 0 <= ns < 10 ^ 9.
Proof.
  unfold Rfc3339.parse_frac.
  destruct s as [|c [|d r']]; try (intros [= <- _]; lia).
  destruct ((Bytes.code c =? 46) && Bytes.is_digit d); [|intros [= <- _]; lia].
  destruct (Json.digits (String d r')) as [ds rest] eqn:E.
  intros [= <- _].
  pose proof (nanos_bound ds (digits_all _ _ _ E) 100000000 ltac:(lia)). lia.
Qed.

Lemma parse_fraction_range s ns r :
  Rfc3339.parse_fraction s = (ns, r) -> 0 <= ns < 10 ^ 9.
Proof.
  unfold Rfc3339.parse_fraction.
  destruct s as [|c [|d r']]; try (intros [= <- _]; lia).
  destruct (Rfc3339.commaOrPeriod c && Bytes.is_digit d); [|intros [= <- _]; lia].
  destruct (Json.digits (String d r')) as [ds rest] eqn:E.
  intros [= <- _].
  pose proof (nanos_bound ds (digits_all _ _ _ E) 100000000 ltac:(lia)). lia.
Qed.

Lemma parse_zone_range s z :
  Rfc3339.parse_zone s = Some z -> z mod 60 = 0 /\ Z.abs z < 86400.
Proof.
  unfold Rfc3339.parse_zone.
  destruct s as [|sign r]; [discriminate|].
  assert (Hmain : (if (Bytes.code sign =? 43) || (Bytes.code sign =? 45) then
             Rfc3339.num 2 0 23 r ≫= (fun '(hr, r1) =>
             Rfc3339.lit 58 r1 ≫= (fun r2 =>
             Rfc3339.num 2 0 59 r2 ≫= (fun '(mm, r3) =>
               match r3 with
               | EmptyString =>
                   let z := (hr * 60 + mm) * 60 in
                   Some (if Bytes.code sign =? 45 then - z else z)
               | _ => None
               end)))
           else None) = Some z -> z mod 60 = 0 /\ Z.abs z < 86400).
  { destruct (_ || _); [|discriminate].
    destruct (Rfc3339.num 2 0 23 r) as [[hr r1]|] eqn:E1; [|discriminate].
    cbn [mbind option_bind].
    destruct (Rfc3339.lit 58 r1) as [r2|]; [|discriminate].
    cbn [mbind option_bind].
    destruct (Rfc3339.num 2 0 59 r2) as [[mm r3]|] eqn:E2; [|discriminate].
    cbn [mbind option_bind].
    destruct r3; [|discriminate]. cbv zeta.
    apply num_range in E1, E2.
    destruct (Bytes.code sign =? 45); intros [= <-].
    - split; [|lia].
      replace (- ((hr * 60 + mm) * 60)) with ((- (hr * 60 + mm)) * 60) by lia.
      apply Z.mod_mul. lia.
    - split; [apply Z.mod_mul; lia|lia]. }
  destruct r as [|c r'].
  - destruct (Bytes.code sign =? 90); [|discriminate].
    intros [= <-]. split; [reflexivity|simpl; lia].
  - exact Hmain.
Qed.

Lemma parse_offset_range s z r :
  Rfc3339.parse_offset s = Some (z, r) -> z mod 60 = 0 /\ Z.abs z <= 90000.
Proof.
  unfold Rfc3339.parse_offset.
  destruct s as [|c s0]; [discriminate|].
  destruct (Bytes.code c =? 90).
  { intros [= <- _]. split; [reflexivity|simpl; lia]. }
  destruct s0 as [|h1 [|h2 [|colon [|m1 [|m2 rest]]]]]; try discriminate.
  destruct (Bytes.code colon =? 58); [|discriminate].
  destruct (Rfc3339.getnum (String h1 (String h2 "")) true) as [[hr r1]|] eqn:E1;
    [|discriminate].
  cbn [mbind option_bind].
  destruct (Rfc3339.getnum (String m1 (String m2 "")) true) as [[mm r2]|] eqn:E2;
    [|discriminate].
  cbn [mbind option_bind].
  apply getnum_range in E1, E2.
  destruct (Z.ltb_spec 24 hr); [discriminate|].
  destruct (Z.ltb_spec 60 mm); [discriminate|]. cbn [orb]. cbv zeta.
  destruct (Bytes.code c =? 43).
  { intros [= <- _]. split; [apply Z.mod_mul; lia|lia]. }
  destruct (Bytes.code c =? 45); [|discriminate].
  intros [= <- _]. split; [|lia].
  replace (- ((hr * 60 + mm) * 60)) with ((- (hr * 60 + mm)) * 60) by lia.
  apply Z.mod_mul. lia.
Qed.

(** The time of a date of the calendar and a time of day, moved by a
    zone offset. *)
Lemma civil_time_stored y mo d h mi sec ns z :
  0 <= y <= 9999 -> 1 <= mo <= 12 -> 1 <= d <= daysIn mo y ->
  0 <= h <= 23 -> 0 <= mi <= 59 -> 0 <= sec <= 59 -> 0 <= ns < 10 ^ 9 ->
  z mod 60 = 0 -> Z.abs z <= 90000 ->
  stored_time
    {| unixSec := days_of_civil y mo d * 86400 + h * 3600 + mi * 60 + sec - z;
       nsec := ns; offset := z; mono := None |}.
Proof.
  intros Hy Hmo Hd Hh Hmi Hsec Hns Hz1 Hz2.
  unfold stored_time. cbn [nsec offset unixSec mono].
  split; [exact Hns|]. split; [exact Hz1|]. split; [exact Hz2|].
  split; [|reflexivity].
  unfold clock. cbn [unixSec offset].
  replace ((days_of_civil y mo d * 86400 + h * 3600 + mi * 60 + sec - z + z) / 86400)
    with (days_of_civil y mo d).
  2:{ apply (Z.div_unique _ _ _ (h * 3600 + mi * 60 + sec)); lia. }
  rewrite civil_of_days_of_civil.
  - cbn [year]. lia.
  - unfold valid_date. apply andb_true_iff. split; [|apply Z.leb_le; lia].
    apply andb_true_iff. split; [|apply Z.leb_le; lia].
    apply andb_true_iff. split; apply Z.leb_le; lia.
Qed.

Lemma parseRFC3339_stored raw t :
  Rfc3339.parseRFC3339 raw = Some t -> stored_time t /\ zone_below_day t.
Proof.
  unfold Rfc3339.parseRFC3339. intros H.
  destruct (Rfc3339.num 4 0 9999 raw) as [[y s1]|] eqn:Ey; [|discriminate].
  cbn [mbind option_bind] in H.
  destruct (Rfc3339.lit 45 s1) as [s2|]; [|discriminate].
  cbn [mbind option_bind] in H.
  destruct (Rfc3339.num 2 1 12 s2) as [[mo s3]|] eqn:Emo; [|discriminate].
  cbn [mbind option_bind] in H.
  destruct (Rfc3339.lit 45 s3) as [s4|]; [|discriminate].
  cbn [mbind option_bind] in H.
  destruct (Rfc3339.num 2 1 (daysIn mo y) s4) as [[d s5]|] eqn:Ed; [|discriminate].
  cbn [mbind option_bind] in H.
  destruct (Rfc3339.lit 84 s5) as [s6|]; [|discriminate].
  cbn [mbind option_bind] in H.
  destruct (Rfc3339.num 2 0 23 s6) as [[h s7]|] eqn:Eh; [|discriminate].
  cbn [mbind option_bind] in H.
  destruct (Rfc3339.lit 58 s7) as [s8|]; [|discriminate].
  cbn [mbind option_bind] in H.
  destruct (Rfc3339.num 2 0 59 s8) as [[mi s9]|] eqn:Emi; [|discriminate].
  cbn [mbind option_bind] in H.
  destruct (Rfc3339.lit 58 s9) as [s10|]; [|discriminate].
  cbn [mbind option_bind] in H.
  destruct (Rfc3339.num 2 0 59 s10) as [[sec s11]|] eqn:Esec; [|discriminate].
  cbn [mbind option_bind] in H.
  destruct (Rfc3339.parse_frac s11) as [ns s12] eqn:Ens.
  destruct (Rfc3339.parse_zone s12) as [z|] eqn:Ez; [|discriminate].
  cbn [mbind option_bind] in H. injection H as <-.
  apply num_range in Ey, Emo, Ed, Eh, Emi, Esec.
  apply parse_frac_range in Ens. apply parse_zone_range in Ez.
  destruct Ez as [Ez1 Ez2].
  split; [apply civil_time_stored; try assumption; lia|exact Ez2].
Qed.

(** What [time.Parse] accepts beyond the strict syntax is a time of
    the same kind, with a zone offset of up to 25 hours. *)
Lemma parse_stored raw t : Rfc3339.parse raw = Some t -> stored_time t.
Proof.
  unfold Rfc3339.parse. intros H.
  destruct (Rfc3339.num_digits 4 0 raw) as [[y s1]|] eqn:Ey; [|discriminate].
  cbn [mbind option_bind] in H.
  destruct (Rfc3339.lit 45 s1) as [s2|]; [|discriminate].
  cbn [mbind option_bind] in H.
  destruct (Rfc3339.getnum s2 true) as [[mo s3]|] eqn:Emo; [|discriminate].
  cbn [mbind option_bind] in H.
  destruct (Z.leb_spec mo 0); [discriminate|].
  destruct (Z.ltb_spec 12 mo); [discriminate|]. cbn [orb] in H.
  destruct (Rfc3339.lit 45 s3) as [s4|]; [|discriminate].
  cbn [mbind option_bind] in H.
  destruct (Rfc3339.getnum s4 true) as [[d s5]|] eqn:Ed; [|discriminate].
  cbn [mbind option_bind] in H.
  destruct (Rfc3339.lit 84 s5) as [s6|]; [|discriminate].
  cbn [mbind option_bind] in H.
  destruct (Rfc3339.getnum s6 false) as [[h s7]|] eqn:Eh; [|discriminate].
  cbn [mbind option_bind] in H.
  destruct (Z.leb_spec 24 h); [discriminate|].
  destruct (Rfc3339.lit 58 s7) as [s8|]; [|discriminate].
  cbn [mbind option_bind] in H.
  destruct (Rfc3339.getnum s8 true) as [[mi s9]|] eqn:Emi; [|discriminate].
  cbn [mbind option_bind] in H.
  destruct (Z.leb_spec 60 mi); [discriminate|].
  destruct (Rfc3339.lit 58 s9) as [s10|]; [|discriminate].
  cbn [mbind option_bind] in H.
  destruct (Rfc3339.getnum s10 true) as [[sec s11]|] eqn:Esec; [|discriminate].
  cbn [mbind option_bind] in H.
  destruct (Z.leb_spec 60 sec); [discriminate|].
  destruct (Rfc3339.parse_fraction s11) as [ns s12] eqn:Ens.
  destruct (Rfc3339.parse_offset s12) as [[z s13]|] eqn:Ez; [|discriminate].
  cbn [mbind option_bind] in H.
  destruct s13; [|discriminate].
  destruct (Z.ltb_spec d 1); [discriminate|].
  destruct (Z.ltb_spec (daysIn mo y) d); [discriminate|]. cbn [orb] in H.
  injection H as <-.
  apply num_digits_range in Ey. change (10 ^ Z.of_nat 4) with 10000 in Ey.
  apply getnum_range in Emo, Ed, Eh, Emi, Esec.
  apply parse_fraction_range in Ens. apply parse_offset_range in Ez.
  destruct Ez as [Ez1 Ez2].
  apply civil_time_stored; try assumption; lia.
Qed.

Lemma parseStrictRFC3339_stored raw t :
  Rfc3339.parseStrictRFC3339 raw = Some t -> stored_time t.
Proof.
  unfold Rfc3339.parseStrictRFC3339, Rfc3339.Parse.
  destruct (Rfc3339.parseRFC3339 raw) as [t'|] eqn:E.
  - intros [= <-]. apply (parseRFC3339_stored _ _ E).
  - apply parse_stored.
Qed.

Import Json Codec.

(** *** What the decoder returns *)

Definition stored_snapshot (s : Snapshot) : Prop :=
  stored_time (Timestamp s) /\ Forall good_disk (items (Disks s)).

Definition stored_history (h : HistoryData) : Prop :=
  Forall stored_snapshot (items (Snapshots h)).

(** The value decoded, if any, has the property [Inv]. *)
Definition keeps {A} (Inv : A -> Prop) (o : outcome A) : Prop :=
  match o with
  | Ok a _ => Inv a
  | Abort _ => True
  end.

Definition is_uint64 (n : Z) : Prop := 0 <= n < 2 ^ 64.
Definition is_utf8 (s : string) : Prop := utf8_valid 0 s = true.

Lemma digits_value_nonneg s : forall acc n,
  0 <= acc -> digits_value acc s = Some n -> 0 <= n.
Proof.
  induction s as [|c r IH]; intros acc n Hacc H; simpl in H.
  - injection H as <-. exact Hacc.
  - destruct (Bytes.is_digit c) eqn:Ec; [|discriminate].
    unfold Bytes.is_digit, Bytes.between in Ec.
    apply andb_true_iff in Ec. destruct Ec as [H1 _]. apply Z.leb_le in H1.
    eapply IH; [|exact H]. lia.
Qed.

Lemma ParseUint_range lit n : ParseUint lit = Some n -> is_uint64 n.
Proof.
  unfold ParseUint. destruct lit as [|c r]; [discriminate|].
  destruct (digits_value 0 (String c r)) as [m|] eqn:E; [|discriminate].
  cbn [mbind option_bind].
  destruct (Z.ltb_spec m U64.modulus) as [Hlt|]; [|discriminate].
  intros [= <-]. split; [|exact Hlt].
  eapply digits_value_nonneg; [|exact E]. lia.
Qed.

Lemma keeps_dec_uint j cur sv : is_uint64 cur -> keeps is_uint64 (dec_uint j cur sv).
Proof.
  intros Hc. destruct j; simpl; auto.
  destruct (ParseUint lit) as [n|] eqn:E; simpl; auto.
  apply (ParseUint_range _ _ E).
Qed.

Lemma keeps_dec_string j cur sv :
  lexed j -> is_utf8 cur -> keeps is_utf8 (dec_string j cur sv).
Proof.
  intros Hj Hc. destruct j; simpl; auto.
  apply (unquote_valid (String.length raw)); [lia|exact Hj].
Qed.

Lemma keeps_dec_time j cur sv : stored_time cur -> keeps stored_time (dec_time j cur sv).
Proof.
  intros Hc. destruct j; simpl; auto.
  destruct (Rfc3339.parseStrictRFC3339 raw) as [t|] eqn:E; simpl; auto.
  apply (parseStrictRFC3339_stored _ _ E).
Qed.

Lemma keeps_bind {A B} (Inv : A -> Prop) (J : B -> Prop) (o : outcome A)
    (k : A -> saved -> outcome B) :
  keeps Inv o -> (forall a sv, Inv a -> keeps J (k a sv)) -> keeps J (Codec.bind o k).
Proof. destruct o; simpl; auto. Qed.

(** All that a slice of the decoder holds, up to its length and beyond
    it, has the property [Inv]. *)
Definition all_backed {A} (Inv : A -> Prop) (b : backed A) : Prop :=
  Forall Inv (items (upto b)) /\ Forall Inv (beyond b).

Lemma keeps_dec_list {A} (Inv : A -> Prop)
    (dec : json -> A -> saved -> outcome A) (zero : A) :
  Inv zero ->
  (forall j cur sv, lexed j -> Inv cur -> keeps Inv (dec j cur sv)) ->
  forall js cur sv, lexed_elems js -> Forall Inv cur ->
    keeps (fun '(l, rest) => Forall Inv l /\ Forall Inv rest)
          (dec_list dec zero js cur sv).
Proof.
  intros Hz Hdec. induction js as [|j js IH]; intros cur sv Hl Hc.
  { simpl. split; [constructor|exact Hc]. }
  destruct Hl as [Hj Hl]. cbn [dec_list].
  assert (Hhd : Inv (hd zero cur)) by (destruct Hc; simpl; assumption).
  assert (Htl : Forall Inv (tl cur)) by (destruct Hc; simpl; [constructor|assumption]).
  specialize (Hdec j (hd zero cur) sv Hj Hhd).
  destruct (dec j (hd zero cur) sv) as [x sv'|e]; simpl in *; [|exact Logic.I].
  specialize (IH (tl cur) sv' Hl Htl).
  destruct (dec_list dec zero js (tl cur) sv') as [[xs rest] sv''|e]; simpl in *;
    [|exact Logic.I].
  destruct IH as [IH1 IH2]. split; [constructor; assumption|exact IH2].
Qed.

Lemma keeps_dec_slice {A} (Inv : A -> Prop)
    (dec : json -> A -> saved -> outcome A) (zero : A) :
  Inv zero ->
  (forall j cur sv, lexed j -> Inv cur -> keeps Inv (dec j cur sv)) ->
  forall j cur sv, lexed j -> all_backed Inv cur ->
    keeps (all_backed Inv) (dec_slice dec zero j cur sv).
Proof.
  intros Hz Hdec j cur sv Hj [Hc1 Hc2].
  destruct j; simpl; auto; try (split; [exact Hc1|exact Hc2]);
    try (split; constructor).
  rewrite lexed_arr in Hj. destruct elems as [|j js].
  { simpl. split; constructor. }
  pose proof (keeps_dec_list Inv dec zero Hz Hdec (j :: js)
                (items (upto cur) ++ beyond cur) sv Hj
                ltac:(apply Forall_app; split; assumption)) as H.
  destruct (dec_list dec zero (j :: js) _ sv) as [[xs rest] sv'|e]; simpl in *; auto.
Qed.

Lemma keeps_dec_struct {A} (Inv : A -> Prop) tags
    (set : nat -> json -> A -> saved -> outcome A) :
  (forall i j cur sv, lexed j -> Inv cur -> keeps Inv (set i j cur sv)) ->
  forall j cur sv, lexed j -> Inv cur -> keeps Inv (dec_struct tags set j cur sv).
Proof.
  intros Hset j cur sv Hj Hc. destruct j; simpl; auto.
  rewrite lexed_obj in Hj.
  revert cur sv Hc. induction members as [|[k v] ms IH]; intros cur sv Hc; simpl; auto.
  destruct Hj as [Hv Hms].
  destruct (field tags _) as [i|]; [|apply IH; assumption].
  specialize (Hset i v cur sv Hv Hc).
  destruct (set i v cur sv) as [cur' sv'|e]; simpl in *; [|exact Logic.I].
  apply IH; assumption.
Qed.

Lemma keeps_dec_disk j cur sv :
  lexed j -> good_disk cur -> keeps good_disk (dec_disk j cur sv).
Proof.
  apply keeps_dec_struct. clear. intros i v d sv Hv (Hn & Ht & Hf & Hu).
  unfold set_disk. destruct i as [|[|[|i]]].
  - apply (keeps_bind is_utf8); [apply keeps_dec_string; [exact Hv|exact Hn]|].
    intros a sv' Ha. exact (conj Ha (conj Ht (conj Hf Hu))).
  - apply (keeps_bind is_uint64); [apply keeps_dec_uint; exact Ht|].
    intros a sv' Ha. exact (conj Hn (conj Ha (conj Hf Hu))).
  - apply (keeps_bind is_uint64); [apply keeps_dec_uint; exact Hf|].
    intros a sv' Ha. exact (conj Hn (conj Ht (conj Ha Hu))).
  - apply (keeps_bind is_uint64); [apply keeps_dec_uint; exact Hu|].
    intros a sv' Ha. exact (conj Hn (conj Ht (conj Hf Ha))).
Qed.

Lemma good_zero_disk : good_disk zero_disk.
Proof. repeat split; vm_compute; congruence. Qed.

Lemma stored_zero_time : stored_time GoTime.zero.
Proof. repeat split; vm_compute; congruence. Qed.

(** A snapshot of the decoder with well-formed fields. *)
Definition stored_var (s : snapshot_var) : Prop :=
  stored_time (var_Timestamp s) /\ all_backed good_disk (var_Disks s).

Lemma keeps_dec_snapshot j cur sv :
  lexed j -> stored_var cur -> keeps stored_var (dec_snapshot j cur sv).
Proof.
  apply keeps_dec_struct. clear. intros i v s sv Hv [Ht Hd].
  unfold set_snapshot. destruct i as [|i].
  - apply (keeps_bind stored_time); [apply keeps_dec_time; assumption|].
    intros a sv' Ha. split; assumption.
  - apply (keeps_bind (all_backed good_disk)).
    + apply keeps_dec_slice; try assumption; [apply good_zero_disk|].
      intros. apply keeps_dec_disk; assumption.
    + intros a sv' Ha. split; assumption.
Qed.

Lemma keeps_dec_history j cur sv :
  lexed j -> all_backed stored_var cur ->
  keeps (all_backed stored_var) (dec_history j cur sv).
Proof.
  apply keeps_dec_struct. clear. intros i v h sv Hv Hh.
  unfold set_history.
  apply keeps_dec_slice; try assumption.
  - split; [apply stored_zero_time|split; constructor].
  - intros. apply keeps_dec_snapshot; assumption.
Qed.

Lemma stored_snapshot_of s : stored_var s -> stored_snapshot (snapshot_of s).
Proof. intros [Ht [Hd _]]. split; assumption. Qed.

(** A history that [json.Unmarshal] returns has well-formed fields. *)
Lemma Unmarshal_stored data h : Unmarshal data = inl h -> stored_history h.
Proof.
  unfold Unmarshal. destruct (parse data) as [j|] eqn:Ep; [|discriminate].
  pose proof (keeps_dec_history j fresh None (parse_is_lexed _ _ Ep)
                (conj (List.Forall_nil _) (List.Forall_nil _))) as H.
  destruct (dec_history j _ None) as [h' [e|]|e]; try discriminate.
  intros [= <-]. simpl in H. destruct H as [H _].
  unfold stored_history, history_of. cbn [Snapshots].
  destruct (upto h') as [l|]; cbn [fmap option_fmap option_map items] in *;
    [|constructor].
  induction H as [|x l Hx _ IH]; [constructor|].
  simpl. constructor; [apply stored_snapshot_of; exact Hx|exact IH].
Qed.

Lemma wall_stored_time t : stored_time t -> wall t = t.
Proof. intros (_ & _ & _ & _ & Hm). destruct t. simpl in Hm. subst. reflexivity. Qed.

Lemma wall_stored_snapshot s : stored_snapshot s -> wall_snapshot s = s.
Proof.
  intros [Ht _]. unfold wall_snapshot. rewrite (wall_stored_time _ Ht).
  destruct s. reflexivity.
Qed.

(** Every time stamp of the history has a zone offset below 24 hours. *)
Definition zones_below_day (h : HistoryData) : Prop :=
  Forall (fun s => zone_below_day (Timestamp s)) (items (Snapshots h)).

Lemma stored_good_snapshot s :
  stored_snapshot s -> zone_below_day (Timestamp s) -> good_snapshot s.
Proof. intros [Ht Hd] Hz. split; [apply stored_good_time; assumption|exact Hd]. Qed.

Lemma stored_good_history h : stored_history h -> zones_below_day h -> good_history h.
Proof.
  unfold stored_history, zones_below_day, good_history.
  induction 1 as [|s l Hs _ IH]; intros Hz; [constructor|].
  inversion Hz; subst. constructor; [apply stored_good_snapshot; assumption|].
  apply IH. assumption.
Qed.

Lemma map_wall_stored l : Forall stored_snapshot l -> map wall_snapshot l = l.
Proof.
  induction 1 as [|s l Hs _ IH]; [reflexivity|].
  simpl. rewrite (wall_stored_snapshot s Hs), IH. reflexivity.
Qed.

Lemma wall_with_snapshot h s :
  stored_history h ->
  wall_history (with_snapshot h s) = with_snapshot h (wall_snapshot s).
Proof.
  intros Hh. unfold wall_history, with_snapshot, append. cbn [Snapshots].
  cbn [fmap option_fmap option_map]. rewrite map_app, (map_wall_stored _ Hh).
  reflexivity.
Qed.

(** [Time.MarshalJSON] refuses a zone offset of 24 hours or more, and
    with it [json.MarshalIndent] the history. *)
Lemma MarshalJSON_zone t : ~ zone_below_day t -> Rfc3339.MarshalJSON t = None.
Proof.
  unfold zone_below_day, Rfc3339.MarshalJSON. intros Hz. cbv zeta.
  destruct (_ || _); [reflexivity|].
  destruct (Z.eqb_spec (offset t) 0) as [E|E]; [rewrite E in Hz; simpl in Hz; lia|].
  cbn [negb andb].
  destruct (Z.leb_spec 24 (Z.abs (Z.quot (offset t) 60) / 60)) as [|Hlt]; [reflexivity|].
  exfalso. apply Hz.
  pose proof (Z.quot_rem' (offset t) 60) as Hq.
  pose proof (Z.rem_bound_abs (offset t) 60 ltac:(lia)) as Hr.
  assert (Z.abs (Z.quot (offset t) 60) < 1440) by (Z.div_mod_to_equations; lia).
  lia.
Qed.

Lemma MarshalIndent_zone h : ~ zones_below_day h -> MarshalIndent h = None.
Proof.
  intros Hz. unfold MarshalIndent, enc_history.
  destruct (Snapshots h) as [l|] eqn:El.
  2:{ exfalso. apply Hz. unfold zones_below_day. rewrite El. constructor. }
  assert (Hm : mapM enc_snapshot l = None).
  { apply mapM_None.
    assert (Hn : ~ Forall (fun s => zone_below_day (Timestamp s)) l).
    { intros HF. apply Hz. unfold zones_below_day. rewrite El. exact HF. }
    clear Hz El. induction l as [|s l IH]; [exfalso; apply Hn; constructor|].
    destruct (Z_lt_dec (Z.abs (offset (Timestamp s))) 86400) as [Hs|Hs].
    - right. apply IH. intros HF. apply Hn. constructor; assumption.
    - left. unfold enc_snapshot. rewrite (MarshalJSON_zone _ Hs). reflexivity. }
  cbn [enc_slice]. rewrite Hm. reflexivity.
Qed.

Lemma zones_with_snapshot h s :
  zones_below_day (with_snapshot h s) -> zones_below_day h.
Proof.
  unfold zones_below_day, with_snapshot, append. cbn [Snapshots items].
  intros H. apply Forall_app in H. apply H.
Qed.

Import Store.

Lemma loadHistory_stored f h : loadHistory f = (Some h, None) -> stored_history h.
Proof.
  intros H. destruct (loadHistory_Some f h H) as [[_ ->]|(data & _ & Hu)].
  - constructor.
  - apply (Unmarshal_stored data h Hu).
Qed.

(** The file the program leaves after saving a history with the one
    snapshot [sample_snapshot]. *)
Definition sample_history : HistoryData := {| Snapshots := Some [sample_snapshot] |}.

Definition sample_file : file := fst (saveHistory Completes sample_history Absent).

(** The snapshot of the next cycle, an hour later: the time is that of
    [time.Now()], with its monotonic clock reading. *)
Definition next_snapshot : Snapshot :=
  {| Timestamp := {| unixSec := 1700003600; nsec := 987654321; offset := 3600;
                     mono := Some 3605000000000 |};
     Disks := Some [{| Drive := "C:\"; TotalSpace := 512110190592;
                       FreeSpace := 104857600000; UsedSpace := 407252590592 |}] |}.

(** A history file that was not written by the program: the hour of
    its time stamp has one digit and the zone is [+24:00].
    [parseRFC3339] refuses the text and [time.Parse] reads it. *)
Definition late_file : file :=
  Present (Json.print 0
    (JObj [("snapshots",
            JArr [JObj [("timestamp", JStr "2024-01-15T9:30:00+24:00");
                        ("disks", JArr [])]])])).

Definition late_history : HistoryData :=
  {| Snapshots :=
       Some [{| Timestamp := {| unixSec := 1705224600; nsec := 0; offset := 86400;
                                mono := None |};
                Disks := Some [] |}] |}.

(** C2, as stated, fails in every cycle of the program.  The file
    [sample_file] was written by [saveHistory] and loads; the snapshot
    appended is the one [collectAndSave] makes, with the time of
    [time.Now()].  Saving succeeds, and what is loaded afterwards is not
    the history that was saved: the monotonic clock reading of the
    time stamp is not in the file. *)
Lemma C2_counterexample :
  let h := wall_history sample_history in
  let s := next_snapshot in
  loadHistory sample_file = (Some h, None)
  /\ (exists r, collectAndSave (Disks s) (Timestamp s) Completes sample_file = Some r
                /\ cli_err r = None
                /\ cli_file r
                   = fst (saveHistory Completes {| Snapshots := append (Snapshots h) s |}
                            sample_file))
  /\ exists f' h',
       saveHistory Completes {| Snapshots := append (Snapshots h) s |} sample_file
       = (f', None)
       /\ loadHistory f' = (Some h', None)
       /\ h' <> {| Snapshots := append (Snapshots h) s |}.
Proof.
  cbv zeta. split; [vm_compute; reflexivity|]. split.
  - eexists. split; [vm_compute; reflexivity|]. split; vm_compute; reflexivity.
  - eexists. eexists. split; [vm_compute; reflexivity|].
    split; [vm_compute; reflexivity|]. discriminate.
Qed.

(** A drive name that is not UTF-8, and a zone offset with seconds
    (Amsterdam before 1937: 19 min 32 s east). *)
Definition odd_name : Snapshot :=
  {| Timestamp := GoTime.zero;
     Disks := Some [{| Drive := String (Bytes.chr 255) ":\"; TotalSpace := 10;
                       FreeSpace := 4; UsedSpace := 6 |}] |}.

Definition odd_zone : Snapshot :=
  {| Timestamp := {| unixSec := 1700000000; nsec := 0; offset := 1172; mono := None |};
     Disks := None |}.

(** Save the history that [loadHistory] gives for no file, with [s]
    appended, and load it. *)
Definition reload (s : Snapshot) : option HistoryData * option error :=
  loadHistory (fst (saveHistory Completes
                      {| Snapshots := append (Some []) s |} Absent)).

(** What the conditions on the snapshot in C2 are for: a drive name
    that is not UTF-8 comes back with U+FFFD in place of the offending
    byte; a zone offset that is not a whole number of minutes is written
    without its seconds, and the time read back is another instant
    (here 32 s later). *)
Lemma reload_odd_snapshots :
  reload odd_name
  = (Some {| Snapshots := Some
       [{| Timestamp := GoTime.zero;
           Disks := Some [{| Drive := Bytes.replacement +:+ ":\"; TotalSpace := 10;
                             FreeSpace := 4; UsedSpace := 6 |}] |}] |}, None)
  /\ reload odd_zone
     = (Some {| Snapshots := Some
          [{| Timestamp := {| unixSec := 1700000032; nsec := 0; offset := 1140;
                              mono := None |};
              Disks := None |}] |}, None).
Proof. split; vm_compute; reflexivity. Qed.

Lemma good_zones h : good_history h -> zones_below_day (wall_history h).
Proof.
  unfold good_history, zones_below_day, wall_history. cbn [Snapshots].
  destruct (Snapshots h) as [l|]; cbn [fmap option_fmap option_map items];
    [|constructor].
  induction 1 as [|s l [(_ & _ & Hz & _) _] _ IH]; [constructor|].
  constructor; [exact Hz|exact IH].
Qed.

(** C2 (amended): let [loadHistory] read the file without error, and
    let the snapshot have drive names that are valid UTF-8, numbers that
    are [uint64] values and a time with its year in [0, 9999], a zone
    offset of whole minutes below 24 hours and nanoseconds below 10^9.
    When every time stamp of the file has a zone offset below 24 hours,
    [saveHistory] of the history with the snapshot appended succeeds, and
    [loadHistory] then returns that history with the snapshot's monotonic
    clock reading removed: the snapshots of the file, the drive names,
    the three numbers of every drive, the instant to the nanosecond and
    the zone offset are the same; when the snapshot has no monotonic
    reading, nothing differs.  When some time stamp of the file has a
    zone offset of 24 hours or more, which [json.Unmarshal] accepts and
    [Time.MarshalJSON] refuses, [saveHistory] fails and leaves the file
    as it is.  A file that [saveHistory] wrote from snapshots of the
    kind above is of the first kind. *)
Theorem C2_append_persist_load (f : file) (h : HistoryData) (s : Snapshot) :
  loadHistory f = (Some h, None) -> good_snapshot s ->
  (zones_below_day h ->
   exists f',
     saveHistory Completes {| Snapshots := append (Snapshots h) s |} f = (f', None)
     /\ loadHistory f'
        = (Some {| Snapshots := append (Snapshots h) (wall_snapshot s) |}, None)
     /\ (mono (Timestamp s) = None ->
         loadHistory f' = (Some {| Snapshots := append (Snapshots h) s |}, None)))
  /\ (~ zones_below_day h ->
      forall ev,
        saveHistory ev {| Snapshots := append (Snapshots h) s |} f = (f, Some ErrTime))
  /\ (forall h0 f0,
        good_history h0 -> saveHistory Completes h0 f0 = (f, None) ->
        h = wall_history h0 /\ zones_below_day h).
Proof.
  intros Hf Hs. pose proof (loadHistory_stored f h Hf) as Hh. split; [|split].
  - intros Hz.
    destruct (save_then_load (with_snapshot h s) f
                (good_with_snapshot h s (stored_good_history h Hh Hz) Hs))
      as (data & Hsave & Hload).
    exists (Present data). split; [exact Hsave|].
    rewrite (wall_with_snapshot h s Hh) in Hload. split; [exact Hload|].
    intros Hm. rewrite Hload. unfold with_snapshot.
    replace (wall_snapshot s) with s; [reflexivity|].
    destruct s as [[u n o m] d]. simpl in Hm. subst m. reflexivity.
  - intros Hz ev. unfold saveHistory.
    assert (E : MarshalIndent (with_snapshot h s) = None).
    { apply MarshalIndent_zone. intros H. apply Hz. apply (zones_with_snapshot h s H). }
    unfold with_snapshot in E. rewrite E. reflexivity.
  - intros h0 f0 Hg Hsave0.
    destruct (save_then_load h0 f0 Hg) as (data & Hsave & Hload).
    rewrite Hsave in Hsave0. injection Hsave0 as <-.
    rewrite Hload in Hf. injection Hf as <-.
    split; [reflexivity|apply good_zones; exact Hg].
Qed.

Lemma C2_witness :
  loadHistory sample_file = (Some (wall_history sample_history), None)
  /\ good_snapshot next_snapshot
  /\ zones_below_day (wall_history sample_history)
  /\ (exists f',
       saveHistory Completes
         {| Snapshots := append (Snapshots (wall_history sample_history))
                           next_snapshot |} sample_file
       = (f', None)
       /\ loadHistory f'
          = (Some {| Snapshots := append (Snapshots (wall_history sample_history))
                                    (wall_snapshot next_snapshot) |}, None))
  /\ loadHistory late_file = (Some late_history, None)
  /\ ~ zones_below_day late_history
  /\ saveHistory Completes
       {| Snapshots := append (Snapshots late_history) next_snapshot |} late_file
     = (late_file, Some ErrTime).
Proof.
  assert (Hf : loadHistory sample_file = (Some (wall_history sample_history), None))
    by (vm_compute; reflexivity).
  assert (Hs : good_snapshot next_snapshot).
  { split; [repeat split; vm_compute; congruence
           |repeat constructor; vm_compute; congruence]. }
  assert (Hz : zones_below_day (wall_history sample_history))
    by (repeat constructor).
  assert (Hl : loadHistory late_file = (Some late_history, None))
    by (vm_compute; reflexivity).
  assert (Hn : ~ zones_below_day late_history).
  { intros H. inversion H as [|x l Hx Hrest]. vm_compute in Hx. discriminate. }
  split; [exact Hf|]. split; [exact Hs|]. split; [exact Hz|]. split.
  - destruct (proj1 (C2_append_persist_load sample_file (wall_history sample_history)
                       next_snapshot Hf Hs) Hz) as (f' & H1 & H2 & _).
    exists f'. split; assumption.
  - split; [exact Hl|]. split; [exact Hn|].
    exact (proj1 (proj2 (C2_append_persist_load late_file late_history next_snapshot
                           Hl Hs))
             Hn Completes).
Defined.

Lemma substring_all s : substring 0 (String.length s) s = s.
Proof. induction s as [|c r IH]; [reflexivity|]. simpl. rewrite IH. reflexivity. Qed.

Lemma MarshalIndent_not_empty h data : Codec.MarshalIndent h = Some data -> data <> "".
Proof.
  unfold Codec.MarshalIndent, Codec.enc_history.
  destruct (Codec.enc_slice Codec.enc_snapshot (Snapshots h)) as [ss|]; [|discriminate].
  cbn [mbind option_bind fmap option_fmap option_map].
  intros [= <-]. discriminate.
Qed.

(** C4, as stated, fails: [os.WriteFile] cuts the file to length zero
    and then writes into it.  With the file of one snapshot in place,
    saving the history of two snapshots and stopping after 40 bytes,
    by a crash or by a write error, leaves a file that [loadHistory]
    rejects; neither the old nor the new content is there. *)
Lemma C4_counterexample :
  let h := {| Snapshots := append (Snapshots (wall_history sample_history))
                             sample_snapshot |} in
  loadHistory sample_file = (Some (wall_history sample_history), None)
  /\ loadHistory (interrupted (Wrote 40) h sample_file) = (None, Some ErrJSONSyntax)
  /\ snd (saveHistory (Fails 28 (Wrote 40)) h sample_file) = Some (ErrWrite 28)
  /\ loadHistory (fst (saveHistory (Fails 28 (Wrote 40)) h sample_file))
     = (None, Some ErrJSONSyntax).
Proof. repeat split; vm_compute; reflexivity. Qed.

(** C4 (amended): [saveHistory] serializes the whole history and writes
    it over the file in place.  When the write completes the file holds
    exactly the new serialization, which is not empty.  When the write
    fails, or the process stops, before the file was opened, the file
    is as it was.  Once the file was opened, what is left is the first
    [n] bytes of the new serialization and nothing of the old content;
    with [n = 0], the file cut and nothing written yet, [loadHistory]
    reports a syntax error, and with all bytes written the file is the
    new serialization. *)
Theorem C4_write_in_place (h : HistoryData) (f : file) (data : string) :
  Codec.MarshalIndent h = Some data ->
  saveHistory Completes h f = (Present data, None)
  /\ data <> ""
  /\ (forall c, saveHistory (Fails c NotOpened) h f = (f, Some (ErrWrite c)))
  /\ interrupted NotOpened h f = f
  /\ (forall c n, saveHistory (Fails c (Wrote n)) h f
                  = (Present (substring 0 n data), Some (ErrWrite c)))
  /\ (forall n, interrupted (Wrote n) h f = Present (substring 0 n data))
  /\ loadHistory (interrupted (Wrote 0) h f) = (None, Some ErrJSONSyntax)
  /\ interrupted (Wrote (String.length data)) h f = Present data.
Proof.
  intros Hm. unfold saveHistory, interrupted, WriteFile, file_after. rewrite Hm.
  split; [reflexivity|]. split; [apply (MarshalIndent_not_empty h data Hm)|].
  split; [reflexivity|]. split; [reflexivity|].
  split; [reflexivity|]. split; [reflexivity|].
  split; [destruct data; reflexivity|].
  rewrite substring_all. reflexivity.
Qed.

Lemma C4_witness :
  Codec.MarshalIndent sample_history
  = Some (Json.print 0 (json_history sample_history))
  /\ loadHistory (interrupted (Wrote 0) sample_history sample_file)
     = (None, Some ErrJSONSyntax).
Proof.
  assert (Hm : Codec.MarshalIndent sample_history
               = Some (Json.print 0 (json_history sample_history)))
    by (vm_compute; reflexivity).
  split; [exact Hm|].
  exact (proj1 (proj2 (proj2 (proj2 (proj2 (proj2 (proj2
           (C4_write_in_place sample_history sample_file _ Hm)))))))).
Defined.

(** C7: [loadHistory] does not fail when the file is absent: it returns
    the empty history (a slice of length zero that is not nil) and no
    error.  Content that cannot be decoded is not dropped: no history is
    returned, and the error is one of the decoder's, a syntax error when
    the bytes are not a JSON document; a file that cannot be read gives
    the error of the read.  In none of these cases is the result that of
    the absent file. *)
Theorem C7_load_absent_or_malformed :
  loadHistory Absent = (Some {| Snapshots := Some [] |}, None)
  /\ (forall data, Json.parse data = None ->
        loadHistory (Present data) = (None, Some ErrJSONSyntax))
  /\ (forall data e, Codec.Unmarshal data = inr e ->
        loadHistory (Present data) = (None, Some e) /\ codec_error e
        /\ loadHistory (Present data) <> loadHistory Absent)
  /\ (forall c, loadHistory (Unreadable c) = (None, Some (ErrRead c)))
  /\ (forall f h, loadHistory f = (Some h, None) ->
        f = Absent \/ exists data, f = Present data /\ Codec.Unmarshal data = inl h).
Proof.
  split; [reflexivity|]. split.
  { intros data H. unfold loadHistory, Codec.Unmarshal. rewrite H. reflexivity. }
  split.
  { intros data e H. unfold loadHistory. rewrite H.
    split; [reflexivity|]. split; [apply (Unmarshal_error data e H)|discriminate]. }
  split; [reflexivity|].
  intros f h H. destruct (loadHistory_Some f h H) as [[-> _]|(data & -> & Hu)].
  - left. reflexivity.
  - right. exists data. split; [reflexivity|exact Hu].
Qed.

Lemma C7_witness :
  loadHistory (Present "{") = (None, Some ErrJSONSyntax)
  /\ loadHistory (Present "[]") = (None, Some ErrJSONType).
Proof.
  split.
  - apply (proj1 (proj2 C7_load_absent_or_malformed) "{"). vm_compute. reflexivity.
  - apply (proj1 (proj2 (proj2 C7_load_absent_or_malformed)) "[]" ErrJSONType).
    vm_compute. reflexivity.
Defined.
